(** * StochasticTree: a shallow embedding of the BART / XBART sampling core

    The development follows the C++ sources

      - [include/stochtree/partition_tracker.h]  (observation-to-leaf map),
      - [include/stochtree/data.h]               (residual column),
      - [include/stochtree/sampler.h]            (grow / prune, grow-from-root,
                                                  marginal likelihoods, variance
                                                  samplers),
      - [src/interface.cpp]                      (driver loop, draw storage).

    Number models.  C++ [int] / [data_size_t] values are [Z].  A C++ [double]
    is modelled in one of two ways, chosen by what a statement is about:

      - where the bit-level result of comparisons, additions or subtractions
        decides the statement, a [double] is an IEEE-754 binary64 value
        ([PrimFloat.float], executable);
      - where the statement is a closed formula using [log], [sqrt] or [pow],
        a [double] is idealised as a real number ([R]); rounding, infinities
        and NaN are then outside the model, which is said where it matters. *)

From Stdlib Require Import ZArith List Lia Bool.
From Stdlib Require Import Reals Lra.
From Stdlib Require Import Floats.
From Stdlib Require Import Permutation Sorted.
Import ListNotations.

Local Open Scope Z_scope.


(** * Part I.  The embedding *)

(** ** C++ vectors indexed by [int] *)

(** [v[i]] for a C++ [int] index; an index outside the vector is undefined
    behaviour in C++ and [None] here. *)
Definition vec_at {A : Type} (v : list A) (i : Z) : option A :=
  if i <? 0 then None else nth_error v (Z.to_nat i).

Fixpoint set_nth {A : Type} (v : list A) (i : nat) (x : A) : list A :=
  match v, i with
  | [], _ => []
  | _ :: tl, O => x :: tl
  | hd :: tl, S i' => hd :: set_nth tl i' x
  end.

(** [v[i] = x]; outside the vector (undefined behaviour) the vector is left
    as it is. *)
Definition vec_set {A : Type} (v : list A) (i : Z) (x : A) : list A :=
  if i <? 0 then v else set_nth v (Z.to_nat i) x.

(** [v.resize(n)]: keep the first [n] elements, pad with value-initialised
    elements [d]. *)
Definition resize {A : Type} (n : nat) (d : A) (v : list A) : list A :=
  firstn n v ++ repeat d (n - length v).

(** The values [0, 1, ..., n-1] of a counting [for] loop. *)
Definition upto (n : Z) : list Z := map Z.of_nat (seq 0 (Z.to_nat n)).

(** ** SampleNodeMapper (partition_tracker.h, lines 43-91) *)

Module Mapper.

Record SampleNodeMapper : Type := mkMapper {
  tree_observation_indices_ : list (list Z);
  num_trees_ : Z;
  num_observations_ : Z
}.

Definition NumTrees (m : SampleNodeMapper) : Z := num_trees_ m.

Definition NumObservations (m : SampleNodeMapper) : Z := num_observations_ m.

(** The body shared by both constructors: the outer vector is resized to
    [num_trees_] (empty rows), then every row [j < num_trees_] is resized to
    [num_observations_]; [resize] value-initialises, so every [int] is 0. *)
Definition allocate (num_trees num_observations : Z) : list (list Z) :=
  map (resize (Z.to_nat num_observations) 0)
      (resize (Z.to_nat num_trees) [] []).

(** [SampleNodeMapper(int num_trees, data_size_t num_observations)] *)
Definition new (num_trees num_observations : Z) : SampleNodeMapper :=
  {| tree_observation_indices_ := allocate num_trees num_observations;
     num_trees_ := num_trees;
     num_observations_ := num_observations |}.

(** [SampleNodeMapper(SampleNodeMapper& other)]: reads only the two sizes of
    [other]; [other.tree_observation_indices_] is never read. *)
Definition copy (other : SampleNodeMapper) : SampleNodeMapper :=
  {| tree_observation_indices_ :=
       allocate (NumTrees other) (NumObservations other);
     num_trees_ := NumTrees other;
     num_observations_ := NumObservations other |}.

(** [CHECK_LT] aborts the program when it fails: [None]. *)
Definition GetNodeId (m : SampleNodeMapper) (sample_id tree_id : Z)
  : option Z :=
  if negb (sample_id <? num_observations_ m) then None
  else if negb (tree_id <? num_trees_ m) then None
  else match vec_at (tree_observation_indices_ m) tree_id with
       | Some row => vec_at row sample_id
       | None => None
       end.

Definition SetNodeId (m : SampleNodeMapper) (sample_id tree_id node_id : Z)
  : option SampleNodeMapper :=
  if negb (sample_id <? num_observations_ m) then None
  else if negb (tree_id <? num_trees_ m) then None
  else match vec_at (tree_observation_indices_ m) tree_id with
       | Some row =>
           Some {| tree_observation_indices_ :=
                     vec_set (tree_observation_indices_ m) tree_id
                             (vec_set row sample_id node_id);
                   num_trees_ := num_trees_ m;
                   num_observations_ := num_observations_ m |}
       | None => None
       end.

(** [AssignAllSamplesToRoot(tree_id)]: every entry of row [tree_id] becomes 0. *)
Definition AssignAllSamplesToRoot (m : SampleNodeMapper) (tree_id : Z)
  : SampleNodeMapper :=
  match vec_at (tree_observation_indices_ m) tree_id with
  | Some row =>
      {| tree_observation_indices_ :=
           vec_set (tree_observation_indices_ m) tree_id
                   (fold_left (fun r i => vec_set r i 0)
                              (upto (num_observations_ m)) row);
         num_trees_ := num_trees_ m;
         num_observations_ := num_observations_ m |}
  | None => m
  end.

(** A run of [SetNodeId] calls, each [(sample_id, tree_id, node_id)]; the run
    stops at the first failed [CHECK_LT]. *)
Fixpoint assign (m : SampleNodeMapper) (calls : list (Z * Z * Z))
  : option SampleNodeMapper :=
  match calls with
  | [] => Some m
  | (sample_id, tree_id, node_id) :: rest =>
      match SetNodeId m sample_id tree_id node_id with
      | Some m' => assign m' rest
      | None => None
      end
  end.

(** The shape every constructed mapper has: [num_trees_] rows of
    [num_observations_] entries. *)
Definition shaped (m : SampleNodeMapper) : Prop :=
  length (tree_observation_indices_ m) = Z.to_nat (num_trees_ m) /\
  Forall (fun row => length row = Z.to_nat (num_observations_ m))
         (tree_observation_indices_ m).

End Mapper.

(** ** IEEE-754 binary64 values *)

Definition double : Type := PrimFloat.float.

(** [std::numeric_limits<double>::max()], the largest finite double. *)
Definition DBL_MAX : double := 0x1.fffffffffffffp+1023%float.

(** [std::numeric_limits<double>::min()]: the smallest POSITIVE normal double
    (about 2.2e-308); the most negative double is [lowest()], which the
    code does not use. *)
Definition DBL_MIN : double := 0x1p-1022%float.

(** Conversion of a C++ [int] to [double] (exact for every 32-bit value). *)
Definition double_of_int (z : Z) : double :=
  if z <? 0 then PrimFloat.opp (PrimFloat.of_uint63 (Uint63.of_Z (- z)))
  else PrimFloat.of_uint63 (Uint63.of_Z z).

(** ** Dataset: the residual column (data.h, lines 34-144) *)

Module Data.

Record Dataset : Type := mkDataset {
  covariates_ : list double;
  outcome_ : list double;
  residuals_ : list double;
  num_observations_ : Z;
  num_covariates_ : Z;
  num_outcome_ : Z
}.

Definition with_residuals (d : Dataset) (r : list double) : Dataset :=
  {| covariates_ := covariates_ d;
     outcome_ := outcome_ d;
     residuals_ := r;
     num_observations_ := num_observations_ d;
     num_covariates_ := num_covariates_ d;
     num_outcome_ := num_outcome_ d |}.

(** [CovariateValue(row, col)], row-major storage. *)
Definition CovariateValue (d : Dataset) (row col : Z) : option double :=
  vec_at (covariates_ d) (row * num_covariates_ d + col).

(** [ResidualValue(row)] (single outcome). *)
Definition ResidualValue (d : Dataset) (row : Z) : option double :=
  vec_at (residuals_ d) row.

(** [residuals_[row*num_outcome_ + col] += val] *)
Definition ResidualAdd (d : Dataset) (row col : Z) (val : double) : Dataset :=
  let i := row * num_outcome_ d + col in
  match vec_at (residuals_ d) i with
  | Some r => with_residuals d (vec_set (residuals_ d) i (r + val)%float)
  | None => d
  end.

(** [residuals_[row*num_outcome_ + col] -= val] *)
Definition ResidualSubtract (d : Dataset) (row col : Z) (val : double)
  : Dataset :=
  let i := row * num_outcome_ d + col in
  match vec_at (residuals_ d) i with
  | Some r => with_residuals d (vec_set (residuals_ d) i (r - val)%float)
  | None => d
  end.

End Data.

(** ** Unsorted partition tracker (partition_tracker.h, lines 93-259) *)

Module Tracker.

(** The fields of [FeatureUnsortedPartition] that the samplers read. *)
Record FeatureUnsortedPartition : Type := mkPartition {
  indices_ : list Z;
  node_begin_ : list Z;
  node_length_ : list Z
}.

(** Modelled from the spec: [NodeBegin] and [NodeEnd] are declared in
    partition_tracker.h and defined in a source file that is not part of this
    development; the spec gives each live node [n] the pair
    [(begin(n), length(n))] and the range [begin(n) .. begin(n)+length(n)). *)
Definition NodeBegin (p : FeatureUnsortedPartition) (node_id : Z) : Z :=
  match vec_at (node_begin_ p) node_id with Some b => b | None => 0 end.

(** Modelled from the spec: see [NodeBegin]. *)
Definition NodeEnd (p : FeatureUnsortedPartition) (node_id : Z) : Z :=
  NodeBegin p node_id +
  match vec_at (node_length_ p) node_id with Some l => l | None => 0 end.

(** The observations visited by
    [for (auto i = indices_.begin() + node_begin; i != indices_.begin() + node_end; i++)]. *)
Definition node_range (p : FeatureUnsortedPartition) (node_id : Z) : list Z :=
  firstn (Z.to_nat (NodeEnd p node_id - NodeBegin p node_id))
         (skipn (Z.to_nat (NodeBegin p node_id)) (indices_ p)).

(** [UnsortedNodeSampleTracker]: one partition per tree. *)
Definition UnsortedNodeSampleTracker : Type := list FeatureUnsortedPartition.

Definition GetFeaturePartition (t : UnsortedNodeSampleTracker) (i : Z)
  : option FeatureUnsortedPartition := vec_at t i.

End Tracker.

(** ** BART grow move (sampler.h) *)

Module Grow.

Import Tracker.

(** [data->covariates(row, col)]: the covariate matrix of the forest dataset
    (an Eigen matrix; its class is not part of this development). *)
Definition Matrix : Type := Z -> Z -> double.

(** One iteration of the loop of [VarSplitRange] (lines 36-44). *)
Definition VarSplitRange_step (covariates : Matrix) (feature_split : Z)
  (acc : double * double) (idx : Z) : double * double :=
  let '(var_min, var_max) := acc in
  let feature_value := covariates idx feature_split in
  if (feature_value <? var_min)%float then (feature_value, var_max)
  else if (var_max <? feature_value)%float then (var_min, feature_value)
  else (var_min, var_max).

(** [VarSplitRange] (lines 24-45); the result is [(var_min, var_max)].
    [None] when [tree_num] names no partition (undefined behaviour). *)
Definition VarSplitRange (covariates : Matrix)
  (node_tracker : UnsortedNodeSampleTracker)
  (leaf_split feature_split tree_num : Z) : option (double * double) :=
  match GetFeaturePartition node_tracker tree_num with
  | Some tree_node_tracker =>
      Some (fold_left (VarSplitRange_step covariates feature_split)
                      (node_range tree_node_tracker leaf_split)
                      (DBL_MAX, DBL_MIN))
  | None => None
  end.

(** The feature values of the observations of a leaf, in tracker order. *)
Definition leaf_values (covariates : Matrix)
  (node_tracker : UnsortedNodeSampleTracker)
  (leaf_split feature_split tree_num : Z) : list double :=
  match GetFeaturePartition node_tracker tree_num with
  | Some p => map (fun idx => covariates idx feature_split)
                  (node_range p leaf_split)
  | None => []
  end.

(** [double p_leaf = 1/num_leaves;] (line 315): both operands are [int], so
    the quotient is the truncating integer division of C++, converted to
    [double] afterwards. *)
Definition p_leaf (num_leaves : Z) : double :=
  double_of_int (Z.quot 1 num_leaves).

(** [double p_leaf_parent = 1/(num_leaf_parents+1);] (line 316). *)
Definition p_leaf_parent (num_leaf_parents : Z) : double :=
  double_of_int (Z.quot 1 (num_leaf_parents + 1)).

(** [std::fill(leaf_weights.begin(), leaf_weights.end(), 1.0/num_leaves);]
    (line 265): the weight with which a leaf is drawn, a [double] division. *)
Definition leaf_weight (num_leaves : Z) : double :=
  (1 / double_of_int num_leaves)%float.

(** Lines 323-326: [if (log_mh_ratio > 1) log_mh_ratio = 1;] *)
Definition threshold (log_mh_ratio : double) : double :=
  if (1 <? log_mh_ratio)%float then 1%float else log_mh_ratio.

(** Line 332: [if (log_acceptance_prob <= log_mh_ratio)], on the thresholded
    ratio. *)
Definition accept (log_mh_ratio log_acceptance_prob : double) : bool :=
  (log_acceptance_prob <=? threshold log_mh_ratio)%float.

(** The clipping of a log-space ratio at 0, [min(log_mh_ratio, 0)], in the
    form [PruneMCMC] has it (lines 399-402):
    [if (log_mh_ratio > 0) log_mh_ratio = 0;] *)
Definition min_zero (log_mh_ratio : double) : double :=
  if (0 <? log_mh_ratio)%float then 0%float else log_mh_ratio.

Section GrowMCMC.

(** [std::log] of [<cmath>]. *)
Variable log : double -> double.

(** The tree class (tree.h) is used as a black box. *)
Variable Tree : Type.
Variable ExpandNode : Tree -> Z -> Z -> double -> bool -> double -> double -> Tree.
Variable LeftChild : Tree -> Z -> Z.
Variable RightChild : Tree -> Z -> Z.
Variable GetLeaves : Tree -> list Z.
Variable NumLeaves : Tree -> Z.
Variable NumLeafParents : Tree -> Z.

(** [FeatureUnsortedPartition::PartitionNode] and the per-node
    [FeatureUnsortedPartition::UpdateObservationMapping] are declared in
    partition_tracker.h; their definitions are not part of this development. *)
Variable PartitionNode :
  FeatureUnsortedPartition -> Matrix -> Z -> Z -> Z -> Z -> double ->
  FeatureUnsortedPartition.
Variable UpdateNodeMapping :
  FeatureUnsortedPartition -> Z -> Z -> Mapper.SampleNodeMapper ->
  Mapper.SampleNodeMapper.

(** What a grow move can change: the tree, the partition tracker and the
    observation-to-leaf map. *)
Record Model : Type := mkModel {
  tree : Tree;
  node_tracker : UnsortedNodeSampleTracker;
  sample_node_mapper : Mapper.SampleNodeMapper
}.

(** [UnsortedNodeSampleTracker::PartitionTreeNode] (partition_tracker.h,
    lines 170-172). *)
Definition PartitionTreeNode (t : UnsortedNodeSampleTracker)
  (covariates : Matrix)
  (tree_id node_id left_node_id right_node_id feature_split : Z)
  (split_value : double) : UnsortedNodeSampleTracker :=
  match GetFeaturePartition t tree_id with
  | Some p =>
      vec_set t tree_id
        (PartitionNode p covariates node_id left_node_id right_node_id
                       feature_split split_value)
  | None => t
  end.

(** [UnsortedNodeSampleTracker::UpdateObservationMapping(Tree*, ...)]
    (partition_tracker.h, lines 240-247): one update per leaf of the tree. *)
Definition UpdateObservationMapping (t : UnsortedNodeSampleTracker)
  (tr : Tree) (tree_id : Z) (m : Mapper.SampleNodeMapper)
  : Mapper.SampleNodeMapper :=
  match GetFeaturePartition t tree_id with
  | Some p =>
      fold_left (fun m' leaf => UpdateNodeMapping p leaf tree_id m')
                (GetLeaves tr) m
  | None => m
  end.

(** [AddSplitToModel] for the unsorted tracker (lines 47-67); the temporary
    leaf values are [0.]. *)
Definition AddSplitToModel (covariates : Matrix) (s : Model)
  (leaf_node feature_split : Z) (split_value : double) (tree_num : Z)
  : Model :=
  let tree' :=
    ExpandNode (tree s) leaf_node feature_split split_value true
               0%float 0%float in
  let left_node := LeftChild tree' leaf_node in
  let right_node := RightChild tree' leaf_node in
  let tracker' :=
    PartitionTreeNode (node_tracker s) covariates tree_num leaf_node
                      left_node right_node feature_split split_value in
  {| tree := tree';
     node_tracker := tracker';
     sample_node_mapper :=
       UpdateObservationMapping tracker' tree' tree_num
                                (sample_node_mapper s) |}.

(** Lines 318-322, with the left-to-right evaluation order of C++. *)
Definition log_mh_ratio
  (pg pgl pgr prob_prune_new p_leaf_parent' prob_grow_old p_leaf'
   no_split_log_marginal_likelihood split_log_marginal_likelihood : double)
  : double :=
  (log pg + log (1 - pgl) + log (1 - pgr) - log (1 - pg)
   + log prob_prune_new + log p_leaf_parent' - log prob_grow_old
   - log p_leaf' + no_split_log_marginal_likelihood
   - split_log_marginal_likelihood)%float.

(** What lines 257-311 of [GrowMCMC] have computed or drawn when the move
    reaches line 313. *)
Record Proposal : Type := mkProposal {
  leaf_chosen : Z;
  var_chosen : Z;
  split_point_chosen : double;
  pg : double;
  pgl : double;
  pgr : double;
  prob_prune_new : double;
  no_split_log_marginal_likelihood : double;
  split_log_marginal_likelihood : double
}.

(** The log-ratio of lines 313-322 for a proposal on the current tree. *)
Definition proposal_log_mh_ratio (s : Model) (q : Proposal)
  (prob_grow_old : double) : double :=
  log_mh_ratio (pg q) (pgl q) (pgr q) (prob_prune_new q)
               (p_leaf_parent (NumLeafParents (tree s)))
               prob_grow_old
               (p_leaf (NumLeaves (tree s)))
               (no_split_log_marginal_likelihood q)
               (split_log_marginal_likelihood q).

(** [GrowMCMC] from line 313 to its end (line 338).  [u] is the draw of
    [mh_accept(gen)]; the result is the model after the move. *)
Definition GrowMCMC (covariates : Matrix) (s : Model) (q : Proposal)
  (prob_grow_old : double) (tree_num : Z) (u : double) : Model :=
  let r := proposal_log_mh_ratio s q prob_grow_old in
  let log_acceptance_prob := log u in
  if accept r log_acceptance_prob
  then AddSplitToModel covariates s (leaf_chosen q) (var_chosen q)
                       (split_point_chosen q) tree_num
  else s.

End GrowMCMC.

End Grow.

(** ** XBART grow-from-root: the split queue (sampler.h, lines 638-665 and
       950-957) *)

Module GFR.

Definition node_t : Type := Z.

(** Modelled from the spec: [Tree::kRoot] is declared in tree.h, which is not
    part of this development; the spec says the root id is 0 by convention. *)
Definition kRoot : node_t := 0.

(** [std::deque<node_t>], front first. *)
Definition deque : Type := list node_t.

Definition push_front (q : deque) (x : node_t) : deque := x :: q.

Definition push_back (q : deque) (x : node_t) : deque := q ++ [x].

(** The last two statements of the grow-from-root [AddSplitToModel]
    (lines 954-956):
    [split_queue.push_front(right_node); split_queue.push_front(left_node);] *)
Definition AddSplitToModel_queue (split_queue : deque)
  (left_node right_node : node_t) : deque :=
  push_front (push_front split_queue right_node) left_node.

(** The effect of [SampleSplitRule] (lines 689-728) on the queue.  [rule]
    stands for the outcome of the random draw at a node: [None] when the
    "no split" option is drawn, [Some (left, right)] when a split is drawn and
    the tree gives the two new children these ids. *)
Definition SampleSplitRule (rule : node_t -> option (node_t * node_t))
  (leaf_node : node_t) (split_queue : deque) : deque :=
  match rule leaf_node with
  | None => split_queue
  | Some (left_node, right_node) =>
      AddSplitToModel_queue split_queue left_node right_node
  end.

(** The [while (!split_queue_.empty())] loop of [SampleTree]
    (lines 654-664).  [sampled] lists the nodes whose split rule has been
    drawn, in the order they were drawn; [None] when [fuel] iterations were
    not enough to empty the queue. *)
Fixpoint SampleTree_loop (fuel : nat)
  (rule : node_t -> option (node_t * node_t))
  (split_queue : deque) (sampled : list node_t) : option (list node_t) :=
  match split_queue with
  | [] => Some sampled
  | curr_node_id :: rest =>
      match fuel with
      | O => None
      | S fuel' =>
          SampleTree_loop fuel' rule
            (SampleSplitRule rule curr_node_id rest)
            (sampled ++ [curr_node_id])
      end
  end.

(** [SampleTree]: the queue starts with the root alone. *)
Definition SampleTree (fuel : nat)
  (rule : node_t -> option (node_t * node_t)) : option (list node_t) :=
  SampleTree_loop fuel rule (push_back [] kRoot) [].

(** The tree that a run of the sampler builds: every node with its id. *)
Inductive grown : Type :=
| Leaf (id : node_t)
| Split (id : node_t) (left right : grown).

Definition root_id (t : grown) : node_t :=
  match t with Leaf id => id | Split id _ _ => id end.

Fixpoint size (t : grown) : nat :=
  match t with
  | Leaf _ => 1
  | Split _ l r => S (size l + size r)
  end.

(** Depth-first, parent before children, left subtree before right. *)
Fixpoint preorder (t : grown) : list node_t :=
  match t with
  | Leaf id => [id]
  | Split id l r => id :: preorder l ++ preorder r
  end.

(** The nodes of [t] with their depth, in pre-order. *)
Fixpoint depths (d : Z) (t : grown) : list (node_t * Z) :=
  match t with
  | Leaf id => [(id, d)]
  | Split id l r => (id, d) :: depths (d + 1) l ++ depths (d + 1) r
  end.

(** [rule] draws exactly the splits of [t]. *)
Fixpoint draws (rule : node_t -> option (node_t * node_t)) (t : grown)
  : Prop :=
  match t with
  | Leaf id => rule id = None
  | Split id l r =>
      rule id = Some (root_id l, root_id r) /\ draws rule l /\ draws rule r
  end.

(** The queue discipline in the words of the spec, for comparison: the
    children of a split node are appended to the back of the queue. *)
Fixpoint spec_breadth_first_loop (fuel : nat)
  (rule : node_t -> option (node_t * node_t))
  (split_queue : deque) (sampled : list node_t) : option (list node_t) :=
  match split_queue with
  | [] => Some sampled
  | curr_node_id :: rest =>
      match fuel with
      | O => None
      | S fuel' =>
          spec_breadth_first_loop fuel' rule
            match rule curr_node_id with
            | None => rest
            | Some (left_node, right_node) =>
                push_back (push_back rest left_node) right_node
            end
            (sampled ++ [curr_node_id])
      end
  end.

(** The position of the first occurrence of [x] in [order]. *)
Fixpoint position (x : node_t) (order : list node_t) : option nat :=
  match order with
  | [] => None
  | y :: rest =>
      if x =? y then Some O else option_map S (position x rest)
  end.

(** [sampled_before order a b]: both nodes are sampled and [a] is sampled
    before [b]. *)
Definition sampled_before (order : list node_t) (a b : node_t) : bool :=
  match position a order, position b order with
  | Some i, Some j => (i <? j)%nat
  | _, _ => false
  end.

End GFR.

(** ** Marginal likelihoods and cutpoint enumeration over the reals
       (sampler.h, lines 89-132 and 730-841) *)

Module Leaf.

Local Open Scope R_scope.

(** The constant-mean sufficient statistic [(n, sum r, sum r^2)]; the
    marginal likelihoods read its fields [n], [sum_y], [sum_y_squared]. *)
Record LeafConstantGaussianSuffStat : Type := mkSuffStat {
  n : Z;
  sum_y : R;
  sum_y_squared : R
}.

(** [ForestLeafSuffStatType()] *)
Definition zero_stat : LeafConstantGaussianSuffStat :=
  {| n := 0; sum_y := 0; sum_y_squared := 0 |}.

(** Modelled from the spec: [IncrementSuffStat] belongs to the
    sufficient-statistic class, which is not part of this development; the
    spec says "increment by one observation" on [(n, sum r, sum r^2)]. *)
Definition IncrementSuffStat (s : LeafConstantGaussianSuffStat) (r : R)
  : LeafConstantGaussianSuffStat :=
  {| n := n s + 1;
     sum_y := sum_y s + r;
     sum_y_squared := sum_y_squared s + r * r |}.

(** Modelled from the spec: [SubtractSuffStat] belongs to the same class; the
    spec says "subtract-sibling (parent - left -> right)". *)
Definition SubtractSuffStat (parent left : LeafConstantGaussianSuffStat)
  : LeafConstantGaussianSuffStat :=
  {| n := n parent - n left;
     sum_y := sum_y parent - sum_y left;
     sum_y_squared := sum_y_squared parent - sum_y_squared left |}.

(** [std::pow(x, y)] on real numbers: [exp (y ln x)] for a positive base, the
    integer power for an integral exponent.  The cases where C++ returns an
    infinity or NaN (negative base with a fractional exponent, zero base with
    a negative exponent) are outside the real-number model. *)
Definition std_pow (x y : R) : R :=
  if Rlt_dec 0 x then Rpower x y
  else if Req_dec_T y (IZR (Int_part y)) then powerRZ x (Int_part y)
  else 0.

Definition M_PI : R := PI.

(** [NoSplitLogMarginalLikelihood] (lines 118-132); [tau] is
    [leaf_prior.GetPriorScale()]. *)
Definition NoSplitLogMarginalLikelihood
  (suff_stat : LeafConstantGaussianSuffStat) (tau global_variance : R) : R :=
  let sigma_sq := global_variance in
  let n' := IZR (n suff_stat) in
  let sum_y' := sum_y suff_stat in
  let sum_y_squared' := sum_y_squared suff_stat in
  - (n' * (1/2)) * ln (2 * M_PI) - n' * ln (R_sqrt.sqrt sigma_sq) +
  (1/2) * ln (sigma_sq / (sigma_sq + tau * n')) -
  (sum_y_squared' / (2 * sigma_sq)) +
  ((tau * std_pow sum_y' 2) / (2 * sigma_sq * (sigma_sq + tau * n'))).

(** [SplitLogMarginalLikelihood] (lines 89-116). *)
Definition SplitLogMarginalLikelihood
  (left_stat right_stat : LeafConstantGaussianSuffStat)
  (tau global_variance : R) : R :=
  let sigma_sq := global_variance in
  let left_n := IZR (n left_stat) in
  let left_sum_y := sum_y left_stat in
  let left_sum_y_squared := sum_y_squared left_stat in
  let left_log_ml :=
    - (left_n * (1/2)) * ln (2 * M_PI) - left_n * ln (R_sqrt.sqrt sigma_sq) +
    (1/2) * ln (sigma_sq / (sigma_sq + tau * left_n)) -
    (left_sum_y_squared / (2 * sigma_sq)) +
    ((tau * std_pow left_sum_y 2) /
     (2 * sigma_sq * (sigma_sq + tau * left_n))) in
  let right_n := IZR (n right_stat) in
  let right_sum_y := sum_y right_stat in
  let right_sum_y_squared := sum_y_squared right_stat in
  let right_log_ml :=
    - (right_n * (1/2)) * ln (2 * M_PI) - right_n * ln (R_sqrt.sqrt sigma_sq) +
    (1/2) * ln (sigma_sq / (sigma_sq + tau * right_n)) -
    (right_sum_y_squared / (2 * sigma_sq)) +
    ((tau * std_pow right_sum_y 2) /
     (2 * sigma_sq * (sigma_sq + tau * right_n))) in
  left_log_ml + right_log_ml.

(** The closed form of the spec (section 4.6), in the standard deviation
    [sigma]:
    [-(n/2) log(2 pi) - n log sigma + 1/2 log(sigma^2 / (sigma^2 + tau n))
     - sum r^2 / (2 sigma^2) + tau (sum r)^2 / (2 sigma^2 (sigma^2 + tau n))]. *)
Definition spec_log_ml (S : LeafConstantGaussianSuffStat) (tau sigma : R) : R :=
  - (IZR (n S) / 2) * ln (2 * PI) - IZR (n S) * ln sigma +
  (1/2) * ln (sigma ^ 2 / (sigma ^ 2 + tau * IZR (n S))) -
  sum_y_squared S / (2 * sigma ^ 2) +
  tau * (sum_y S) ^ 2 / (2 * sigma ^ 2 * (sigma ^ 2 + tau * IZR (n S))).

Inductive FeatureType : Type :=
| kNumeric
| kOrderedCategorical
| kUnorderedCategorical.

(** [std::numeric_limits<double>::max()] as a real number. *)
Definition R_DBL_MAX : R := IZR ((2 ^ 53 - 1) * 2 ^ 971).

(** The value of a double expression that takes a logarithm, with rounding
    left out: a real number, an infinity or a NaN. *)
Inductive ext : Type :=
| Real (r : R)
| PosInf
| NegInf
| NaN.

(** [a + b] on doubles: a NaN operand gives NaN, and so do two infinities of
    opposite sign. *)
Definition ext_add (a b : ext) : ext :=
  match a, b with
  | NaN, _ | _, NaN => NaN
  | Real x, Real y => Real (x + y)
  | PosInf, NegInf | NegInf, PosInf => NaN
  | PosInf, _ | _, PosInf => PosInf
  | NegInf, _ | _, NegInf => NegInf
  end.

(** [a - b] on doubles. *)
Definition ext_sub (a b : ext) : ext :=
  match a, b with
  | NaN, _ | _, NaN => NaN
  | Real x, Real y => Real (x - y)
  | PosInf, PosInf | NegInf, NegInf => NaN
  | PosInf, _ | _, NegInf => PosInf
  | NegInf, _ | _, PosInf => NegInf
  end.

(** [a < b] on doubles: [false] when an operand is NaN. *)
Definition ext_lt (a b : ext) : bool :=
  match a, b with
  | Real x, Real y => if Rlt_dec x y then true else false
  | NegInf, Real _ | NegInf, PosInf | Real _, PosInf => true
  | _, _ => false
  end.

(** [std::log] at a finite argument: the logarithm of a positive number,
    minus infinity at 0 and NaN below 0. *)
Definition std_log (x : R) : ext :=
  if Rlt_dec 0 x then Real (ln x)
  else if Rlt_dec x 0 then NaN
  else NegInf.

(** The four output vectors of [Cutpoints] and [valid_cutpoint_count]. *)
Record CutpointEvaluations : Type := mkEvaluations {
  log_cutpoint_evaluations : list ext;
  cutpoint_features : list Z;
  cutpoint_values : list R;
  cutpoint_feature_types : list FeatureType;
  valid_cutpoint_count : Z
}.

(** The variables that the two nested loops of [Cutpoints] carry. *)
Record Enumeration : Type := mkEnumeration {
  left_suff_stat : LeafConstantGaussianSuffStat;
  num_cutpoints : Z;
  evaluations : CutpointEvaluations
}.

(** [num_cutpoints] counts the split evaluations recorded so far. *)
Definition counted (e : Enumeration) : Prop :=
  num_cutpoints e =
  Z.of_nat (length (log_cutpoint_evaluations (evaluations e))).

Section Cutpoints.

(** [residual->residual(idx)] *)
Variable residual : Z -> R.

(** [sorted_node_sample_tracker->SortIndex(i, j)] *)
Variable SortIndex : Z -> Z -> Z.

(** The cutpoint grid container (cutpoint_candidates.h, not part of this
    development) after [CalculateStrides] for feature [j]:
    [NumCutpoints(j)], [BinStartIndex(c, j)], [BinLength(c, j)]. *)
Variable NumCutpoints : Z -> Z.
Variable BinStartIndex : Z -> Z -> Z.
Variable BinLength : Z -> Z -> Z.

Variable feature_types : Z -> FeatureType.

(** [SampleGreaterThan] of the sufficient-statistic class, whose definition is
    not part of this development. *)
Variable SampleGreaterThan : LeafConstantGaussianSuffStat -> Z -> bool.

(** [tau] is [leaf_prior->GetPriorScale()]; [alpha], [beta] and
    [min_samples_leaf] come from the tree prior; [node_depth] is
    [tree->GetDepth(leaf_node)]; [num_features] is [data->covariates.cols()]. *)
Variables (tau outcome_variance alpha beta : R).
Variables (min_samples_leaf node_depth num_features : Z).

(** Lines 739-744: the sufficient statistic of the node's range. *)
Definition root_suff_stat (node_begin node_end : Z)
  : LeafConstantGaussianSuffStat :=
  fold_left (fun s i => IncrementSuffStat s (residual (SortIndex i 0)))
            (map (fun k => (node_begin + k)%Z)
                 (upto (node_end - node_begin)))
            zero_stat.

(** The body of the loop over [cutpoint_idx] (lines 783-818). *)
Definition cutpoint_step (root : LeafConstantGaussianSuffStat) (j : Z)
  (e : Enumeration) (cutpoint_idx : Z) : Enumeration :=
  let current_bin_begin := BinStartIndex cutpoint_idx j in
  let current_bin_size := BinLength cutpoint_idx j in
  let left :=
    fold_left
      (fun s k =>
         IncrementSuffStat s (residual (SortIndex (current_bin_begin + k) j)))
      (upto current_bin_size) (left_suff_stat e) in
  let right := SubtractSuffStat root left in
  let cutoff_value := IZR cutpoint_idx in
  let valid_split :=
    SampleGreaterThan left min_samples_leaf &&
    SampleGreaterThan right min_samples_leaf in
  let out := evaluations e in
  if valid_split then
    {| left_suff_stat := left;
       num_cutpoints := num_cutpoints e + 1;
       evaluations :=
         {| log_cutpoint_evaluations :=
              log_cutpoint_evaluations out ++
              [Real (SplitLogMarginalLikelihood left right tau
                       outcome_variance)];
            cutpoint_features := cutpoint_features out ++ [j];
            cutpoint_values := cutpoint_values out ++ [cutoff_value];
            cutpoint_feature_types :=
              cutpoint_feature_types out ++ [feature_types j];
            valid_cutpoint_count := valid_cutpoint_count out |} |}
  else
    {| left_suff_stat := left;
       num_cutpoints := num_cutpoints e;
       evaluations := out |}.

(** The body of the loop over the features [j] (lines 775-819). *)
Definition feature_step (root : LeafConstantGaussianSuffStat)
  (e : Enumeration) (j : Z) : Enumeration :=
  fold_left (cutpoint_step root j) (upto (NumCutpoints j - 1)) e.

(** Lines 749-819: the vectors are cleared, then every feature is scanned;
    [valid_cutpoint_count] is an output reference that the loops do not
    touch, [count0] is the value it holds on entry. *)
Definition enumerate (root : LeafConstantGaussianSuffStat) (count0 : Z)
  : Enumeration :=
  fold_left (feature_step root) (upto num_features)
    {| left_suff_stat := zero_stat;
       num_cutpoints := 0;
       evaluations :=
         {| log_cutpoint_evaluations := [];
            cutpoint_features := [];
            cutpoint_values := [];
            cutpoint_feature_types := [];
            valid_cutpoint_count := count0 |} |}.


(** The argument of the first logarithm of lines 832 and 834:
    [((std::pow(1+node_depth, beta))/alpha) - 1.0]. *)
Definition prior_odds : R := Rpower (IZR (1 + node_depth)) beta / alpha - 1.

(** Lines 826-835. *)
Definition bart_prior_no_split_adj (num_cutpoints' : Z) : ext :=
  if (num_cutpoints' =? 0)%Z then
    std_log prior_odds
  else
    ext_add (std_log prior_odds) (std_log (IZR num_cutpoints')).



(** [Cutpoints] (lines 730-841). *)
Definition Cutpoints (node_begin node_end count0 : Z) : CutpointEvaluations :=
  let root := root_suff_stat node_begin node_end in
  let no_split_log_ml :=
    NoSplitLogMarginalLikelihood root tau outcome_variance in
  let e := enumerate root count0 in
  let out := evaluations e in
  let no_split_log_ml' :=
    ext_add (Real no_split_log_ml)
            (bart_prior_no_split_adj (num_cutpoints e)) in
  {| log_cutpoint_evaluations :=
       log_cutpoint_evaluations out ++ [no_split_log_ml'];
     cutpoint_features := cutpoint_features out ++ [(-1)%Z];
     cutpoint_values := cutpoint_values out ++ [R_DBL_MAX];
     cutpoint_feature_types := cutpoint_feature_types out ++ [kNumeric];
     valid_cutpoint_count := num_cutpoints e |}.

End Cutpoints.

(** A tree prior with [alpha] in (0, 1) and [beta >= 0], at a depth that is
    not negative. *)
Definition tree_prior_in_range (alpha beta : R) (node_depth : Z) : Prop :=
  0 < alpha < 1 /\ 0 <= beta /\ (0 <= node_depth)%Z.

End Leaf.

(** ** Variance samplers over the reals (sampler.h, lines 1237-1301) *)

Module Variance.

Local Open Scope R_scope.

(** The inverse-gamma prior: [GetShape()] and [GetScale()]. *)
Record IGVariancePrior : Type := mkPrior {
  GetShape : R;
  GetScale : R
}.

(** Modelled from the spec: the ensemble class (ensemble.h) is not part of
    this development.  A forest is given by the leaf values of each of its
    trees; [NumLeaves] is the total number of leaves in the ensemble and
    [SumLeafSquared] the sum of the squared leaf values over all of them. *)
Definition TreeEnsemble : Type := list (list R).

(** Modelled from the spec: see [TreeEnsemble]. *)
Definition NumLeaves (forest : TreeEnsemble) : Z :=
  Z.of_nat (length (concat forest)).

(** Modelled from the spec: see [TreeEnsemble]. *)
Definition SumLeafSquared (forest : TreeEnsemble) : R :=
  fold_right (fun mu acc => mu * mu + acc) 0 (concat forest).

(** The sum of the squared residuals (lines 1251-1254). *)
Definition sum_sq_resid (residual : list R) : R :=
  fold_left (fun acc r => acc + r ^ 2) residual 0.

(** [GlobalHomoskedasticVarianceSampler::PosteriorShape] (lines 1242-1246). *)
Definition GlobalPosteriorShape (residual : list R)
  (variance_prior : IGVariancePrior) : R :=
  let a := GetShape variance_prior in
  (a / 2) + IZR (Z.of_nat (length residual)).

(** [GlobalHomoskedasticVarianceSampler::PosteriorScale] (lines 1247-1256). *)
Definition GlobalPosteriorScale (residual : list R)
  (variance_prior : IGVariancePrior) : R :=
  let a := GetShape variance_prior in
  let b := GetScale variance_prior in
  (a * b / 2) + sum_sq_resid residual.

(** [LeafNodeHomoskedasticVarianceSampler::PosteriorShape]
    (lines 1277-1281). *)
Definition PosteriorShape (forest : TreeEnsemble)
  (variance_prior : IGVariancePrior) : R :=
  let a := GetShape variance_prior in
  let num_leaves := NumLeaves forest in
  (a / 2) + IZR num_leaves.

(** [LeafNodeHomoskedasticVarianceSampler::PosteriorScale]
    (lines 1282-1287): [a] is read and not used. *)
Definition PosteriorScale (forest : TreeEnsemble)
  (variance_prior : IGVariancePrior) : R :=
  let a := GetShape variance_prior in
  let b := GetScale variance_prior in
  let mu_sq := SumLeafSquared forest in
  (b / 2) + mu_sq.

(** [LeafNodeHomoskedasticVarianceSampler::SampleVarianceParameter]
    (lines 1288-1300).  [gamma_draw shape scale] is the value that
    [std::gamma_distribution<double>(shape, scale)] draws from the
    generator. *)
Definition SampleVarianceParameter (gamma_draw : R -> R -> R)
  (forest : TreeEnsemble) (variance_prior : IGVariancePrior) : R :=
  let ig_shape := PosteriorShape forest variance_prior in
  let ig_scale := PosteriorScale forest variance_prior in
  let gamma_scale := 1 / ig_scale in
  1 / gamma_draw ig_shape gamma_scale.

(** The posterior scale in the words of the spec (section 4.6):
    [a_tau * b_tau / 2 + sum mu^2]. *)
Definition spec_posterior_scale (forest : TreeEnsemble)
  (variance_prior : IGVariancePrior) : R :=
  GetShape variance_prior * GetScale variance_prior / 2 +
  SumLeafSquared forest.

End Variance.

(** ** The driver loop (interface.cpp) *)

Module Driver.

Import Data.

Record Config : Type := mkConfig {
  num_samples : Z;
  num_burnin : Z;
  num_trees : Z
}.

(** *** Residual bookkeeping (lines 361-392) *)

Section Residuals.

(** The tree class (tree.h) is used as a black box. *)
Variable Tree : Type.
Variable PredictFromNode : Tree -> Z -> double.

(** [tree->PredictFromNode(sample_node_mapper->GetNodeId(k, j))]; [None] when
    a [CHECK_LT] of [GetNodeId] aborts the run. *)
Definition prediction_val (tree : Tree) (sample_node_mapper : Mapper.SampleNodeMapper)
  (k j : Z) : option double :=
  option_map (PredictFromNode tree) (Mapper.GetNodeId sample_node_mapper k j).

(** The loop [for (data_size_t k = 0; k < n; k++)] of lines 365-369 and of
    lines 388-392; [update] is [ResidualAdd] in the first and
    [ResidualSubtract] in the second. *)
Definition row_loop (update : Dataset -> Z -> Z -> double -> Dataset)
  (tree : Tree) (sample_node_mapper : Mapper.SampleNodeMapper)
  (j n : Z) (d : Dataset) : option Dataset :=
  fold_left
    (fun acc k =>
       match acc, prediction_val tree sample_node_mapper k j with
       | Some d', Some v => Some (update d' k 0 v)
       | _, _ => None
       end)
    (upto n) (Some d).

(** Lines 365-369: the prediction of tree [j] is added back, row by row. *)
Definition AddBack (tree : Tree) (sample_node_mapper : Mapper.SampleNodeMapper)
  (j n : Z) (d : Dataset) : option Dataset :=
  row_loop ResidualAdd tree sample_node_mapper j n d.

(** Lines 388-392: the prediction of tree [j] is subtracted, row by row. *)
Definition SubtractOut (tree : Tree) (sample_node_mapper : Mapper.SampleNodeMapper)
  (j n : Z) (d : Dataset) : option Dataset :=
  row_loop ResidualSubtract tree sample_node_mapper j n d.

(** The add-back / subtract cycle of one tree update when the tree and the
    leaf assignment that the subtraction sees are those of the add-back. *)
Definition residual_cycle (tree : Tree)
  (sample_node_mapper : Mapper.SampleNodeMapper) (j n : Z) (d : Dataset)
  : option Dataset :=
  match AddBack tree sample_node_mapper j n d with
  | Some d' => SubtractOut tree sample_node_mapper j n d'
  | None => None
  end.

End Residuals.

(** A row update [residuals_[row] = op residuals_[row] val] on a dataset with
    a single outcome column. *)
Definition row_update (op : double -> double -> double)
  (update : Dataset -> Z -> Z -> double -> Dataset) : Prop :=
  forall d row val,
    num_outcome_ d = 1 ->
    num_outcome_ (update d row 0 val) = 1 /\
    (forall r, ResidualValue d row = Some r ->
               ResidualValue (update d row 0 val) row =
               Some (op r val)) /\
    (forall other, other <> row ->
                   ResidualValue (update d row 0 val) other =
                   ResidualValue d other).

(** *** Draw storage (lines 35-43, 309-327 and 408-412) *)

(** A slot of [model_draws_]: [None] is a null pointer, [Some sweeps] a draw
    object together with the sweeps that have sampled into it since it was
    allocated, most recent first. *)
Definition slot : Type := option (list Z).

Record Storage : Type := mkStorage {
  model_draws_ : list slot;
  model_iter : Z;
  prev_model_iter : Z
}.

(** The constructors: [model_draws_] gets [config_.num_samples] null slots;
    [model_iter] and [prev_model_iter] start at 0 (lines 309-310). *)
Definition new (config : Config) : Storage :=
  {| model_draws_ := resize (Z.to_nat (num_samples config)) None [];
     model_iter := 0;
     prev_model_iter := 0 |}.

(** One sweep [i] of the loop of line 311, as far as the storage goes. *)
Definition sweep (config : Config) (s : Storage) (i : Z) : Storage :=
  (* lines 318-327: a fresh draw object *)
  let draws1 :=
    if (i =? 0) || (prev_model_iter s <? model_iter s)
    then vec_set (model_draws_ s) (model_iter s) (Some [])
    else model_draws_ s in
  (* lines 329-405: the sweep samples into model_draws_[model_iter] *)
  let draws2 :=
    match vec_at draws1 (model_iter s) with
    | Some (Some sweeps) => vec_set draws1 (model_iter s) (Some (i :: sweeps))
    | _ => draws1
    end in
  (* lines 408-412 *)
  if num_burnin config <=? i then
    {| model_draws_ := draws2;
       model_iter := model_iter s + 1;
       prev_model_iter := model_iter s |}
  else
    {| model_draws_ := draws2;
       model_iter := model_iter s;
       prev_model_iter := prev_model_iter s |}.

(** The storage when sweep [i] starts, that is after the sweeps [0 .. i-1]. *)
Definition before_sweep (config : Config) (i : Z) : Storage :=
  fold_left (sweep config) (upto i) (new config).


(** The whole run of [num_samples + num_burnin] sweeps. *)
Definition run (config : Config) : Storage :=
  before_sweep config (num_samples config + num_burnin config).

End Driver.

(** ** Dataset: the other residual operations (data.h, lines 57-91) *)

Module DataOps.

Import Data.

(** [OutcomeValue(row)] (single outcome). *)
Definition OutcomeValue (d : Dataset) (row : Z) : option double :=
  vec_at (outcome_ d) row.

(** [residuals_[row*num_outcome_ + col] /= val] *)
Definition ResidualDivide (d : Dataset) (row col : Z) (val : double)
  : Dataset :=
  let i := row * num_outcome_ d + col in
  match vec_at (residuals_ d) i with
  | Some r => with_residuals d (vec_set (residuals_ d) i (r / val)%float)
  | None => d
  end.

(** [residuals_[row*num_outcome_ + col] *= val] *)
Definition ResidualMultiply (d : Dataset) (row col : Z) (val : double)
  : Dataset :=
  let i := row * num_outcome_ d + col in
  match vec_at (residuals_ d) i with
  | Some r => with_residuals d (vec_set (residuals_ d) i (r * val)%float)
  | None => d
  end.

(** The body of the loop of [ResidualReset]:
    [residuals_[i] = outcome_[i]]. *)
Definition ResidualReset_step (d : Dataset) (i : Z) : Dataset :=
  match vec_at (outcome_ d) i with
  | Some y => with_residuals d (vec_set (residuals_ d) i y)
  | None => d
  end.

(** [ResidualReset] (lines 83-91); [None] is the [Log::Fatal] taken when the
    two vectors differ in size. *)
Definition ResidualReset (d : Dataset) : option Dataset :=
  if negb (length (residuals_ d) =? length (outcome_ d))%nat then None
  else Some (fold_left ResidualReset_step
                       (upto (Z.of_nat (length (residuals_ d)))) d).

(** The four in-place updates of one residual entry, with the double
    operation each applies. *)
Definition updates
  : list ((Dataset -> Z -> Z -> double -> Dataset) *
          (double -> double -> double)) :=
  [ (ResidualAdd, PrimFloat.add); (ResidualSubtract, PrimFloat.sub);
    (ResidualDivide, PrimFloat.div); (ResidualMultiply, PrimFloat.mul) ].

End DataOps.

(** ** BART: constant-feature checks and the prune move (sampler.h) *)

Module Prune.

Import Tracker Grow.

(** One iteration of the inner loop of [NodeNonConstant] (lines 152-160);
    the accumulator is [(var_max, var_min)].  Both branches assign
    [var_max]: line 158 is [var_max = feature_value;]. *)
Definition NodeNonConstant_step (covariates : Matrix) (j : Z)
  (acc : double * double) (idx : Z) : double * double :=
  let '(var_max, var_min) := acc in
  let feature_value := covariates idx j in
  if (var_max <? feature_value)%float then (feature_value, var_min)
  else if (feature_value <? var_min)%float then (feature_value, var_min)
  else (var_max, var_min).

(** The test [var_max > var_min] of feature [j] (lines 148-163). *)
Definition NodeNonConstant_feature (covariates : Matrix)
  (tree_node_tracker : FeatureUnsortedPartition) (node_id j : Z) : bool :=
  let '(var_max, var_min) :=
    fold_left (NodeNonConstant_step covariates j)
              (node_range tree_node_tracker node_id) (DBL_MIN, DBL_MAX) in
  (var_min <? var_max)%float.

(** [NodeNonConstant] (lines 134-166); [p] is [data->covariates.cols()].
    The loop over the features returns at the first feature whose test
    holds.  [None] when [tree_num] names no partition. *)
Definition NodeNonConstant (covariates : Matrix) (p : Z)
  (node_tracker : UnsortedNodeSampleTracker) (node_id tree_num : Z)
  : option bool :=
  match GetFeaturePartition node_tracker tree_num with
  | Some tree_node_tracker =>
      Some (existsb (NodeNonConstant_feature covariates tree_node_tracker
                                             node_id)
                    (upto p))
  | None => None
  end.

(** The four accumulators of [NodesNonConstantAfterSplit]. *)
Record SplitRanges : Type := mkRanges {
  var_max_left : double;
  var_min_left : double;
  var_max_right : double;
  var_min_right : double
}.

Section AfterSplit.

(** [SplitTrueNumeric(feature_value, split_value)] of the tree code
    (tree.h), which is not part of this development. *)
Variable SplitTrueNumeric : double -> double -> bool.

(** One iteration of the inner loop of the numeric
    [NodesNonConstantAfterSplit] (lines 552-569). *)
Definition AfterSplit_step (covariates : Matrix) (feature_split : Z)
  (split_value : double) (j : Z) (acc : SplitRanges) (idx : Z)
  : SplitRanges :=
  let feature_value := covariates idx j in
  let split_feature_value := covariates idx feature_split in
  if SplitTrueNumeric split_feature_value split_value then
    if (var_max_left acc <? feature_value)%float then
      {| var_max_left := feature_value; var_min_left := var_min_left acc;
         var_max_right := var_max_right acc;
         var_min_right := var_min_right acc |}
    else if (feature_value <? var_min_left acc)%float then
      {| var_max_left := var_max_left acc; var_min_left := feature_value;
         var_max_right := var_max_right acc;
         var_min_right := var_min_right acc |}
    else acc
  else
    if (var_max_right acc <? feature_value)%float then
      {| var_max_left := var_max_left acc; var_min_left := var_min_left acc;
         var_max_right := feature_value;
         var_min_right := var_min_right acc |}
    else if (feature_value <? var_min_right acc)%float then
      {| var_max_left := var_max_left acc; var_min_left := var_min_left acc;
         var_max_right := var_max_right acc;
         var_min_right := feature_value |}
    else acc.

(** The accumulators of feature [j] after the inner loop (lines 546-569). *)
Definition AfterSplit_ranges (covariates : Matrix)
  (tree_node_tracker : FeatureUnsortedPartition)
  (leaf_split feature_split : Z) (split_value : double) (j : Z)
  : SplitRanges :=
  fold_left (AfterSplit_step covariates feature_split split_value j)
            (node_range tree_node_tracker leaf_split)
            {| var_max_left := DBL_MIN; var_min_left := DBL_MAX;
               var_max_right := DBL_MIN; var_min_right := DBL_MAX |}.

(** The test of line 570 on the accumulators. *)
Definition both_sides_vary (r : SplitRanges) : bool :=
  (var_min_left r <? var_max_left r)%float &&
  (var_min_right r <? var_max_right r)%float.

(** The numeric [NodesNonConstantAfterSplit] (lines 531-575). *)
Definition NodesNonConstantAfterSplit (covariates : Matrix) (p : Z)
  (node_tracker : UnsortedNodeSampleTracker)
  (leaf_split feature_split : Z) (split_value : double) (tree_num : Z)
  : option bool :=
  match GetFeaturePartition node_tracker tree_num with
  | Some tree_node_tracker =>
      Some (existsb
              (fun j =>
                 both_sides_vary
                   (AfterSplit_ranges covariates tree_node_tracker leaf_split
                                      feature_split split_value j))
              (upto p))
  | None => None
  end.

End AfterSplit.

(** [double p_leaf = 1/(num_leaves-1);] (line 391), an [int] division. *)
Definition p_leaf (num_leaves : Z) : double :=
  double_of_int (Z.quot 1 (num_leaves - 1)).

(** [double p_leaf_parent = 1/(num_leaf_parents);] (line 392), an [int]
    division. *)
Definition p_leaf_parent (num_leaf_parents : Z) : double :=
  double_of_int (Z.quot 1 num_leaf_parents).

(** Lines 399-402: [if (log_mh_ratio > 0) log_mh_ratio = 0;] *)
Definition threshold (log_mh_ratio : double) : double :=
  if (0 <? log_mh_ratio)%float then 0%float else log_mh_ratio.

(** Line 408: [if (log_acceptance_prob <= log_mh_ratio)], on the thresholded
    ratio. *)
Definition accept (log_mh_ratio log_acceptance_prob : double) : bool :=
  (log_acceptance_prob <=? threshold log_mh_ratio)%float.

Section PruneMCMC.

(** [std::log] of [<cmath>]. *)
Variable log : double -> double.

(** The tree class (tree.h) is used as a black box. *)
Variable Tree : Type.
Variable ChangeToLeaf : Tree -> Z -> double -> Tree.
Variable GetLeaves : Tree -> list Z.
Variable NumLeaves : Tree -> Z.
Variable NumLeafParents : Tree -> Z.

(** [FeatureUnsortedPartition::PruneNodeToLeaf] and the per-node
    [FeatureUnsortedPartition::UpdateObservationMapping] are declared in
    partition_tracker.h; their definitions are not part of this development. *)
Variable PruneNodeToLeaf :
  FeatureUnsortedPartition -> Z -> FeatureUnsortedPartition.
Variable UpdateNodeMapping :
  FeatureUnsortedPartition -> Z -> Z -> Mapper.SampleNodeMapper ->
  Mapper.SampleNodeMapper.

(** [UnsortedNodeSampleTracker::PruneTreeNodeToLeaf] (partition_tracker.h,
    lines 180-182). *)
Definition PruneTreeNodeToLeaf (t : UnsortedNodeSampleTracker)
  (tree_id node_id : Z) : UnsortedNodeSampleTracker :=
  match GetFeaturePartition t tree_id with
  | Some p => vec_set t tree_id (PruneNodeToLeaf p node_id)
  | None => t
  end.

(** [RemoveSplitFromModel] (lines 69-87); the temporary leaf value is [0.]. *)
Definition RemoveSplitFromModel (s : Model Tree) (leaf_node tree_num : Z)
  : Model Tree :=
  let tree' := ChangeToLeaf (tree Tree s) leaf_node 0%float in
  let tracker' :=
    PruneTreeNodeToLeaf (node_tracker Tree s) tree_num leaf_node in
  {| tree := tree';
     node_tracker := tracker';
     sample_node_mapper :=
       UpdateObservationMapping Tree GetLeaves UpdateNodeMapping
         tracker' tree' tree_num (sample_node_mapper Tree s) |}.

(** Lines 394-398, with the left-to-right evaluation order of C++. *)
Definition log_mh_ratio
  (pg pgl pgr prob_prune_old p_leaf' prob_grow_new p_leaf_parent'
   no_split_log_marginal_likelihood split_log_marginal_likelihood : double)
  : double :=
  (log (1 - pg) - log pg - log (1 - pgl) - log (1 - pgr)
   + log prob_prune_old + log p_leaf' - log prob_grow_new
   - log p_leaf_parent' + no_split_log_marginal_likelihood
   - split_log_marginal_likelihood)%float.

(** What lines 342-388 of [PruneMCMC] have computed or drawn when the move
    reaches line 390. *)
Record Proposal : Type := mkProposal {
  leaf_parent_chosen : Z;
  pg : double;
  pgl : double;
  pgr : double;
  prob_grow_new : double;
  prob_prune_old : double;
  no_split_log_marginal_likelihood : double;
  split_log_marginal_likelihood : double
}.

(** The log-ratio of lines 390-398 for a proposal on the current tree. *)
Definition proposal_log_mh_ratio (s : Model Tree) (q : Proposal) : double :=
  log_mh_ratio (pg q) (pgl q) (pgr q) (prob_prune_old q)
               (p_leaf (NumLeaves (tree Tree s)))
               (prob_grow_new q)
               (p_leaf_parent (NumLeafParents (tree Tree s)))
               (no_split_log_marginal_likelihood q)
               (split_log_marginal_likelihood q).

(** [PruneMCMC] from line 390 to its end (line 414).  [u] is the draw of
    [mh_accept(gen)]; the result is the model after the move. *)
Definition PruneMCMC (s : Model Tree) (q : Proposal) (tree_num : Z)
  (u : double) : Model Tree :=
  let r := proposal_log_mh_ratio s q in
  let log_acceptance_prob := log u in
  if accept r log_acceptance_prob
  then RemoveSplitFromModel s (leaf_parent_chosen q) tree_num
  else s.

End PruneMCMC.

End Prune.

(** ** Classes of doubles *)

(** A double that is NaN or minus infinity. *)
Definition nan_or_ninf (x : double) : Prop :=
  Prim2SF x = S754_nan \/ Prim2SF x = S754_infinity true.


(** ** Feature presort and the sorted tracker (partition_tracker.h,
       lines 261-468) *)

Module Presort.

Import Data.

(** [NumObservations()] and [NumCovariates()] of the dataset (data.h). *)
Definition NumObservations (d : Dataset) : Z := num_observations_ d.

Definition NumCovariates (d : Dataset) : Z := num_covariates_ d.

(** The comparator of [ArgsortRoot] (line 321):
    [std::less<double>{}(CovariateValue(l, feature_index_),
                         CovariateValue(r, feature_index_))].
    A row outside the data (undefined behaviour) compares [false]. *)
Definition comp_op (d : Dataset) (feature_index : Z) (l r : Z) : bool :=
  match CovariateValue d l feature_index, CovariateValue d r feature_index with
  | Some a, Some b => (a <? b)%float
  | _, _ => false
  end.

(** [std::stable_sort]: the sorted arrangement in which elements that do not
    compare keep their order.  For a comparator that is a strict weak order
    the standard fixes the result; it is computed here by stable insertion,
    each element going behind the elements that are not above it. *)
Fixpoint insert (comp : Z -> Z -> bool) (x : Z) (l : list Z) : list Z :=
  match l with
  | [] => [x]
  | y :: tl => if comp x y then x :: y :: tl else y :: insert comp x tl
  end.

Definition stable_sort (comp : Z -> Z -> bool) (l : list Z) : list Z :=
  fold_left (fun sorted x => insert comp x sorted) l [].

(** [FeaturePresortRoot::ArgsortRoot] (lines 309-323): the indices
    [0 .. num_obs-1] ([std::iota]) stably sorted by the value of the
    feature. *)
Definition ArgsortRoot (d : Dataset) (feature_index : Z) : list Z :=
  stable_sort (comp_op d feature_index) (upto (NumObservations d)).

Record FeaturePresortRoot : Type := mkRoot {
  root_sort_indices_ : list Z;
  root_feature_index_ : Z
}.

(** [FeaturePresortRoot(dataset, feature_index, feature_type)]
    (lines 302-305). *)
Definition new_root (d : Dataset) (feature_index : Z) : FeaturePresortRoot :=
  {| root_sort_indices_ := ArgsortRoot d feature_index;
     root_feature_index_ := feature_index |}.

(** [FeaturePresortRootContainer(dataset)] (lines 333-339): one root per
    feature. *)
Definition FeaturePresortRootContainer : Type := list FeaturePresortRoot.

Definition new_container (d : Dataset) : FeaturePresortRootContainer :=
  map (new_root d) (upto (NumCovariates d)).

Definition GetFeaturePresort (c : FeaturePresortRootContainer)
  (feature_num : Z) : option FeaturePresortRoot := vec_at c feature_num.

(** [NodeOffsetSize] (lines 262-285). *)
Record NodeOffsetSize : Type := mkOffsetSize {
  node_begin_ : Z;
  node_size_ : Z;
  node_end_ : Z;
  presorted_ : bool
}.

Definition new_offset_size (node_offset node_size : Z) : NodeOffsetSize :=
  {| node_begin_ := node_offset;
     node_size_ := node_size;
     node_end_ := node_offset + node_size;
     presorted_ := false |}.

(** [FeaturePresortPartition] (lines 360-413); the feature type is stored
    and not read by the functions embedded here. *)
Record FeaturePresortPartition : Type := mkPresortPartition {
  feature_sort_indices_ : list Z;
  node_offset_sizes_ : list NodeOffsetSize;
  feature_index_ : Z;
  num_obs_ : Z
}.

(** The constructor (lines 362-372): the sort indices of the root are
    copied, and the tree starts as a root node holding every observation. *)
Definition new_partition (root : FeaturePresortRoot) (d : Dataset)
  (feature_index : Z) : FeaturePresortPartition :=
  {| feature_sort_indices_ := root_sort_indices_ root;
     node_offset_sizes_ := [new_offset_size 0 (NumObservations d)];
     feature_index_ := feature_index;
     num_obs_ := NumObservations d |}.

Definition NodeBegin (p : FeaturePresortPartition) (node_id : Z) : option Z :=
  option_map node_begin_ (vec_at (node_offset_sizes_ p) node_id).

Definition NodeEnd (p : FeaturePresortPartition) (node_id : Z) : option Z :=
  option_map node_end_ (vec_at (node_offset_sizes_ p) node_id).

Definition NodeSize (p : FeaturePresortPartition) (node_id : Z) : option Z :=
  option_map node_size_ (vec_at (node_offset_sizes_ p) node_id).

Definition SortIndex (p : FeaturePresortPartition) (j : Z) : option Z :=
  vec_at (feature_sort_indices_ p) j.

(** [SortedNodeSampleTracker] (lines 416-468): one partition per feature. *)
Definition SortedNodeSampleTracker : Type := list FeaturePresortPartition.

(** The constructor (lines 418-426).  A feature without a root (a null
    pointer in the source) gets an empty list of sort indices. *)
Definition new_tracker (c : FeaturePresortRootContainer) (d : Dataset)
  : SortedNodeSampleTracker :=
  map (fun i =>
         match GetFeaturePresort c i with
         | Some root => new_partition root d i
         | None =>
             new_partition {| root_sort_indices_ := [];
                              root_feature_index_ := i |} d i
         end)
      (upto (NumCovariates d)).

Definition TrackerNodeBegin (t : SortedNodeSampleTracker)
  (node_id feature_index : Z) : option Z :=
  match vec_at t feature_index with
  | Some p => NodeBegin p node_id
  | None => None
  end.

Definition TrackerNodeEnd (t : SortedNodeSampleTracker)
  (node_id feature_index : Z) : option Z :=
  match vec_at t feature_index with
  | Some p => NodeEnd p node_id
  | None => None
  end.

Definition TrackerSortIndex (t : SortedNodeSampleTracker)
  (j feature_index : Z) : option Z :=
  match vec_at t feature_index with
  | Some p => SortIndex p j
  | None => None
  end.

(** The sort indices that the tracker holds for a feature. *)
Definition tracker_sort_indices (t : SortedNodeSampleTracker)
  (feature_index : Z) : list Z :=
  match vec_at t feature_index with
  | Some p => feature_sort_indices_ p
  | None => []
  end.

(** Consecutive entries [a], [b] of an index list are in order when the
    value of [b] is not below the value of [a]. *)
Definition in_order (d : Dataset) (feature_index : Z) (a b : Z) : Prop :=
  comp_op d feature_index b a = false.

End Presort.

(** ** Leaf posteriors and the global variance draw over the reals
       (sampler.h, lines 972-1128 and 1237-1270) *)

Module Posterior.

Local Open Scope R_scope.

Import Leaf.

(** [LeafConstantGaussianSampler::PosteriorMean] (lines 977-982); [tau] is
    [leaf_prior->GetPriorScale()]. *)
Definition PosteriorMean (tau : R)
  (leaf_suff_stat : LeafConstantGaussianSuffStat) (global_variance : R) : R :=
  let n' := IZR (n leaf_suff_stat) in
  let sum_y' := sum_y leaf_suff_stat in
  (tau * sum_y') / (global_variance + (tau * n')).

(** [LeafConstantGaussianSampler::PosteriorVariance] (lines 983-987). *)
Definition PosteriorVariance (tau : R)
  (leaf_suff_stat : LeafConstantGaussianSuffStat) (global_variance : R) : R :=
  let n' := IZR (n leaf_suff_stat) in
  (tau * global_variance) / (global_variance + (tau * n')).

(** The leaf value of lines 1015-1017; [z] is the standard normal draw
    [leaf_node_dist(gen)]. *)
Definition leaf_value (tau : R)
  (leaf_suff_stat : LeafConstantGaussianSuffStat) (global_variance z : R)
  : R :=
  let posterior_leaf_mean :=
    PosteriorMean tau leaf_suff_stat global_variance in
  let posterior_leaf_variance :=
    PosteriorVariance tau leaf_suff_stat global_variance in
  posterior_leaf_mean + R_sqrt.sqrt posterior_leaf_variance * z.

(** The fields of the univariate-regression sufficient statistic that its
    sampler reads. *)
Record LeafUnivariateRegressionGaussianSuffStat : Type := mkRegressionStat {
  sum_yx : R;
  sum_x_squared : R
}.

(** [LeafUnivariateRegressionGaussianSampler::PosteriorMean]
    (lines 1056-1061). *)
Definition RegressionPosteriorMean (tau : R)
  (leaf_suff_stat : LeafUnivariateRegressionGaussianSuffStat)
  (global_variance : R) : R :=
  let sum_yx' := sum_yx leaf_suff_stat in
  let sum_x_squared' := sum_x_squared leaf_suff_stat in
  (tau * sum_yx') / (global_variance + (tau * sum_x_squared')).

(** [LeafUnivariateRegressionGaussianSampler::PosteriorVariance]
    (lines 1062-1066). *)
Definition RegressionPosteriorVariance (tau : R)
  (leaf_suff_stat : LeafUnivariateRegressionGaussianSuffStat)
  (global_variance : R) : R :=
  let sum_x_squared' := sum_x_squared leaf_suff_stat in
  (tau * global_variance) / (global_variance + (tau * sum_x_squared')).

(** [GlobalHomoskedasticVarianceSampler::SampleVarianceParameter]
    (lines 1257-1269).  [gamma_draw shape scale] is the value that
    [std::gamma_distribution<double>(shape, scale)] draws from the
    generator. *)
Definition GlobalSampleVarianceParameter (gamma_draw : R -> R -> R)
  (residual : list R) (variance_prior : Variance.IGVariancePrior) : R :=
  let ig_shape := Variance.GlobalPosteriorShape residual variance_prior in
  let ig_scale := Variance.GlobalPosteriorScale residual variance_prior in
  let gamma_scale := 1 / ig_scale in
  1 / gamma_draw ig_shape gamma_scale.

(** A gamma draw is positive when its shape and scale are. *)
Definition positive_draws (gamma_draw : R -> R -> R) : Prop :=
  forall shape scale, 0 < shape -> 0 < scale -> 0 < gamma_draw shape scale.

End Posterior.

(** ** The draw of a split rule in grow-from-root (sampler.h, lines 689-728) *)

Module Draw.

Local Open Scope R_scope.

Import Leaf.

(** The scan of [std::max_element]: [largest] moves to an element only when
    it is strictly smaller than that element. *)
Fixpoint max_element_from (largest : ext) (l : list ext) : ext :=
  match l with
  | [] => largest
  | first :: rest =>
      max_element_from (if ext_lt largest first then first else largest) rest
  end.

(** [*std::max_element(v.begin(), v.end())]: on an empty vector the iterator
    returned is [end()] and dereferencing it is undefined, [None] here. *)
Definition max_element (v : list ext) : option ext :=
  match v with
  | [] => None
  | first :: rest => Some (max_element_from first rest)
  end.

Section Weights.

(** [std::exp] at a finite argument, as the library computes it on doubles:
    the result is rounded, it is +0 when the exponential underflows and
    +infinity when it overflows. *)
Variable std_exp : R -> ext.

(** [std::exp] on doubles. *)
Definition ext_exp (a : ext) : ext :=
  match a with
  | Real x => std_exp x
  | PosInf => PosInf
  | NegInf => Real 0
  | NaN => NaN
  end.

(** Lines 702-707: the weights handed to [std::discrete_distribution]. *)
Definition cutpoint_evaluations (log_cutpoint_evaluations : list ext)
  : option (list ext) :=
  match max_element log_cutpoint_evaluations with
  | None => None
  | Some largest_mll =>
      Some (map (fun e => ext_exp (ext_sub e largest_mll))
                log_cutpoint_evaluations)
  end.

End Weights.

(** What the property below needs of [std::exp]: it returns 1 at 0 and, at an
    argument that is not positive, a number between 0 and 1, the 0 of an
    underflow included. *)
Definition exp_in_unit_interval (std_exp : R -> ext) : Prop :=
  std_exp 0 = Real 1 /\
  forall x, x <= 0 -> exists y, std_exp x = Real y /\ 0 <= y <= 1.

(** What lines 712-726 do with the index drawn. *)
Inductive SplitRule : Type :=
| NoSplit
| SplitOn (feature_split : Z) (feature_type : FeatureType) (split_value : R).

(** Lines 712-726; [None] when one of the three vectors is read out of
    range. *)
Definition chosen_rule (out : CutpointEvaluations) (split_chosen : Z)
  : option SplitRule :=
  if (split_chosen =? valid_cutpoint_count out)%Z then Some NoSplit
  else
    match vec_at (cutpoint_features out) split_chosen,
          vec_at (cutpoint_feature_types out) split_chosen,
          vec_at (cutpoint_values out) split_chosen with
    | Some feature_split, Some feature_type, Some split_value =>
        Some (SplitOn feature_split feature_type split_value)
    | _, _, _ => None
    end.

(** The output vectors list the (feature, cutpoint index) pairs [cs], one
    entry of each vector per pair. *)
Definition aligned (feature_types : Z -> FeatureType) (cs : list (Z * Z))
  (out : CutpointEvaluations) : Prop :=
  length (log_cutpoint_evaluations out) = length cs /\
  cutpoint_features out = map fst cs /\
  cutpoint_values out = map (fun p => IZR (snd p)) cs /\
  cutpoint_feature_types out = map (fun p => feature_types (fst p)) cs.

(** A (feature, cutpoint index) pair that the loops of [Cutpoints] visit. *)
Definition visited (NumCutpoints : Z -> Z) (num_features : Z) (p : Z * Z)
  : Prop :=
  (0 <= fst p < num_features)%Z /\ (0 <= snd p < NumCutpoints (fst p) - 1)%Z.

(** The number of observations that the loops of [Cutpoints] add to
    [left_suff_stat]: the lengths of the bins of every cutpoint but the last
    of every feature. *)
Definition scanned (NumCutpoints : Z -> Z) (BinLength : Z -> Z -> Z)
  (num_features : Z) : Z :=
  fold_left
    (fun acc j =>
       fold_left (fun acc' c => (acc' + Z.max 0 (BinLength c j))%Z)
                 (upto (NumCutpoints j - 1)) acc)
    (upto num_features) 0%Z.

End Draw.

(** ** EvaluateSplitAndNoSplit (sampler.h, lines 416-529) *)

Module Evaluate.

Local Open Scope R_scope.

Import Leaf.

(** The three sufficient statistics that the loops update. *)
Record Stats : Type := mkStats {
  root_suff_stat : LeafConstantGaussianSuffStat;
  left_suff_stat : LeafConstantGaussianSuffStat;
  right_suff_stat : LeafConstantGaussianSuffStat
}.

(** Lines 426-429 (and 505-508): the three statistics start empty. *)
Definition init : Stats :=
  {| root_suff_stat := zero_stat;
     left_suff_stat := zero_stat;
     right_suff_stat := zero_stat |}.

(** Lines 446-449: the tuple returned. *)
Definition result (st : Stats) (tau outcome_variance : R) : R * R * Z * Z :=
  let split_log_ml :=
    SplitLogMarginalLikelihood (left_suff_stat st) (right_suff_stat st)
      tau outcome_variance in
  let no_split_log_ml :=
    NoSplitLogMarginalLikelihood (root_suff_stat st) tau outcome_variance in
  (split_log_ml, no_split_log_ml, n (left_suff_stat st),
   n (right_suff_stat st)).

Section Evaluate.

(** [data->covariates(idx, feature)] and [residual->residual(idx)] as real
    numbers. *)
Variable covariates : Z -> Z -> R.
Variable residual : Z -> R.

(** [SplitTrueNumeric] is defined in a source file that is not part of this
    development. *)
Variable SplitTrueNumeric : R -> R -> bool.

(** The body of the loop of the grow overload (lines 433-444). *)
Definition split_step (feature_split : Z) (split_value : R) (st : Stats)
  (idx : Z) : Stats :=
  let feature_value := covariates idx feature_split in
  let root := IncrementSuffStat (root_suff_stat st) (residual idx) in
  if SplitTrueNumeric feature_value split_value then
    {| root_suff_stat := root;
       left_suff_stat := IncrementSuffStat (left_suff_stat st) (residual idx);
       right_suff_stat := right_suff_stat st |}
  else
    {| root_suff_stat := root;
       left_suff_stat := left_suff_stat st;
       right_suff_stat :=
         IncrementSuffStat (right_suff_stat st) (residual idx) |}.

(** The statistics after the loop of the grow overload over the
    observations [node_indices] of the node. *)
Definition split_stats (node_indices : list Z) (feature_split : Z)
  (split_value : R) : Stats :=
  fold_left (split_step feature_split split_value) node_indices init.

(** [EvaluateSplitAndNoSplit] for a numeric split of the leaf [leaf_split]
    (lines 416-450).  [None] when [tree_num] names no partition. *)
Definition EvaluateSplitAndNoSplit
  (node_tracker : Tracker.UnsortedNodeSampleTracker)
  (tau outcome_variance : R) (tree_num leaf_split feature_split : Z)
  (split_value : R) : option (R * R * Z * Z) :=
  match Tracker.GetFeaturePartition node_tracker tree_num with
  | Some tree_node_tracker =>
      Some (result
              (split_stats (Tracker.node_range tree_node_tracker leaf_split)
                 feature_split split_value)
              tau outcome_variance)
  | None => None
  end.

(** The bodies of the two loops of the prune overload (lines 512-525). *)
Definition left_step (st : Stats) (idx : Z) : Stats :=
  {| root_suff_stat := IncrementSuffStat (root_suff_stat st) (residual idx);
     left_suff_stat := IncrementSuffStat (left_suff_stat st) (residual idx);
     right_suff_stat := right_suff_stat st |}.

Definition right_step (st : Stats) (idx : Z) : Stats :=
  {| root_suff_stat := IncrementSuffStat (root_suff_stat st) (residual idx);
     left_suff_stat := left_suff_stat st;
     right_suff_stat :=
       IncrementSuffStat (right_suff_stat st) (residual idx) |}.

(** The statistics after the two loops of the prune overload. *)
Definition children_stats (left_indices right_indices : list Z) : Stats :=
  fold_left right_step right_indices (fold_left left_step left_indices init).

(** [EvaluateSplitAndNoSplit] for the children [left_node] and [right_node]
    of a parent (lines 490-529). *)
Definition EvaluateSplitAndNoSplit_children
  (node_tracker : Tracker.UnsortedNodeSampleTracker)
  (tau outcome_variance : R) (tree_num left_node right_node : Z)
  : option (R * R * Z * Z) :=
  match Tracker.GetFeaturePartition node_tracker tree_num with
  | Some tree_node_tracker =>
      Some (result
              (children_stats
                 (Tracker.node_range tree_node_tracker left_node)
                 (Tracker.node_range tree_node_tracker right_node))
              tau outcome_variance)
  | None => None
  end.

End Evaluate.

(** Two statistics with the same count and, as real numbers, the same
    sums. *)
Definition same_stat (a b : LeafConstantGaussianSuffStat) : Prop :=
  n a = n b /\ sum_y a = sum_y b /\ sum_y_squared a = sum_y_squared b.

(** The component-wise sum of two statistics. *)
Definition sum_of (a b c : LeafConstantGaussianSuffStat) : Prop :=
  n a = (n b + n c)%Z /\ sum_y a = sum_y b + sum_y c /\
  sum_y_squared a = sum_y_squared b + sum_y_squared c.

End Evaluate.

(** ** The choice between grow and prune (sampler.h, lines 190-234) *)

Module Step.

(** Lines 192-200: the loop over the leaves stops at the first leaf with
    more than [2 * min_samples_leaf] observations.  [NodeSize leaf] is
    [unsorted_node_sample_tracker_->NodeSize(tree_num, leaf)]. *)
Definition grow_possible (NodeSize : Z -> Z) (leaves : list Z)
  (min_samples_leaf : Z) : bool :=
  existsb (fun leaf => 2 * min_samples_leaf <? NodeSize leaf) leaves.

(** Lines 202-206. *)
Definition prune_possible (NumValidNodes : Z) : bool := 1 <? NumValidNodes.

(** Lines 208-222: [step_probs] and [prob_grow]; [None] is the
    [Log::Fatal]. *)
Definition step_probs (grow_possible' prune_possible' : bool)
  : option (list double * double) :=
  if grow_possible' && prune_possible' then Some ([0.5; 0.5], 0.5)%float
  else if negb grow_possible' && prune_possible' then Some ([0; 1], 0)%float
  else if grow_possible' && negb prune_possible' then Some ([1; 0], 1)%float
  else None.

(** The move that [SampleTree] makes. *)
Inductive Move : Type :=
| GrowMove (prob_grow : double)
| PruneMove.

(** [SampleTree] (lines 190-234) up to the call of [GrowMCMC] or
    [PruneMCMC]; [step_dist] is the draw of the discrete distribution from
    its weights. *)
Definition SampleTree (step_dist : list double -> Z) (NodeSize : Z -> Z)
  (leaves : list Z) (min_samples_leaf NumValidNodes : Z) : option Move :=
  match step_probs (grow_possible NodeSize leaves min_samples_leaf)
                   (prune_possible NumValidNodes) with
  | Some (probs, prob_grow) =>
      let step_chosen := step_dist probs in
      if step_chosen =? 0 then Some (GrowMove prob_grow) else Some PruneMove
  | None => None
  end.

(** The discrete distribution draws an index whose weight is positive. *)
Definition positive_weight (step_dist : list double -> Z)
  (probs : list double) : Prop :=
  exists w, vec_at probs (step_dist probs) = Some w /\ (0 <? w)%float = true.

End Step.

(** ** The ranges of the children in grow-from-root
       (sampler.h, lines 843-957) *)

Module Ranges.

(** [std::unordered_map<int, std::pair<data_size_t, data_size_t>>] as an
    association list. *)
Definition node_index_map : Type := list (Z * (Z * Z)).

Fixpoint find (m : node_index_map) (key : Z) : option (Z * Z) :=
  match m with
  | [] => None
  | (k, v) :: rest => if k =? key then Some v else find rest key
  end.

(** [m.insert({key, value})]: an entry that is already there is kept. *)
Definition insert (m : node_index_map) (key : Z) (value : Z * Z)
  : node_index_map :=
  match find m key with
  | Some _ => m
  | None => (key, value) :: m
  end.

(** [m[key]] as [SampleTree] reads it (line 659): a missing key reads as the
    value-initialised pair. *)
Definition lookup (m : node_index_map) (key : Z) : Z * Z :=
  match find m key with
  | Some v => v
  | None => (0, 0)
  end.

(** The loop that counts the observations of the left child (lines
    924-929); [split_true i] is the outcome of the split rule on the
    observation at position [i] of the sorted indices of the feature. *)
Definition count_left (split_true : Z -> bool) (node_begin node_end : Z)
  : Z :=
  fold_left (fun left_n i => if split_true i then left_n + 1 else left_n)
            (map (fun k => node_begin + k) (upto (node_end - node_begin))) 0.

(** Lines 949-951: the two entries added to [node_index_map]. *)
Definition AddSplitToModel_ranges (split_true : Z -> bool)
  (node_index_map' : node_index_map)
  (node_begin node_end left_node right_node : Z) : node_index_map :=
  let left_n := count_left split_true node_begin node_end in
  insert (insert node_index_map' left_node (node_begin, node_begin + left_n))
         right_node (node_begin + left_n, node_end).

End Ranges.

(** * Part II.  Properties *)

(** ** Vectors *)

Lemma set_nth_length {A : Type} (v : list A) (i : nat) (x : A) :
  length (set_nth v i x) = length v.
Proof.
  revert i; induction v as [|hd tl IH]; intros [|i]; simpl; auto.
Qed.

Lemma set_nth_same {A : Type} (v : list A) (i : nat) (x : A) :
  (i < length v)%nat -> nth_error (set_nth v i x) i = Some x.
Proof.
  revert i; induction v as [|hd tl IH]; intros [|i] Hi; simpl in *;
    try lia; auto.
  apply IH; lia.
Qed.

Lemma set_nth_other {A : Type} (v : list A) (i j : nat) (x : A) :
  i <> j -> nth_error (set_nth v i x) j = nth_error v j.
Proof.
  revert i j; induction v as [|hd tl IH]; intros [|i] [|j] Hij; simpl;
    try congruence; auto.
Qed.

Lemma vec_set_length {A : Type} (v : list A) (i : Z) (x : A) :
  length (vec_set v i x) = length v.
Proof.
  unfold vec_set. destruct (i <? 0); auto using set_nth_length.
Qed.

Lemma vec_at_set_same {A : Type} (v : list A) (i : Z) (x : A) :
  0 <= i < Z.of_nat (length v) -> vec_at (vec_set v i x) i = Some x.
Proof.
  intros Hi. unfold vec_at, vec_set.
  destruct (Z.ltb_spec i 0); [lia|].
  apply set_nth_same. lia.
Qed.

Lemma vec_at_set_other {A : Type} (v : list A) (i j : Z) (x : A) :
  i <> j -> vec_at (vec_set v i x) j = vec_at v j.
Proof.
  intros Hij. unfold vec_at, vec_set.
  destruct (Z.ltb_spec j 0); [reflexivity|].
  destruct (Z.ltb_spec i 0); [reflexivity|].
  apply set_nth_other. lia.
Qed.

Lemma vec_at_Some_range {A : Type} (v : list A) (i : Z) (x : A) :
  vec_at v i = Some x -> 0 <= i < Z.of_nat (length v).
Proof.
  unfold vec_at. destruct (Z.ltb_spec i 0); [discriminate|].
  intros H'. assert (nth_error v (Z.to_nat i) <> None) as Hn by congruence.
  apply nth_error_Some in Hn. lia.
Qed.

Lemma vec_at_in_range {A : Type} (v : list A) (i : Z) :
  0 <= i < Z.of_nat (length v) -> exists x, vec_at v i = Some x.
Proof.
  intros Hi. unfold vec_at. destruct (Z.ltb_spec i 0); [lia|].
  destruct (nth_error v (Z.to_nat i)) eqn:E; [eauto|].
  apply nth_error_None in E. lia.
Qed.

Lemma vec_at_repeat {A : Type} (d : A) (k : nat) (i : Z) :
  0 <= i < Z.of_nat k -> vec_at (repeat d k) i = Some d.
Proof.
  intros Hi. unfold vec_at. destruct (Z.ltb_spec i 0); [lia|].
  apply nth_error_repeat. lia.
Qed.

Lemma resize_nil {A : Type} (k : nat) (d : A) : resize k d [] = repeat d k.
Proof.
  unfold resize. rewrite firstn_nil. simpl. now rewrite Nat.sub_0_r.
Qed.

Lemma upto_succ (k : Z) : 0 <= k -> upto (k + 1) = upto k ++ [k].
Proof.
  intros Hk. unfold upto.
  replace (Z.to_nat (k + 1)) with (S (Z.to_nat k)) by lia.
  rewrite seq_S, map_app. simpl. now rewrite Z2Nat.id.
Qed.

Lemma upto_nonpos (k : Z) : k <= 0 -> upto k = [].
Proof.
  intros Hk. unfold upto. now replace (Z.to_nat k) with O by lia.
Qed.

Lemma in_upto (k i : Z) : In i (upto k) <-> 0 <= i < k.
Proof.
  unfold upto. rewrite in_map_iff. split.
  - intros (j & <- & Hj). apply in_seq in Hj. lia.
  - intros Hi. exists (Z.to_nat i). split; [lia|]. apply in_seq. lia.
Qed.

(** ** The copy constructor of SampleNodeMapper *)

Lemma allocate_at (num_trees num_observations tree_id sample_id : Z) :
  0 <= tree_id < num_trees -> 0 <= sample_id < num_observations ->
  match vec_at (Mapper.allocate num_trees num_observations) tree_id with
  | Some row => vec_at row sample_id
  | None => None
  end = Some 0.
Proof.
  intros Ht Hs. unfold Mapper.allocate.
  rewrite resize_nil, map_repeat, resize_nil.
  rewrite vec_at_repeat by lia. apply vec_at_repeat. lia.
Qed.

Lemma allocate_shaped (num_trees num_observations : Z) :
  Mapper.shaped (Mapper.new num_trees num_observations).
Proof.
  unfold Mapper.shaped, Mapper.new, Mapper.allocate; simpl.
  rewrite resize_nil, map_repeat, resize_nil, repeat_length. split; auto.
  apply Forall_forall. intros row Hrow. apply repeat_spec in Hrow. subst.
  apply repeat_length.
Qed.

Lemma Forall_set_nth {A : Type} (P : A -> Prop) (v : list A) (i : nat)
  (x : A) : Forall P v -> P x -> Forall P (set_nth v i x).
Proof.
  intros Hv Hx. revert i. induction Hv as [|hd tl Hhd Htl IH]; intros [|i];
    simpl; constructor; auto.
Qed.

Lemma SetNodeId_shaped (m m' : Mapper.SampleNodeMapper)
  (sample_id tree_id node_id : Z) :
  Mapper.shaped m -> Mapper.SetNodeId m sample_id tree_id node_id = Some m' ->
  Mapper.shaped m' /\
  Mapper.num_trees_ m' = Mapper.num_trees_ m /\
  Mapper.num_observations_ m' = Mapper.num_observations_ m.
Proof.
  intros [Hlen Hrows]. unfold Mapper.SetNodeId.
  destruct (negb _); [discriminate|]. destruct (negb _); [discriminate|].
  destruct (vec_at _ tree_id) as [row|] eqn:Erow; [|discriminate].
  intros [= <-]. unfold Mapper.shaped; simpl. repeat split; auto.
  - now rewrite vec_set_length.
  - unfold vec_set at 1. destruct (tree_id <? 0); auto.
    apply Forall_set_nth; auto. rewrite vec_set_length.
    rewrite Forall_forall in Hrows. apply Hrows.
    unfold vec_at in Erow. destruct (tree_id <? 0); [discriminate|].
    eapply nth_error_In; eauto.
Qed.

Lemma assign_shaped (calls : list (Z * Z * Z)) :
  forall m m', Mapper.shaped m -> Mapper.assign m calls = Some m' ->
  Mapper.shaped m' /\
  Mapper.num_trees_ m' = Mapper.num_trees_ m /\
  Mapper.num_observations_ m' = Mapper.num_observations_ m.
Proof.
  induction calls as [|[[s t] v] rest IH]; intros m m' Hm; simpl.
  - intros [= <-]. auto.
  - destruct (Mapper.SetNodeId m s t v) as [m1|] eqn:E; [|discriminate].
    intros Hrest. destruct (SetNodeId_shaped _ _ _ _ _ Hm E) as (H1 & H2 & H3).
    destruct (IH _ _ H1 Hrest) as (H4 & H5 & H6).
    split; [exact H4|split; congruence].
Qed.

Lemma SetNodeId_GetNodeId (m : Mapper.SampleNodeMapper)
  (sample_id tree_id node_id : Z) :
  Mapper.shaped m ->
  0 <= sample_id < Mapper.num_observations_ m ->
  0 <= tree_id < Mapper.num_trees_ m ->
  exists m', Mapper.SetNodeId m sample_id tree_id node_id = Some m' /\
             Mapper.GetNodeId m' sample_id tree_id = Some node_id.
Proof.
  intros [Hlen Hrows] Hs Ht. unfold Mapper.SetNodeId.
  destruct (Z.ltb_spec sample_id (Mapper.num_observations_ m)); [|lia].
  destruct (Z.ltb_spec tree_id (Mapper.num_trees_ m)); [|lia]. simpl.
  destruct (vec_at_in_range (Mapper.tree_observation_indices_ m) tree_id)
    as [row Erow]; [lia|].
  rewrite Erow. eexists; split; [reflexivity|].
  unfold Mapper.GetNodeId; simpl.
  destruct (Z.ltb_spec sample_id (Mapper.num_observations_ m)); [|lia].
  destruct (Z.ltb_spec tree_id (Mapper.num_trees_ m)); [|lia]. simpl.
  rewrite vec_at_set_same by lia.
  apply vec_at_set_same.
  rewrite Forall_forall in Hrows. rewrite (Hrows row); [lia|].
  unfold vec_at in Erow. destruct (tree_id <? 0); [discriminate|].
  eapply nth_error_In; eauto.
Qed.

(** C10.  Take any mapper reached from the constructor by a run of
    [SetNodeId] calls and assign one more node id, [node_id], at an
    observation and a tree in range.  The copy constructor applied to the
    result keeps [NumTrees] and [NumObservations], and the node id of the copy
    is the value-initialised 0 at every observation [s] and tree [t] in
    range: the node ids are not copied.  Where the original returns
    [node_id], the copy and the original differ as soon as [node_id] is not
    0. *)
Theorem copy_constructor_drops_node_ids
  (num_trees num_observations : Z) (calls : list (Z * Z * Z))
  (m : Mapper.SampleNodeMapper) (sample_id tree_id node_id s t : Z) :
  Mapper.assign (Mapper.new num_trees num_observations) calls = Some m ->
  0 <= sample_id < num_observations ->
  0 <= tree_id < num_trees ->
  node_id <> 0 ->
  0 <= s < num_observations ->
  0 <= t < num_trees ->
  exists m',
    Mapper.SetNodeId m sample_id tree_id node_id = Some m' /\
    Mapper.NumTrees (Mapper.copy m') = Mapper.NumTrees m' /\
    Mapper.NumObservations (Mapper.copy m') = Mapper.NumObservations m' /\
    Mapper.GetNodeId (Mapper.copy m') s t = Some 0 /\
    Mapper.GetNodeId m' sample_id tree_id = Some node_id /\
    Mapper.GetNodeId (Mapper.copy m') sample_id tree_id <>
    Mapper.GetNodeId m' sample_id tree_id.
Proof.
  intros Hm Hs Ht Hid Hs' Ht'.
  destruct (assign_shaped calls _ _ (allocate_shaped _ _) Hm)
    as (Hshape & Hnt & Hno). simpl in Hnt, Hno.
  destruct (SetNodeId_GetNodeId m sample_id tree_id node_id Hshape)
    as (m' & Hset & Hget); try lia.
  destruct (SetNodeId_shaped _ _ _ _ _ Hshape Hset) as (_ & Hnt' & Hno').
  assert (forall a b, 0 <= a < num_observations -> 0 <= b < num_trees ->
                      Mapper.GetNodeId (Mapper.copy m') a b = Some 0)
    as Hcopy.
  { intros a b Ha Hb.
    unfold Mapper.GetNodeId, Mapper.copy, Mapper.NumTrees,
      Mapper.NumObservations; simpl.
    destruct (Z.ltb_spec a (Mapper.num_observations_ m')); [|lia].
    destruct (Z.ltb_spec b (Mapper.num_trees_ m')); [|lia]. simpl.
    apply allocate_at; lia. }
  exists m'. repeat split; auto.
  rewrite (Hcopy sample_id tree_id Hs Ht), Hget. congruence.
Qed.

(** A 2-tree, 3-observation mapper after two assignments; node id 7 is then
    assigned to observation 1 of tree 1, and the copy is read at observation
    2 of tree 0, where the original holds 4. *)
Lemma copy_constructor_drops_node_ids_witness :
  exists m',
    Mapper.SetNodeId
      {| Mapper.tree_observation_indices_ := [[0; 0; 4]; [5; 0; 0]];
         Mapper.num_trees_ := 2;
         Mapper.num_observations_ := 3 |} 1 1 7 = Some m' /\
    Mapper.NumTrees (Mapper.copy m') = Mapper.NumTrees m' /\
    Mapper.NumObservations (Mapper.copy m') = Mapper.NumObservations m' /\
    Mapper.GetNodeId (Mapper.copy m') 2 0 = Some 0 /\
    Mapper.GetNodeId m' 1 1 = Some 7 /\
    Mapper.GetNodeId (Mapper.copy m') 1 1 <> Mapper.GetNodeId m' 1 1.
Proof.
  apply (copy_constructor_drops_node_ids 2 3 [(2, 0, 4); (0, 1, 5)]).
  - reflexivity.
  - lia.
  - lia.
  - lia.
  - lia.
  - lia.
Defined.

(** ** VarSplitRange *)

(** On a leaf that holds a single observation, only the [var_min] branch
    runs: [var_max] keeps its initial value. *)
Lemma VarSplitRange_step_first (covariates : Grow.Matrix)
  (feature_split idx : Z) :
  (covariates idx feature_split <? DBL_MAX)%float = true ->
  Grow.VarSplitRange_step covariates feature_split (DBL_MAX, DBL_MIN) idx =
  (covariates idx feature_split, DBL_MIN).
Proof.
  intros Hlt. unfold Grow.VarSplitRange_step. now rewrite Hlt.
Qed.

(** C2, on the code.  A leaf of tree 0 holds the observations 0, 1, 2 whose
    values of feature 0 are 3, 2, 1.  [VarSplitRange] returns
    [var_min = 1] and [var_max = DBL_MIN] (about 2.2e-308, the initial value
    of [var_max]): every value takes the [feature_value < var_min] branch, so
    the [else if] that updates [var_max] never runs.  The result is not the
    maximum 3 of the leaf, and [var_max < var_min]. *)
Theorem VarSplitRange_descending_leaf :
  let covariates : Grow.Matrix :=
    fun idx _ => nth (Z.to_nat idx) [3; 2; 1]%float 0%float in
  let node_tracker : Tracker.UnsortedNodeSampleTracker :=
    [ {| Tracker.indices_ := [0; 1; 2];
         Tracker.node_begin_ := [0];
         Tracker.node_length_ := [3] |} ] in
  Grow.leaf_values covariates node_tracker 0 0 0 = [3; 2; 1]%float /\
  Grow.VarSplitRange covariates node_tracker 0 0 0 =
  Some (1%float, DBL_MIN) /\
  (DBL_MIN <? 3)%float = true /\
  (DBL_MIN <? 1)%float = true.
Proof.
  cbv zeta. repeat split; vm_compute; reflexivity.
Qed.

(** The same on a leaf with the single observation 0 of value 5, and on a
    leaf whose values -1, -2 are all negative. *)
Example VarSplitRange_single_observation :
  Grow.VarSplitRange (fun _ _ => 5%float)
    [ {| Tracker.indices_ := [0];
         Tracker.node_begin_ := [0];
         Tracker.node_length_ := [1] |} ] 0 0 0 =
  Some (5%float, DBL_MIN).
Proof. vm_compute; reflexivity. Qed.

Example VarSplitRange_negative_values :
  Grow.VarSplitRange
    (fun idx _ => nth (Z.to_nat idx) [-1; -2]%float 0%float)
    [ {| Tracker.indices_ := [0; 1];
         Tracker.node_begin_ := [0];
         Tracker.node_length_ := [2] |} ] 0 0 0 =
  Some ((-2)%float, DBL_MIN).
Proof. vm_compute; reflexivity. Qed.

(** An ascending leaf is the case in which both bounds come out right. *)
Example VarSplitRange_ascending_leaf :
  Grow.VarSplitRange
    (fun idx _ => nth (Z.to_nat idx) [1; 2; 3]%float 0%float)
    [ {| Tracker.indices_ := [0; 1; 2];
         Tracker.node_begin_ := [0];
         Tracker.node_length_ := [3] |} ] 0 0 0 =
  Some (1%float, 3%float).
Proof. vm_compute; reflexivity. Qed.

(** ** The proposal probabilities of the grow move *)

Lemma double_of_int_0 : double_of_int 0 = 0%float.
Proof. vm_compute; reflexivity. Qed.

Lemma double_of_int_1 : double_of_int 1 = 1%float.
Proof. vm_compute; reflexivity. Qed.

(** From two leaves on, the integer quotient [1/num_leaves] is 0; with a
    single leaf it is 1. *)
Lemma p_leaf_truncates (num_leaves : Z) :
  2 <= num_leaves -> Grow.p_leaf num_leaves = 0%float.
Proof.
  intros Hn. unfold Grow.p_leaf.
  rewrite Z.quot_small by lia. apply double_of_int_0.
Qed.

Lemma p_leaf_truncates_witness : Grow.p_leaf 5 = 0%float.
Proof. apply (p_leaf_truncates 5). lia. Defined.

Lemma p_leaf_parent_truncates (num_leaf_parents : Z) :
  1 <= num_leaf_parents -> Grow.p_leaf_parent num_leaf_parents = 0%float.
Proof.
  intros Hn. unfold Grow.p_leaf_parent.
  rewrite Z.quot_small by lia. apply double_of_int_0.
Qed.

Lemma p_leaf_parent_truncates_witness : Grow.p_leaf_parent 3 = 0%float.
Proof. apply (p_leaf_parent_truncates 3). lia. Defined.

Lemma p_leaf_root_only :
  Grow.p_leaf 1 = 1%float /\ Grow.p_leaf_parent 0 = 1%float.
Proof. split; vm_compute; reflexivity. Qed.

(** C3, on the code.  For a tree with two leaves and one leaf parent (the
    root split once) the two proposal probabilities are 0: [1/num_leaves] and
    [1/(num_leaf_parents+1)] divide an [int] by an [int].  The uniform
    probabilities of the claim are 1/2 each, which is what the [double]
    division [1.0/num_leaves] of line 265 gives for the leaf weights. *)
Theorem grow_probabilities_integer_division :
  Grow.p_leaf 2 = 0%float /\
  Grow.p_leaf_parent 1 = 0%float /\
  Grow.leaf_weight 2 = 0.5%float /\
  (Grow.p_leaf 2 =? 0.5)%float = false /\
  (Grow.p_leaf_parent 1 =? 0.5)%float = false.
Proof.
  repeat split; vm_compute; reflexivity.
Qed.

(** ** The leaf-scale sampler *)

Section LeafScale.

Local Open Scope R_scope.

(** The shape is [a/2] plus the total number of leaves. *)
Lemma PosteriorShape_total_leaves (forest : Variance.TreeEnsemble)
  (prior : Variance.IGVariancePrior) :
  Variance.PosteriorShape forest prior =
  Variance.GetShape prior / 2 +
  IZR (Z.of_nat (length (concat forest))).
Proof. reflexivity. Qed.

(** The scale of the code and the scale of the spec differ by
    [(a - 1) b / 2]. *)
Lemma PosteriorScale_gap (forest : Variance.TreeEnsemble)
  (prior : Variance.IGVariancePrior) :
  Variance.spec_posterior_scale forest prior -
  Variance.PosteriorScale forest prior =
  (Variance.GetShape prior - 1) * Variance.GetScale prior / 2.
Proof.
  unfold Variance.spec_posterior_scale, Variance.PosteriorScale. field.
Qed.

(** The draw is the reciprocal of a gamma draw with the reciprocal scale. *)
Lemma SampleVarianceParameter_reciprocal (gamma_draw : R -> R -> R)
  (forest : Variance.TreeEnsemble) (prior : Variance.IGVariancePrior) :
  Variance.SampleVarianceParameter gamma_draw forest prior =
  / gamma_draw (Variance.PosteriorShape forest prior)
               (/ Variance.PosteriorScale forest prior).
Proof.
  unfold Variance.SampleVarianceParameter. cbv zeta.
  unfold Rdiv. now rewrite !Rmult_1_l.
Qed.

(** C7, on the code.  With the prior [a = 4], [b = 1] and a forest of one
    tree with the two leaf values 1 and 2, the leaf-scale sampler uses the
    posterior scale [b/2 + 5 = 11/2]; the scale of the claim is
    [a b / 2 + 5 = 7], which is what the global variance sampler computes
    from the same prior and the residuals 1, 2. *)
Theorem leaf_scale_posterior_scale_ignores_shape :
  let prior := {| Variance.GetShape := 4; Variance.GetScale := 1 |} in
  Variance.PosteriorShape [[1; 2]] prior = 4 /\
  Variance.PosteriorScale [[1; 2]] prior = 11 / 2 /\
  Variance.spec_posterior_scale [[1; 2]] prior = 7 /\
  Variance.GlobalPosteriorScale [1; 2] prior = 7 /\
  Variance.PosteriorScale [[1; 2]] prior <>
  Variance.spec_posterior_scale [[1; 2]] prior.
Proof.
  cbv zeta.
  unfold Variance.PosteriorShape, Variance.PosteriorScale,
    Variance.spec_posterior_scale, Variance.GlobalPosteriorScale,
    Variance.NumLeaves, Variance.SumLeafSquared, Variance.sum_sq_resid.
  simpl. repeat split; try lra.
Qed.

End LeafScale.

(** ** Marginal likelihoods *)

Section MarginalLikelihood.

Local Open Scope R_scope.

Lemma Int_part_2 : Int_part 2 = 2%Z.
Proof. symmetry. apply Int_part_spec. lra. Qed.

(** [std::pow(x, 2.0)] is the square of [x], whatever the sign of [x]. *)
Lemma std_pow_2 (x : R) : Leaf.std_pow x 2 = x ^ 2.
Proof.
  unfold Leaf.std_pow. destruct (Rlt_dec 0 x) as [Hpos|Hneg].
  - replace 2 with (INR 2) by (simpl; lra). now apply Rpower_pow.
  - rewrite Int_part_2. destruct (Req_dec_T 2 2) as [_|Hne]; [|lra].
    simpl. ring.
Qed.

Lemma NoSplit_closed_form (S : Leaf.LeafConstantGaussianSuffStat)
  (tau global_variance : R) :
  0 < global_variance ->
  Leaf.NoSplitLogMarginalLikelihood S tau global_variance =
  Leaf.spec_log_ml S tau (R_sqrt.sqrt global_variance).
Proof.
  intros Hvar. unfold Leaf.NoSplitLogMarginalLikelihood, Leaf.spec_log_ml.
  cbv zeta. unfold Leaf.M_PI.
  rewrite std_pow_2.
  replace (R_sqrt.sqrt global_variance ^ 2) with global_variance.
  2:{ simpl. rewrite Rmult_1_r. symmetry. apply sqrt_def. lra. }
  unfold Rdiv. ring.
Qed.

(** C6.  For every sufficient statistic, leaf scale [tau] and variance
    [sigma^2 > 0], with [sigma] the square root of the variance:
    [NoSplitLogMarginalLikelihood] returns
    [-(n/2) log(2 pi) - n log sigma + 1/2 log(sigma^2/(sigma^2 + tau n))
     - sum r^2/(2 sigma^2) + tau (sum r)^2/(2 sigma^2 (sigma^2 + tau n))],
    and [SplitLogMarginalLikelihood] of a left and a right statistic is the
    sum of that expression at the left and at the right one. *)
Theorem log_marginal_likelihood_closed_form
  (S left_stat right_stat : Leaf.LeafConstantGaussianSuffStat)
  (tau global_variance : R) :
  0 < tau ->
  0 < global_variance ->
  Leaf.NoSplitLogMarginalLikelihood S tau global_variance =
  Leaf.spec_log_ml S tau (R_sqrt.sqrt global_variance) /\
  Leaf.SplitLogMarginalLikelihood left_stat right_stat tau global_variance =
  Leaf.spec_log_ml left_stat tau (R_sqrt.sqrt global_variance) +
  Leaf.spec_log_ml right_stat tau (R_sqrt.sqrt global_variance).
Proof.
  intros _ Hvar. split.
  - now apply NoSplit_closed_form.
  - rewrite <- !NoSplit_closed_form by assumption. reflexivity.
Qed.

(** The statistics of the residuals 1, 2 (left) and 3 (right) and of all
    three, with [tau = 1] and variance 4. *)
Lemma log_marginal_likelihood_closed_form_witness :
  Leaf.NoSplitLogMarginalLikelihood
    {| Leaf.n := 3; Leaf.sum_y := 6; Leaf.sum_y_squared := 14 |} 1 4 =
  Leaf.spec_log_ml {| Leaf.n := 3; Leaf.sum_y := 6; Leaf.sum_y_squared := 14 |}
              1 (R_sqrt.sqrt 4) /\
  Leaf.SplitLogMarginalLikelihood
    {| Leaf.n := 2; Leaf.sum_y := 3; Leaf.sum_y_squared := 5 |}
    {| Leaf.n := 1; Leaf.sum_y := 3; Leaf.sum_y_squared := 9 |} 1 4 =
  Leaf.spec_log_ml {| Leaf.n := 2; Leaf.sum_y := 3; Leaf.sum_y_squared := 5 |}
              1 (R_sqrt.sqrt 4) +
  Leaf.spec_log_ml {| Leaf.n := 1; Leaf.sum_y := 3; Leaf.sum_y_squared := 9 |}
              1 (R_sqrt.sqrt 4).
Proof.
  apply (log_marginal_likelihood_closed_form
           {| Leaf.n := 3; Leaf.sum_y := 6; Leaf.sum_y_squared := 14 |}
           {| Leaf.n := 2; Leaf.sum_y := 3; Leaf.sum_y_squared := 5 |}
           {| Leaf.n := 1; Leaf.sum_y := 3; Leaf.sum_y_squared := 9 |}
           1 4); lra.
Defined.

End MarginalLikelihood.

(** ** The "no-split" entry of the cutpoint enumeration *)


Lemma std_log_positive (x : R) :
  (0 < x)%R -> Leaf.std_log x = Leaf.Real (ln x).
Proof.
  intros Hx. unfold Leaf.std_log. destruct (Rlt_dec 0 x); [reflexivity|lra].
Qed.


Lemma prior_odds_positive (alpha beta : R) (node_depth : Z) :
  Leaf.tree_prior_in_range alpha beta node_depth ->
  (0 < Leaf.prior_odds alpha beta node_depth)%R.
Proof.
  intros ((Ha0 & Ha1) & Hb & Hd). unfold Leaf.prior_odds, Rpower.
  assert (1 <= IZR (1 + node_depth))%R as Hbase by (apply IZR_le; lia).
  assert (0 <= ln (IZR (1 + node_depth)))%R as Hln.
  { destruct Hbase as [Hlt|<-]; [|rewrite ln_1; lra].
    left. rewrite <- ln_1. apply ln_increasing; lra. }
  assert (1 <= exp (beta * ln (IZR (1 + node_depth))))%R as Hpow.
  { destruct (Req_dec (beta * ln (IZR (1 + node_depth))) 0) as [->|Hne].
    - rewrite exp_0. lra.
    - left. rewrite <- exp_0. apply exp_increasing. nra. }
  assert (1 < / alpha)%R as Hinv.
  { rewrite <- Rinv_1 at 1. apply Rinv_lt_contravar; lra. }
  unfold Rdiv. nra.
Qed.


Section NoSplitEntry.

Local Open Scope R_scope.

Variable residual : Z -> R.
Variable SortIndex : Z -> Z -> Z.
Variables (NumCutpoints : Z -> Z) (BinStartIndex BinLength : Z -> Z -> Z).
Variable feature_types : Z -> Leaf.FeatureType.
Variable SampleGreaterThan : Leaf.LeafConstantGaussianSuffStat -> Z -> bool.
Variables (tau outcome_variance alpha beta : R).
Variables (min_samples_leaf node_depth num_features : Z).

Let cutpoint_step :=
  Leaf.cutpoint_step residual SortIndex BinStartIndex BinLength feature_types
    SampleGreaterThan tau outcome_variance min_samples_leaf.

Let enumerate :=
  Leaf.enumerate residual SortIndex NumCutpoints BinStartIndex BinLength
    feature_types SampleGreaterThan tau outcome_variance min_samples_leaf
    num_features.

Let Cutpoints :=
  Leaf.Cutpoints residual SortIndex NumCutpoints BinStartIndex BinLength
    feature_types SampleGreaterThan tau outcome_variance alpha beta
    min_samples_leaf node_depth num_features.

(** The loops keep [num_cutpoints] equal to the number of recorded split
    evaluations. *)
Lemma cutpoint_step_counted (root : Leaf.LeafConstantGaussianSuffStat)
  (j : Z) (e : Leaf.Enumeration) (cutpoint_idx : Z) :
  Leaf.counted e -> Leaf.counted (cutpoint_step root j e cutpoint_idx).
Proof.
  unfold Leaf.counted, cutpoint_step, Leaf.cutpoint_step. cbv zeta.
  intros He. destruct (_ && _); simpl; [|exact He].
  rewrite length_app. simpl. lia.
Qed.

Lemma fold_counted {A : Type} (f : Leaf.Enumeration -> A -> Leaf.Enumeration)
  (l : list A) :
  (forall e a, Leaf.counted e -> Leaf.counted (f e a)) ->
  forall e, Leaf.counted e -> Leaf.counted (fold_left f l e).
Proof.
  intros Hf. induction l as [|a l IH]; intros e He; simpl; auto.
Qed.

Lemma enumerate_counted (root : Leaf.LeafConstantGaussianSuffStat)
  (count0 : Z) : Leaf.counted (enumerate root count0).
Proof.
  unfold enumerate, Leaf.enumerate. apply fold_counted.
  - intros e j He. unfold Leaf.feature_step. apply fold_counted; auto.
    intros e' c He'. now apply cutpoint_step_counted.
  - reflexivity.
Qed.



End NoSplitEntry.


(** ** The order in which grow-from-root samples the nodes *)

Lemma SampleTree_loop_done (fuel : nat)
  (rule : GFR.node_t -> option (GFR.node_t * GFR.node_t))
  (sampled : list GFR.node_t) :
  GFR.SampleTree_loop fuel rule [] sampled = Some sampled.
Proof. destruct fuel; reflexivity. Qed.

(** A split pushes the right child and then the left child to the FRONT of
    the queue: the left child is the next node sampled. *)
Lemma SampleSplitRule_pushes_front
  (rule : GFR.node_t -> option (GFR.node_t * GFR.node_t))
  (leaf_node left_node right_node : GFR.node_t) (split_queue : GFR.deque) :
  rule leaf_node = Some (left_node, right_node) ->
  GFR.SampleSplitRule rule leaf_node split_queue =
  left_node :: right_node :: split_queue.
Proof.
  intros Hrule. unfold GFR.SampleSplitRule. now rewrite Hrule.
Qed.

(** Sampling the subtree [t] from the front of the queue takes [size t]
    iterations, appends the pre-order of [t] to the nodes sampled so far, and
    leaves the rest of the queue as it found it. *)
Lemma SampleTree_loop_subtree
  (rule : GFR.node_t -> option (GFR.node_t * GFR.node_t)) (t : GFR.grown) :
  GFR.draws rule t ->
  forall (fuel : nat) (rest : GFR.deque) (sampled : list GFR.node_t),
    GFR.SampleTree_loop (GFR.size t + fuel) rule (GFR.root_id t :: rest)
                        sampled =
    GFR.SampleTree_loop fuel rule rest (sampled ++ GFR.preorder t).
Proof.
  induction t as [id|id l IHl r IHr]; simpl; intros Hdraws fuel rest sampled.
  - unfold GFR.SampleSplitRule. now rewrite Hdraws.
  - destruct Hdraws as (Hid & Hl & Hr).
    rewrite (SampleSplitRule_pushes_front _ _ _ _ _ Hid).
    rewrite <- Nat.add_assoc, (IHl Hl), (IHr Hr).
    f_equal. now rewrite <- !app_assoc.
Qed.

(** C5, as the code has it.  Let [t] be the tree that the draws of a
    grow-from-root step build below the root.  The step terminates within
    [size t] iterations and samples the nodes in depth-first pre-order: a
    node, then the whole subtree of its left child, then the subtree of its
    right child.  The queue is used as a stack. *)
Theorem SampleTree_depth_first
  (rule : GFR.node_t -> option (GFR.node_t * GFR.node_t)) (t : GFR.grown)
  (fuel : nat) :
  GFR.root_id t = GFR.kRoot ->
  GFR.draws rule t ->
  (GFR.size t <= fuel)%nat ->
  GFR.SampleTree fuel rule = Some (GFR.preorder t).
Proof.
  intros Hroot Hdraws Hfuel. unfold GFR.SampleTree, GFR.push_back. simpl.
  rewrite <- Hroot.
  replace fuel with (GFR.size t + (fuel - GFR.size t))%nat by lia.
  rewrite (SampleTree_loop_subtree rule t Hdraws).
  apply SampleTree_loop_done.
Qed.

(** The root 0 is split into 1 and 2, node 1 into 3 and 4; nodes 2, 3, 4
    stay leaves. *)
Lemma SampleTree_depth_first_witness :
  GFR.SampleTree 5
    (fun id => if id =? 0 then Some (1, 2)
               else if id =? 1 then Some (3, 4) else None) =
  Some [0; 1; 3; 4; 2].
Proof.
  apply (SampleTree_depth_first _
           (GFR.Split 0 (GFR.Split 1 (GFR.Leaf 3) (GFR.Leaf 4)) (GFR.Leaf 2))).
  - reflexivity.
  - simpl. repeat split; reflexivity.
  - simpl. lia.
Defined.

(** C5, as the claim has it, fails on that run.  Node 2 is at depth 1 and
    node 3 at depth 2, yet node 3 is sampled before node 2; the children 3
    and 4 of node 1 went to the front of the queue, ahead of node 2, where a
    queue that appends at the back gives the order 0, 1, 2, 3, 4. *)
Lemma SampleTree_not_breadth_first :
  let rule := fun id => if id =? 0 then Some (1, 2)
                        else if id =? 1 then Some (3, 4) else None in
  let t := GFR.Split 0 (GFR.Split 1 (GFR.Leaf 3) (GFR.Leaf 4)) (GFR.Leaf 2) in
  GFR.SampleTree 5 rule = Some [0; 1; 3; 4; 2] /\
  GFR.depths 0 t = [(0, 0); (1, 1); (3, 2); (4, 2); (2, 1)] /\
  GFR.sampled_before [0; 1; 3; 4; 2] 2 3 = false /\
  GFR.sampled_before [0; 1; 3; 4; 2] 3 2 = true /\
  GFR.SampleSplitRule rule 1 [2] = [3; 4; 2] /\
  GFR.SampleSplitRule rule 1 [2] <> GFR.push_back (GFR.push_back [2] 3) 4 /\
  GFR.spec_breadth_first_loop 5 rule [GFR.kRoot] [] = Some [0; 1; 2; 3; 4] /\
  GFR.SampleTree 5 rule <> GFR.spec_breadth_first_loop 5 rule [GFR.kRoot] [].
Proof.
  cbv zeta. repeat split; try reflexivity; vm_compute; discriminate.
Qed.

(** ** The draw storage of the driver *)

Lemma sweep_length (config : Driver.Config) (s : Driver.Storage) (i : Z) :
  length (Driver.model_draws_ (Driver.sweep config s i)) =
  length (Driver.model_draws_ s).
Proof.
  unfold Driver.sweep. cbv zeta.
  set (draws1 := if (i =? 0) || _ then _ else _).
  assert (length draws1 = length (Driver.model_draws_ s)) as H1.
  { unfold draws1. destruct (_ || _); auto using vec_set_length. }
  assert (length
            match vec_at draws1 (Driver.model_iter s) with
            | Some (Some sweeps) =>
                vec_set draws1 (Driver.model_iter s) (Some (i :: sweeps))
            | _ => draws1
            end = length (Driver.model_draws_ s)) as H2.
  { destruct (vec_at draws1 _) as [[sweeps|]|]; auto.
    now rewrite vec_set_length. }
  destruct (_ <=? i); simpl; exact H2.
Qed.

Lemma before_sweep_succ (config : Driver.Config) (i : Z) :
  0 <= i ->
  Driver.before_sweep config (i + 1) =
  Driver.sweep config (Driver.before_sweep config i) i.
Proof.
  intros Hi. unfold Driver.before_sweep.
  now rewrite upto_succ, fold_left_app by lia.
Qed.

Lemma before_sweep_length (config : Driver.Config) (i : Z) :
  length (Driver.model_draws_ (Driver.before_sweep config i)) =
  Z.to_nat (Driver.num_samples config).
Proof.
  unfold Driver.before_sweep.
  assert (forall l s,
             length (Driver.model_draws_ (fold_left (Driver.sweep config) l s))
             = length (Driver.model_draws_ s)) as Hfold.
  { induction l as [|k l IH]; intros s; simpl; auto.
    now rewrite IH, sweep_length. }
  rewrite Hfold. unfold Driver.new; simpl.
  now rewrite resize_nil, repeat_length.
Qed.

(** When sweep [i] starts, [model_iter] counts the retained sweeps that have
    run, and [prev_model_iter] is one behind it once it has left 0. *)
Lemma before_sweep_iters (config : Driver.Config) (k : nat) :
  0 <= Driver.num_burnin config ->
  Driver.model_iter (Driver.before_sweep config (Z.of_nat k)) =
  Z.max 0 (Z.of_nat k - Driver.num_burnin config) /\
  Driver.prev_model_iter (Driver.before_sweep config (Z.of_nat k)) =
  Z.max 0 (Z.of_nat k - Driver.num_burnin config - 1).
Proof.
  intros Hb. induction k as [|k [IHm IHp]].
  - unfold Driver.before_sweep; simpl. lia.
  - rewrite Nat2Z.inj_succ, <- Z.add_1_r, before_sweep_succ by lia.
    unfold Driver.sweep. cbv zeta.
    destruct (Z.leb_spec (Driver.num_burnin config) (Z.of_nat k)); simpl;
      rewrite ?IHm, ?IHp; lia.
Qed.




(** ** The residual add-back / subtract cycle *)

Section ResidualCycle.

Variable Tree : Type.
Variable PredictFromNode : Tree -> Z -> double.
Variable tree : Tree.
Variable sample_node_mapper : Mapper.SampleNodeMapper.
Variable j : Z.

Let prediction := Driver.prediction_val Tree PredictFromNode tree
                    sample_node_mapper.

Lemma ResidualAdd_row_update : Driver.row_update PrimFloat.add Data.ResidualAdd.
Proof.
  intros d row val Hone. unfold Data.ResidualAdd, Data.ResidualValue.
  rewrite Hone. replace (row * 1 + 0) with row by lia. cbv zeta.
  destruct (vec_at (Data.residuals_ d) row) as [r|] eqn:Er; simpl.
  - repeat split; auto.
    + intros r' [= <-]. apply vec_at_set_same.
      eapply vec_at_Some_range; eauto.
    + intros other Hne. now apply vec_at_set_other.
  - repeat split; auto. intros r' Hr'. congruence.
Qed.

Lemma ResidualSubtract_row_update :
  Driver.row_update PrimFloat.sub Data.ResidualSubtract.
Proof.
  intros d row val Hone. unfold Data.ResidualSubtract, Data.ResidualValue.
  rewrite Hone. replace (row * 1 + 0) with row by lia. cbv zeta.
  destruct (vec_at (Data.residuals_ d) row) as [r|] eqn:Er; simpl.
  - repeat split; auto.
    + intros r' [= <-]. apply vec_at_set_same.
      eapply vec_at_Some_range; eauto.
    + intros other Hne. now apply vec_at_set_other.
  - repeat split; auto. intros r' Hr'. congruence.
Qed.

(** The loop over the rows [0 .. n-1] applies the update once to each of
    these rows, with the prediction of that row, and leaves the others. *)
Lemma row_loop_rows (op : double -> double -> double)
  (update : Data.Dataset -> Z -> Z -> double -> Data.Dataset)
  (d : Data.Dataset) (m : nat) :
  Driver.row_update op update ->
  Data.num_outcome_ d = 1 ->
  (forall k, 0 <= k < Z.of_nat m -> exists v, prediction k j = Some v) ->
  exists d',
    Driver.row_loop Tree PredictFromNode update tree sample_node_mapper j
                    (Z.of_nat m) d = Some d' /\
    Data.num_outcome_ d' = 1 /\
    (forall k r v, 0 <= k < Z.of_nat m ->
                   Data.ResidualValue d k = Some r ->
                   prediction k j = Some v ->
                   Data.ResidualValue d' k = Some (op r v)) /\
    (forall k, ~ 0 <= k < Z.of_nat m ->
               Data.ResidualValue d' k = Data.ResidualValue d k).
Proof.
  intros Hupd Hone. induction m as [|m IH]; intros Hpred.
  - exists d. unfold Driver.row_loop. simpl. repeat split; auto.
    intros k r v Hk. lia.
  - destruct IH as (d1 & Hloop & Hone1 & Hin & Hout).
    { intros k Hk. apply Hpred. lia. }
    destruct (Hpred (Z.of_nat m)) as [v Hv]; [lia|].
    destruct (Hupd d1 (Z.of_nat m) v Hone1) as (Hone2 & Hhit & Hframe).
    exists (update d1 (Z.of_nat m) 0 v).
    unfold Driver.row_loop in *.
    rewrite Nat2Z.inj_succ, <- Z.add_1_r, upto_succ, fold_left_app by lia.
    rewrite Hloop. simpl. fold prediction. rewrite Hv.
    repeat split; auto.
    + intros k r v' Hk Hr Hv'.
      destruct (Z.eq_dec k (Z.of_nat m)) as [->|Hne].
      * rewrite Hv in Hv'. injection Hv' as <-. apply Hhit.
        rewrite Hout by lia. exact Hr.
      * rewrite Hframe by exact Hne. apply Hin; auto. lia.
    + intros k Hk. rewrite Hframe by lia. apply Hout. lia.
Qed.

(** C8, as the code has it.  When the subtraction sees the tree and the leaf
    assignment of the add-back, the cycle leaves at every row [k < n] the
    double [(r + p) - p], where [r] is the residual before the cycle and [p]
    the prediction of the tree at that row; both operations round. *)
Theorem residual_cycle_value (d : Data.Dataset) (n k : Z) (r p : double) :
  Data.num_outcome_ d = 1 ->
  (forall i, 0 <= i < n ->
             exists v, Driver.prediction_val Tree PredictFromNode tree
                         sample_node_mapper i j = Some v) ->
  0 <= k < n ->
  Data.ResidualValue d k = Some r ->
  Driver.prediction_val Tree PredictFromNode tree sample_node_mapper k j =
  Some p ->
  exists d',
    Driver.residual_cycle Tree PredictFromNode tree sample_node_mapper j n d
    = Some d' /\
    Data.ResidualValue d' k = Some ((r + p) - p)%float.
Proof.
  intros Hone Hpred Hk Hr Hp.
  assert (n = Z.of_nat (Z.to_nat n)) as Hn by lia.
  rewrite Hn in Hpred, Hk.
  destruct (row_loop_rows PrimFloat.add Data.ResidualAdd d (Z.to_nat n)
              ResidualAdd_row_update Hone Hpred)
    as (d1 & Hadd & Hone1 & Hin1 & _).
  destruct (row_loop_rows PrimFloat.sub Data.ResidualSubtract d1 (Z.to_nat n)
              ResidualSubtract_row_update Hone1 Hpred)
    as (d2 & Hsub & _ & Hin2 & _).
  exists d2. unfold Driver.residual_cycle, Driver.AddBack, Driver.SubtractOut.
  rewrite Hn, Hadd. split; [exact Hsub|].
  apply (Hin2 k (r + p)%float p Hk); [|exact Hp].
  apply (Hin1 k r p Hk Hr Hp).
Qed.

End ResidualCycle.

(** Two rows with the residuals 1 and 2, a tree that predicts 0.5 at every
    node: at row 1 the cycle leaves [(2 + 0.5) - 0.5]. *)
Lemma residual_cycle_value_witness :
  let d := {| Data.covariates_ := []; Data.outcome_ := [1; 2]%float;
              Data.residuals_ := [1; 2]%float;
              Data.num_observations_ := 2; Data.num_covariates_ := 0;
              Data.num_outcome_ := 1 |} in
  exists d',
    Driver.residual_cycle unit (fun _ _ => 0.5%float) tt (Mapper.new 1 2) 0 2 d
    = Some d' /\
    Data.ResidualValue d' 1 = Some ((2 + 0.5) - 0.5)%float.
Proof.
  cbv zeta.
  apply (residual_cycle_value unit (fun _ _ => 0.5%float) tt (Mapper.new 1 2)
           0 _ 2 1 2%float 0.5%float).
  - reflexivity.
  - intros i Hi. exists 0.5%float.
    assert (i = 0 \/ i = 1) as [-> | ->] by lia; reflexivity.
  - lia.
  - reflexivity.
  - reflexivity.
Defined.

(** The doubles nearest to 0.1 and 0.2: [(0.1 + 0.2) - 0.2] is one unit in
    the last place above 0.1. *)
Example add_then_subtract_rounds :
  ((0x1.999999999999ap-4 + 0x1.999999999999ap-3) - 0x1.999999999999ap-3
   =? 0x1.999999999999ap-4)%float = false.
Proof. vm_compute; reflexivity. Qed.

(** C8, as the claim has it, fails in double arithmetic.  One row with the
    residual 1 and a tree that predicts 2^53: the add-back rounds
    [1 + 2^53] to [2^53], the subtraction gives 0, and the residual after the
    cycle is 0 where it was 1. *)
Lemma residual_cycle_not_identity :
  let d := {| Data.covariates_ := []; Data.outcome_ := [1%float];
              Data.residuals_ := [1%float];
              Data.num_observations_ := 1; Data.num_covariates_ := 0;
              Data.num_outcome_ := 1 |} in
  let cycle :=
    Driver.residual_cycle unit (fun _ _ => 0x1p53%float) tt (Mapper.new 1 1)
                          0 1 d in
  Data.ResidualValue d 0 = Some 1%float /\
  option_map Data.residuals_ cycle = Some [0%float] /\
  (1 + 0x1p53 =? 0x1p53)%float = true /\
  (0 =? 1)%float = false /\
  option_map (fun d' => Data.ResidualValue d' 0) cycle <>
  Some (Data.ResidualValue d 0).
Proof.
  cbv zeta. repeat split; try (vm_compute; reflexivity).
  intros Heq.
  assert (option_map
            (fun o => match o with
                      | Some x => (x =? 1)%float
                      | None => false
                      end)
            (option_map
               (fun d' => Data.ResidualValue d' 0)
               (Driver.residual_cycle unit (fun _ _ => 0x1p53%float) tt
                  (Mapper.new 1 1) 0 1
                  {| Data.covariates_ := []; Data.outcome_ := [1%float];
                     Data.residuals_ := [1%float];
                     Data.num_observations_ := 1; Data.num_covariates_ := 0;
                     Data.num_outcome_ := 1 |})) = Some true) as Hbit.
  { rewrite Heq. vm_compute. reflexivity. }
  vm_compute in Hbit. discriminate.
Qed.

(** ** The accept step of the grow move *)

(** Comparisons of doubles are decided on their IEEE-754 specification
    ([Prim2SF]); against the constants 0 and 1 the sign and the class of the
    other operand settle every case used below. *)
Ltac sf_cases :=
  cbv [SFleb SFltb SFcompare]; intros; try congruence.

Lemma Prim2SF_zero : Prim2SF 0 = S754_zero false.
Proof. reflexivity. Qed.

Lemma Prim2SF_one : Prim2SF 1 = S754_finite false 4503599627370496 (-52).
Proof. reflexivity. Qed.

(** A double that is [<= 0] is [<= 1]. *)
Lemma leb_zero_leb_one (x : double) :
  (x <=? 0)%float = true -> (x <=? 1)%float = true.
Proof.
  rewrite !leb_spec, Prim2SF_zero, Prim2SF_one.
  destruct (Prim2SF x) as [s|s| |s m e]; try destruct s; sf_cases.
Qed.

(** A double above 1 is above 0. *)
Lemma one_ltb_zero_ltb (x : double) :
  (1 <? x)%float = true -> (0 <? x)%float = true.
Proof.
  rewrite !ltb_spec, Prim2SF_zero, Prim2SF_one.
  destruct (Prim2SF x) as [s|s| |s m e]; try destruct s; sf_cases.
Qed.

(** A double that is [<= 0] is [<=] every double above 0. *)
Lemma leb_zero_leb_positive (x y : double) :
  (x <=? 0)%float = true -> (0 <? y)%float = true -> (x <=? y)%float = true.
Proof.
  rewrite !leb_spec, ltb_spec, Prim2SF_zero.
  destruct (Prim2SF x) as [s|s| |s m e]; try destruct s;
    destruct (Prim2SF y) as [s'|s'| |s' m' e']; try destruct s'; sf_cases.
Qed.

(** Thresholding leaves every log-ratio that is [<= 0] as it is. *)
Lemma threshold_nonpositive (log_mh_ratio : double) :
  (log_mh_ratio <=? 0)%float = true ->
  Grow.threshold log_mh_ratio = log_mh_ratio.
Proof.
  unfold Grow.threshold. rewrite leb_spec, ltb_spec, Prim2SF_zero, Prim2SF_one.
  destruct (Prim2SF log_mh_ratio) as [s|s| |s m e]; try destruct s;
    sf_cases.
Qed.

(** For a draw with [log U <= 0] the accept test on the thresholded ratio is
    the test [log U <= min(log_mh_ratio, 0)]. *)
Lemma accept_min_zero (log_mh_ratio log_acceptance_prob : double) :
  (log_acceptance_prob <=? 0)%float = true ->
  Grow.accept log_mh_ratio log_acceptance_prob =
  (log_acceptance_prob <=? Grow.min_zero log_mh_ratio)%float.
Proof.
  intros Hu. unfold Grow.accept, Grow.threshold, Grow.min_zero.
  destruct (1 <? log_mh_ratio)%float eqn:E1.
  - rewrite (one_ltb_zero_ltb _ E1), Hu. now apply leb_zero_leb_one.
  - destruct (0 <? log_mh_ratio)%float eqn:E0; [|reflexivity].
    rewrite Hu. now apply leb_zero_leb_positive.
Qed.

Section AcceptStep.

Variable log : double -> double.
Variable Tree : Type.
Variable ExpandNode :
  Tree -> Z -> Z -> double -> bool -> double -> double -> Tree.
Variables LeftChild RightChild : Tree -> Z -> Z.
Variable GetLeaves : Tree -> list Z.
Variables NumLeaves NumLeafParents : Tree -> Z.
Variable PartitionNode :
  Tracker.FeatureUnsortedPartition -> Grow.Matrix -> Z -> Z -> Z -> Z ->
  double -> Tracker.FeatureUnsortedPartition.
Variable UpdateNodeMapping :
  Tracker.FeatureUnsortedPartition -> Z -> Z -> Mapper.SampleNodeMapper ->
  Mapper.SampleNodeMapper.

Let Model := Grow.Model Tree.
Let GrowMCMC :=
  Grow.GrowMCMC log Tree ExpandNode LeftChild RightChild GetLeaves NumLeaves
                NumLeafParents PartitionNode UpdateNodeMapping.
Let AddSplitToModel :=
  Grow.AddSplitToModel Tree ExpandNode LeftChild RightChild GetLeaves
                       PartitionNode UpdateNodeMapping.
Let proposal_log_mh_ratio :=
  Grow.proposal_log_mh_ratio log Tree NumLeaves NumLeafParents.

(** C1, as the code has it.  Let [r] be the log-ratio of a grow proposal and
    [u] the uniform draw, with [log u <= 0].  The move is accepted iff
    [log u <= min(r, 0)], the comparison being [<=]; an accepted move
    commits the split: the tree is expanded at the chosen leaf, the tracker
    partitions the leaf between the two new children, and the
    observation-to-leaf map is refreshed from the new tree and tracker.  A
    rejected move changes nothing. *)
Theorem GrowMCMC_accept_step (covariates : Grow.Matrix) (s : Model)
  (q : Grow.Proposal) (prob_grow_old : double) (tree_num : Z) (u : double) :
  (log u <=? 0)%float = true ->
  let r := proposal_log_mh_ratio s q prob_grow_old in
  let s' := GrowMCMC covariates s q prob_grow_old tree_num u in
  let tree' :=
    ExpandNode (Grow.tree Tree s) (Grow.leaf_chosen q) (Grow.var_chosen q)
               (Grow.split_point_chosen q) true 0%float 0%float in
  let tracker' :=
    Grow.PartitionTreeNode PartitionNode (Grow.node_tracker Tree s)
      covariates tree_num (Grow.leaf_chosen q)
      (LeftChild tree' (Grow.leaf_chosen q))
      (RightChild tree' (Grow.leaf_chosen q))
      (Grow.var_chosen q) (Grow.split_point_chosen q) in
  if (log u <=? Grow.min_zero r)%float
  then Grow.tree Tree s' = tree' /\
       Grow.node_tracker Tree s' = tracker' /\
       Grow.sample_node_mapper Tree s' =
       Grow.UpdateObservationMapping Tree GetLeaves UpdateNodeMapping
         tracker' tree' tree_num (Grow.sample_node_mapper Tree s)
  else s' = s.
Proof.
  intros Hu. cbv zeta.
  unfold GrowMCMC, Grow.GrowMCMC. cbv zeta.
  fold proposal_log_mh_ratio.
  rewrite (accept_min_zero _ _ Hu).
  destruct (log u <=? Grow.min_zero _)%float; [|reflexivity].
  unfold Grow.AddSplitToModel. simpl. repeat split.
Qed.

End AcceptStep.

(** A root-only tree (its leaves are listed; expanding leaf [k] replaces it
    by the children [2k+1] and [2k+2]), a stand-in [x - 1] for the logarithm,
    the draw [u = 0.5]: the log-ratio is positive, the move is accepted and
    the tree has the leaves 1 and 2. *)
Lemma GrowMCMC_accept_step_witness :
  Grow.tree (list Z)
    (Grow.GrowMCMC (fun x => (x - 1)%float) (list Z)
       (fun t leaf _ _ _ _ _ =>
          [2 * leaf + 1; 2 * leaf + 2] ++ filter (fun k => negb (k =? leaf)) t)
       (fun _ k => 2 * k + 1) (fun _ k => 2 * k + 2) (fun t => t)
       (fun t => Z.of_nat (length t)) (fun _ => 0)
       (fun p _ _ _ _ _ _ => p) (fun _ _ _ m => m)
       (fun _ _ => 0%float)
       {| Grow.tree := [0];
          Grow.node_tracker :=
            [ {| Tracker.indices_ := [0; 1];
                 Tracker.node_begin_ := [0];
                 Tracker.node_length_ := [2] |} ];
          Grow.sample_node_mapper := Mapper.new 1 2 |}
       {| Grow.leaf_chosen := 0; Grow.var_chosen := 0;
          Grow.split_point_chosen := 0.5%float;
          Grow.pg := 0.5%float; Grow.pgl := 0.25%float;
          Grow.pgr := 0.25%float; Grow.prob_prune_new := 1%float;
          Grow.no_split_log_marginal_likelihood := 0%float;
          Grow.split_log_marginal_likelihood := 0%float |}
       1%float 0 0.5%float) = [1; 2].
Proof.
  pose proof
    (GrowMCMC_accept_step (fun x => (x - 1)%float) (list Z)
       (fun t leaf _ _ _ _ _ =>
          [2 * leaf + 1; 2 * leaf + 2] ++ filter (fun k => negb (k =? leaf)) t)
       (fun _ k => 2 * k + 1) (fun _ k => 2 * k + 2) (fun t => t)
       (fun t => Z.of_nat (length t)) (fun _ => 0)
       (fun p _ _ _ _ _ _ => p) (fun _ _ _ m => m)
       (fun _ _ => 0%float)
       {| Grow.tree := [0];
          Grow.node_tracker :=
            [ {| Tracker.indices_ := [0; 1];
                 Tracker.node_begin_ := [0];
                 Tracker.node_length_ := [2] |} ];
          Grow.sample_node_mapper := Mapper.new 1 2 |}
       {| Grow.leaf_chosen := 0; Grow.var_chosen := 0;
          Grow.split_point_chosen := 0.5%float;
          Grow.pg := 0.5%float; Grow.pgl := 0.25%float;
          Grow.pgr := 0.25%float; Grow.prob_prune_new := 1%float;
          Grow.no_split_log_marginal_likelihood := 0%float;
          Grow.split_log_marginal_likelihood := 0%float |}
       1%float 0 0.5%float eq_refl) as W.
  vm_compute in W. vm_compute. exact (proj1 W).
Defined.

(** C1, as the claim has it, fails twice.  At [log_mh_ratio = log U = -1]
    the code accepts, where the strict test [log U < min(log_mh_ratio, 0)]
    rejects.  And the value that enters the test is the ratio thresholded at
    1, not at 0: the ratio 0.5 stays 0.5 and the ratio 2 becomes 1, where
    clipping at 0 gives 0 for both. *)
Lemma grow_accept_not_strict_clip_at_zero :
  Grow.accept (-1)%float (-1)%float = true /\
  ((-1) <? Grow.min_zero (-1)%float)%float = false /\
  Grow.threshold 0.5%float = 0.5%float /\
  Grow.threshold 2%float = 1%float /\
  Grow.min_zero 0.5%float = 0%float /\
  Grow.min_zero 2%float = 0%float /\
  (Grow.threshold 0.5%float =? Grow.min_zero 0.5%float)%float = false.
Proof.
  repeat split; vm_compute; reflexivity.
Qed.

(** * Part III.  Further properties of the code *)

(** ** SampleNodeMapper: lookups, updates and their bounds *)

Lemma row_in_shaped (m : Mapper.SampleNodeMapper) (t : Z) (row : list Z) :
  Mapper.shaped m ->
  vec_at (Mapper.tree_observation_indices_ m) t = Some row ->
  length row = Z.to_nat (Mapper.num_observations_ m).
Proof.
  intros [_ Hrows] Hrow. rewrite Forall_forall in Hrows. apply Hrows.
  unfold vec_at in Hrow. destruct (t <? 0); [discriminate|].
  eapply nth_error_In; eauto.
Qed.

(** X1.  On a mapper built by the constructor and any run of [SetNodeId]
    calls, [SetNodeId] at an observation and a tree in range succeeds, and a
    later [GetNodeId] returns the new node id at that position and the old
    one at every other position in range. *)
Theorem SetNodeId_then_GetNodeId
  (num_trees num_observations : Z) (calls : list (Z * Z * Z))
  (m : Mapper.SampleNodeMapper) (sample_id tree_id node_id s t : Z) :
  Mapper.assign (Mapper.new num_trees num_observations) calls = Some m ->
  0 <= sample_id < num_observations ->
  0 <= tree_id < num_trees ->
  0 <= s < num_observations ->
  0 <= t < num_trees ->
  exists m',
    Mapper.SetNodeId m sample_id tree_id node_id = Some m' /\
    Mapper.GetNodeId m' s t =
    if (s =? sample_id) && (t =? tree_id) then Some node_id
    else Mapper.GetNodeId m s t.
Proof.
  intros Hm Hs Ht Hs' Ht'.
  destruct (assign_shaped calls _ _ (allocate_shaped _ _) Hm)
    as (Hshape & Hnt & Hno). simpl in Hnt, Hno.
  pose proof Hshape as [Hlen Hrows].
  unfold Mapper.SetNodeId, Mapper.GetNodeId.
  destruct (Z.ltb_spec sample_id (Mapper.num_observations_ m)); [|lia].
  destruct (Z.ltb_spec tree_id (Mapper.num_trees_ m)); [|lia].
  destruct (Z.ltb_spec s (Mapper.num_observations_ m)); [|lia].
  destruct (Z.ltb_spec t (Mapper.num_trees_ m)); [|lia]. simpl.
  destruct (vec_at_in_range (Mapper.tree_observation_indices_ m) tree_id)
    as [row Erow]; [lia|].
  rewrite Erow. eexists; split; [reflexivity|]. simpl.
  destruct (Z.ltb_spec s (Mapper.num_observations_ m)); [|lia].
  destruct (Z.ltb_spec t (Mapper.num_trees_ m)); [|lia]. simpl.
  pose proof (row_in_shaped m tree_id row Hshape Erow) as Hrow.
  destruct (Z.eqb_spec t tree_id) as [->|Hne].
  - rewrite vec_at_set_same by lia. rewrite Erow.
    destruct (Z.eqb_spec s sample_id) as [->|Hne]; simpl.
    + apply vec_at_set_same. lia.
    + apply vec_at_set_other. congruence.
  - rewrite vec_at_set_other by congruence. now rewrite andb_false_r.
Qed.

(** A 2-tree, 3-observation mapper: node id 7 goes to observation 1 of tree
    1; observation 2 of tree 0 still reads 4. *)
Lemma SetNodeId_then_GetNodeId_witness :
  exists m',
    Mapper.SetNodeId
      {| Mapper.tree_observation_indices_ := [[0; 0; 4]; [5; 0; 0]];
         Mapper.num_trees_ := 2;
         Mapper.num_observations_ := 3 |} 1 1 7 = Some m' /\
    Mapper.GetNodeId m' 2 0 = Some 4.
Proof.
  apply (SetNodeId_then_GetNodeId 2 3 [(2, 0, 4); (0, 1, 5)]
           {| Mapper.tree_observation_indices_ := [[0; 0; 4]; [5; 0; 0]];
              Mapper.num_trees_ := 2;
              Mapper.num_observations_ := 3 |}
           1 1 7 2 0);
    try lia. reflexivity.
Defined.

(** X2.  On such a mapper, and for indices that are not negative, the
    [CHECK_LT] guards are the only way [GetNodeId] and [SetNodeId] fail: each
    aborts exactly when the observation index reaches [num_observations] or
    the tree index reaches [num_trees]. *)
Theorem mapper_checks_are_the_bounds
  (num_trees num_observations : Z) (calls : list (Z * Z * Z))
  (m : Mapper.SampleNodeMapper) (s t node_id : Z) :
  Mapper.assign (Mapper.new num_trees num_observations) calls = Some m ->
  0 <= s ->
  0 <= t ->
  (Mapper.GetNodeId m s t = None <->
   num_observations <= s \/ num_trees <= t) /\
  (Mapper.SetNodeId m s t node_id = None <->
   num_observations <= s \/ num_trees <= t).
Proof.
  intros Hm Hs Ht.
  destruct (assign_shaped calls _ _ (allocate_shaped _ _) Hm)
    as (Hshape & Hnt & Hno). simpl in Hnt, Hno.
  pose proof Hshape as [Hlen Hrows].
  unfold Mapper.GetNodeId, Mapper.SetNodeId. rewrite Hnt, Hno.
  destruct (Z.ltb_spec s num_observations); simpl;
    [|split; split; intros; auto; lia].
  destruct (Z.ltb_spec t num_trees); simpl;
    [|split; split; intros; auto; lia].
  destruct (vec_at_in_range (Mapper.tree_observation_indices_ m) t)
    as [row Erow]; [lia|].
  rewrite Erow.
  pose proof (row_in_shaped m t row Hshape Erow) as Hrow.
  destruct (vec_at_in_range row s) as [v Ev]; [lia|]. rewrite Ev.
  split; split; intros; try discriminate; lia.
Qed.

Lemma mapper_checks_are_the_bounds_witness :
  (Mapper.GetNodeId (Mapper.new 2 3) 3 0 = None <-> 3 <= 3 \/ 2 <= 0) /\
  (Mapper.SetNodeId (Mapper.new 2 3) 3 0 9 = None <-> 3 <= 3 \/ 2 <= 0).
Proof.
  apply (mapper_checks_are_the_bounds 2 3 [] (Mapper.new 2 3) 3 0 9);
    try lia. reflexivity.
Defined.

Lemma zero_fill (row : list Z) (k : nat) :
  (k <= length row)%nat ->
  forall i,
    vec_at (fold_left (fun r i => vec_set r i 0) (upto (Z.of_nat k)) row) i =
    if (0 <=? i) && (i <? Z.of_nat k) then Some 0 else vec_at row i.
Proof.
  induction k as [|k IH]; intros Hk i.
  - simpl. destruct (Z.leb_spec 0 i); simpl; [|reflexivity].
    destruct (Z.ltb_spec i 0); [lia|reflexivity].
  - rewrite Nat2Z.inj_succ, <- Z.add_1_r, upto_succ, fold_left_app by lia.
    simpl.
    assert (length (fold_left (fun r i => vec_set r i 0)
                              (upto (Z.of_nat k)) row) = length row) as Hlen.
    { clear. generalize (upto (Z.of_nat k)). intros l. revert row.
      induction l as [|a l IHl]; intros row; simpl; auto.
      now rewrite IHl, vec_set_length. }
    destruct (Z.eq_dec i (Z.of_nat k)) as [->|Hne].
    + rewrite vec_at_set_same by lia.
      destruct (Z.leb_spec 0 (Z.of_nat k)); [|lia].
      destruct (Z.ltb_spec (Z.of_nat k) (Z.of_nat k + 1)); [|lia].
      reflexivity.
    + rewrite vec_at_set_other by congruence. rewrite IH by lia.
      destruct (Z.leb_spec 0 i); simpl; auto.
      destruct (Z.ltb_spec i (Z.of_nat k));
        destruct (Z.ltb_spec i (Z.of_nat k + 1)); auto; lia.
Qed.

(** X3.  On such a mapper, [AssignAllSamplesToRoot(tree_id)] sets the node id
    of every observation of that tree to 0 and leaves the node ids of every
    other tree as they were. *)
Theorem AssignAllSamplesToRoot_resets_one_tree
  (num_trees num_observations : Z) (calls : list (Z * Z * Z))
  (m : Mapper.SampleNodeMapper) (tree_id s t : Z) :
  Mapper.assign (Mapper.new num_trees num_observations) calls = Some m ->
  0 <= tree_id < num_trees ->
  0 <= s < num_observations ->
  0 <= t < num_trees ->
  Mapper.GetNodeId (Mapper.AssignAllSamplesToRoot m tree_id) s t =
  if t =? tree_id then Some 0 else Mapper.GetNodeId m s t.
Proof.
  intros Hm Ht Hs' Ht'.
  destruct (assign_shaped calls _ _ (allocate_shaped _ _) Hm)
    as (Hshape & Hnt & Hno). simpl in Hnt, Hno.
  pose proof Hshape as [Hlen Hrows].
  unfold Mapper.AssignAllSamplesToRoot, Mapper.GetNodeId.
  destruct (vec_at_in_range (Mapper.tree_observation_indices_ m) tree_id)
    as [row Erow]; [lia|].
  rewrite Erow. simpl.
  destruct (Z.ltb_spec s (Mapper.num_observations_ m)); [|lia].
  destruct (Z.ltb_spec t (Mapper.num_trees_ m)); [|lia]. simpl.
  pose proof (row_in_shaped m tree_id row Hshape Erow) as Hrow.
  destruct (Z.eqb_spec t tree_id) as [->|Hne].
  - rewrite vec_at_set_same by lia.
    replace (Mapper.num_observations_ m)
      with (Z.of_nat (Z.to_nat (Mapper.num_observations_ m))) by lia.
    rewrite zero_fill by lia.
    destruct (Z.leb_spec 0 s); [|lia].
    destruct (Z.ltb_spec s (Z.of_nat (Z.to_nat (Mapper.num_observations_ m))));
      [reflexivity|lia].
  - now rewrite vec_at_set_other by congruence.
Qed.

Lemma AssignAllSamplesToRoot_resets_one_tree_witness :
  Mapper.GetNodeId
    (Mapper.AssignAllSamplesToRoot
       {| Mapper.tree_observation_indices_ := [[0; 0; 4]; [5; 0; 0]];
          Mapper.num_trees_ := 2;
          Mapper.num_observations_ := 3 |} 0) 0 1 = Some 5.
Proof.
  apply (AssignAllSamplesToRoot_resets_one_tree 2 3 [(2, 0, 4); (0, 1, 5)]
           {| Mapper.tree_observation_indices_ := [[0; 0; 4]; [5; 0; 0]];
              Mapper.num_trees_ := 2;
              Mapper.num_observations_ := 3 |}
           0 0 1); try lia. reflexivity.
Defined.

(** ** Dataset: residual updates and reset *)

Lemma ResidualReset_step_length (d : Data.Dataset) (i : Z) :
  length (Data.residuals_ (DataOps.ResidualReset_step d i)) =
  length (Data.residuals_ d) /\
  Data.outcome_ (DataOps.ResidualReset_step d i) = Data.outcome_ d.
Proof.
  unfold DataOps.ResidualReset_step.
  destruct (vec_at (Data.outcome_ d) i); simpl; auto using vec_set_length.
Qed.

(** After the first [k] iterations of the reset loop the first [k] residuals
    are the outcomes and the others are untouched. *)
Lemma ResidualReset_prefix (d : Data.Dataset) (k : nat) :
  (k <= length (Data.outcome_ d))%nat ->
  (k <= length (Data.residuals_ d))%nat ->
  let d' := fold_left DataOps.ResidualReset_step (upto (Z.of_nat k)) d in
  length (Data.residuals_ d') = length (Data.residuals_ d) /\
  Data.outcome_ d' = Data.outcome_ d /\
  Data.with_residuals d' (Data.residuals_ d) = d /\
  forall i, vec_at (Data.residuals_ d') i =
            if (0 <=? i) && (i <? Z.of_nat k) then vec_at (Data.outcome_ d) i
            else vec_at (Data.residuals_ d) i.
Proof.
  cbv zeta. induction k as [|k IH]; intros Ho Hr.
  - simpl. repeat split; auto.
    + destruct d; reflexivity.
    + intros i. destruct (Z.leb_spec 0 i); simpl; [|reflexivity].
      destruct (Z.ltb_spec i 0); [lia|reflexivity].
  - rewrite Nat2Z.inj_succ, <- Z.add_1_r, upto_succ, fold_left_app by lia.
    simpl. destruct IH as (Hlen & Hout & Hrest & Hat); try lia.
    set (d1 := fold_left DataOps.ResidualReset_step (upto (Z.of_nat k)) d)
      in *.
    unfold DataOps.ResidualReset_step. rewrite Hout.
    destruct (vec_at_in_range (Data.outcome_ d) (Z.of_nat k)) as [y Ey];
      [lia|].
    rewrite Ey. simpl. rewrite vec_set_length.
    split; [exact Hlen|]. split; [exact Hout|]. split; [exact Hrest|].
    intros i. destruct (Z.eq_dec i (Z.of_nat k)) as [->|Hne].
    + rewrite vec_at_set_same by lia.
      destruct (Z.leb_spec 0 (Z.of_nat k)); [|lia].
      destruct (Z.ltb_spec (Z.of_nat k) (Z.of_nat k + 1)); [|lia].
      simpl. now rewrite Ey.
    + rewrite vec_at_set_other by congruence. rewrite Hat.
      destruct (Z.leb_spec 0 i); simpl; auto.
      destruct (Z.ltb_spec i (Z.of_nat k));
        destruct (Z.ltb_spec i (Z.of_nat k + 1)); auto; lia.
Qed.

Lemma vec_at_ext {A : Type} (l l' : list A) :
  (forall i, vec_at l i = vec_at l' i) -> l = l'.
Proof.
  intros H. apply nth_error_ext. intros k.
  specialize (H (Z.of_nat k)). unfold vec_at in H.
  destruct (Z.ltb_spec (Z.of_nat k) 0); [lia|].
  now rewrite Nat2Z.id in H.
Qed.

(** X4.  [ResidualReset] aborts exactly when the residual and outcome
    vectors differ in size; otherwise the residual vector becomes the outcome
    vector, whatever it held before, and nothing else of the dataset
    changes. *)
Theorem ResidualReset_restores_outcome (d : Data.Dataset) :
  DataOps.ResidualReset d =
  if (length (Data.residuals_ d) =? length (Data.outcome_ d))%nat
  then Some (Data.with_residuals d (Data.outcome_ d))
  else None.
Proof.
  unfold DataOps.ResidualReset.
  destruct (Nat.eqb_spec (length (Data.residuals_ d))
                         (length (Data.outcome_ d))) as [Heq|Hne];
    simpl; [|reflexivity].
  destruct (ResidualReset_prefix d (length (Data.residuals_ d)))
    as (Hlen & Hout & Hrest & Hat); try lia.
  set (d' := fold_left DataOps.ResidualReset_step
                       (upto (Z.of_nat (length (Data.residuals_ d)))) d) in *.
  assert (Data.residuals_ d' = Data.outcome_ d) as Hres.
  { apply vec_at_ext. intros i. rewrite Hat.
    destruct (Z.leb_spec 0 i); simpl.
    - destruct (Z.ltb_spec i (Z.of_nat (length (Data.residuals_ d)))); auto.
      unfold vec_at. destruct (i <? 0); auto.
      assert (nth_error (Data.residuals_ d) (Z.to_nat i) = None) as ->
        by (apply nth_error_None; lia).
      symmetry. apply nth_error_None. lia.
    - unfold vec_at. destruct (Z.ltb_spec i 0); [reflexivity|lia]. }
  f_equal. rewrite <- Hrest at 1. rewrite <- Hres.
  destruct d'; reflexivity.
Qed.

(** X5.  Each of [ResidualAdd], [ResidualSubtract], [ResidualDivide] and
    [ResidualMultiply] rewrites the residual entry
    [row * num_outcome_ + col] with the result of its operation on the old
    entry and [val], and nothing else: the covariates, the outcomes, the size
    of the residual vector and every other residual stay as they were. *)
Theorem residual_update_touches_one_entry
  (update : Data.Dataset -> Z -> Z -> double -> Data.Dataset)
  (op : double -> double -> double)
  (d : Data.Dataset) (row col : Z) (val r : double) (other : Z) :
  In (update, op) DataOps.updates ->
  vec_at (Data.residuals_ d) (row * Data.num_outcome_ d + col) = Some r ->
  other <> row * Data.num_outcome_ d + col ->
  let d' := update d row col val in
  vec_at (Data.residuals_ d') (row * Data.num_outcome_ d + col) =
  Some (op r val) /\
  vec_at (Data.residuals_ d') other = vec_at (Data.residuals_ d) other /\
  length (Data.residuals_ d') = length (Data.residuals_ d) /\
  Data.with_residuals d' (Data.residuals_ d) = d.
Proof.
  intros Hin Hr Hother. cbv zeta.
  pose proof (vec_at_Some_range _ _ _ Hr) as Hrange.
  assert (Data.with_residuals
            (Data.with_residuals d
               (vec_set (Data.residuals_ d)
                        (row * Data.num_outcome_ d + col) (op r val)))
            (Data.residuals_ d) = d) as Hsame
    by (destruct d; reflexivity).
  simpl in Hin.
  destruct Hin as [H|[H|[H|[H|[]]]]]; injection H as <- <-;
    unfold Data.ResidualAdd, Data.ResidualSubtract, DataOps.ResidualDivide,
      DataOps.ResidualMultiply; cbv zeta; rewrite Hr; simpl;
    (repeat split;
     [ now apply vec_at_set_same
     | now apply vec_at_set_other
     | apply vec_set_length
     | exact Hsame ]).
Qed.

(** Three residuals, one outcome column: [ResidualMultiply] at row 1 doubles
    the entry 2 and leaves row 2 at 3. *)
Lemma residual_update_touches_one_entry_witness :
  let d := {| Data.covariates_ := []; Data.outcome_ := [1; 2; 3]%float;
              Data.residuals_ := [1; 2; 3]%float;
              Data.num_observations_ := 3; Data.num_covariates_ := 0;
              Data.num_outcome_ := 1 |} in
  let d' := DataOps.ResidualMultiply d 1 0 2%float in
  vec_at (Data.residuals_ d') 1 = Some (2 * 2)%float /\
  vec_at (Data.residuals_ d') 2 = Some 3%float /\
  length (Data.residuals_ d') = 3%nat /\
  Data.with_residuals d' (Data.residuals_ d) = d.
Proof.
  apply (residual_update_touches_one_entry DataOps.ResidualMultiply
           PrimFloat.mul
           {| Data.covariates_ := []; Data.outcome_ := [1; 2; 3]%float;
              Data.residuals_ := [1; 2; 3]%float;
              Data.num_observations_ := 3; Data.num_covariates_ := 0;
              Data.num_outcome_ := 1 |} 1 0 2%float 2%float 2).
  - simpl. auto.
  - reflexivity.
  - simpl. lia.
Defined.

(** ** The order of doubles *)

Lemma lex_lt_trans (e1 e2 e3 : Z) (m1 m2 m3 : positive) :
  match (e1 ?= e2) with
  | Eq => Pos.compare_cont Eq m1 m2 | Lt => Lt | Gt => Gt
  end = Lt ->
  match (e2 ?= e3) with
  | Eq => Pos.compare_cont Eq m2 m3 | Lt => Lt | Gt => Gt
  end = Lt ->
  match (e1 ?= e3) with
  | Eq => Pos.compare_cont Eq m1 m3 | Lt => Lt | Gt => Gt
  end = Lt.
Proof.
  change (Pos.compare_cont Eq m1 m2) with (Pos.compare m1 m2).
  change (Pos.compare_cont Eq m2 m3) with (Pos.compare m2 m3).
  change (Pos.compare_cont Eq m1 m3) with (Pos.compare m1 m3).
  destruct (Z.compare_spec e1 e2), (Z.compare_spec e2 e3),
    (Z.compare_spec e1 e3); try discriminate; try lia; try reflexivity.
  rewrite !Pos.compare_lt_iff. lia.
Qed.

Lemma lex_gt_trans (e1 e2 e3 : Z) (m1 m2 m3 : positive) :
  match (e1 ?= e2) with
  | Eq => CompOpp (Pos.compare_cont Eq m1 m2) | Lt => Gt | Gt => Lt
  end = Lt ->
  match (e2 ?= e3) with
  | Eq => CompOpp (Pos.compare_cont Eq m2 m3) | Lt => Gt | Gt => Lt
  end = Lt ->
  match (e1 ?= e3) with
  | Eq => CompOpp (Pos.compare_cont Eq m1 m3) | Lt => Gt | Gt => Lt
  end = Lt.
Proof.
  change (Pos.compare_cont Eq m1 m2) with (Pos.compare m1 m2).
  change (Pos.compare_cont Eq m2 m3) with (Pos.compare m2 m3).
  change (Pos.compare_cont Eq m1 m3) with (Pos.compare m1 m3).
  destruct (Z.compare_spec e1 e2), (Z.compare_spec e2 e3),
    (Z.compare_spec e1 e3); try discriminate; try lia; try reflexivity.
  destruct (Pos.compare_spec m1 m2), (Pos.compare_spec m2 m3),
    (Pos.compare_spec m1 m3); simpl; try discriminate; try lia;
    try reflexivity.
Qed.

Lemma SFcompare_Lt_trans (x y z : spec_float) :
  SFcompare x y = Some Lt -> SFcompare y z = Some Lt ->
  SFcompare x z = Some Lt.
Proof.
  destruct x as [sx|sx| |sx mx ex]; destruct y as [sy|sy| |sy my ey];
    destruct z as [sz|sz| |sz mz ez];
    try destruct sx; try destruct sy; try destruct sz;
    cbv [SFcompare]; try congruence; try reflexivity.
  - intros [= H1] [= H2]. f_equal. eapply lex_gt_trans; eauto.
  - intros [= H1] [= H2]. f_equal. eapply lex_lt_trans; eauto.
Qed.

Lemma SFltb_Lt (x y : spec_float) :
  SFltb x y = true <-> SFcompare x y = Some Lt.
Proof.
  unfold SFltb. destruct (SFcompare x y) as [[]|]; split; congruence.
Qed.

Lemma ltb_trans (x y z : double) :
  (x <? y)%float = true -> (y <? z)%float = true -> (x <? z)%float = true.
Proof.
  rewrite !ltb_spec, !SFltb_Lt. apply SFcompare_Lt_trans.
Qed.

Lemma SFcompare_refl_not_Lt (x : spec_float) : SFcompare x x <> Some Lt.
Proof.
  destruct x as [s|s| |s m e]; try destruct s; cbv [SFcompare];
    try congruence; rewrite Z.compare_refl;
    change (Pos.compare_cont Eq m m) with (Pos.compare m m);
    rewrite Pos.compare_refl; simpl; congruence.
Qed.

Lemma ltb_irrefl (x : double) : (x <? x)%float = false.
Proof.
  destruct (x <? x)%float eqn:E; [|reflexivity].
  rewrite ltb_spec, SFltb_Lt in E. now apply SFcompare_refl_not_Lt in E.
Qed.

Lemma ltb_asym (x y : double) :
  (x <? y)%float = true -> (y <? x)%float = false.
Proof.
  intros Hxy. destruct (y <? x)%float eqn:E; [|reflexivity].
  pose proof (ltb_trans _ _ _ Hxy E) as Hxx.
  now rewrite ltb_irrefl in Hxx.
Qed.

(** A double that some double is below is not below what that double is not
    below: [x < y], [not (v < y)] give [not (v < x)]. *)
Lemma ltb_lower (v x y : double) :
  (x <? y)%float = true -> (v <? y)%float = false -> (v <? x)%float = false.
Proof.
  intros Hxy Hvy. destruct (v <? x)%float eqn:E; [|reflexivity].
  now rewrite (ltb_trans _ _ _ E Hxy) in Hvy.
Qed.

(** ** VarSplitRange: what holds of [var_min] and [var_max] *)

Lemma VarSplitRange_fold_mono (covariates : Grow.Matrix) (f : Z)
  (l : list Z) :
  forall (acc : double * double) (v : double),
    (v <? fst acc)%float = false ->
    (v <? fst (fold_left (Grow.VarSplitRange_step covariates f) l acc))%float
    = false.
Proof.
  induction l as [|idx l IH]; intros [m M] v Hv; simpl; [exact Hv|].
  apply IH. unfold Grow.VarSplitRange_step.
  destruct (covariates idx f <? m)%float eqn:E; simpl.
  - simpl in Hv. exact (ltb_lower _ _ _ E Hv).
  - destruct (M <? covariates idx f)%float; exact Hv.
Qed.

Lemma VarSplitRange_fold_bound (covariates : Grow.Matrix) (f : Z)
  (l : list Z) :
  forall (acc : double * double) (v : double),
    In v (map (fun idx => covariates idx f) l) ->
    (v <? fst (fold_left (Grow.VarSplitRange_step covariates f) l acc))%float
    = false.
Proof.
  induction l as [|idx l IH]; intros [m M] v Hin; simpl in *; [tauto|].
  destruct Hin as [<-|Hin]; [|now apply IH].
  apply VarSplitRange_fold_mono. unfold Grow.VarSplitRange_step.
  destruct (covariates idx f <? m)%float eqn:E; simpl.
  - apply ltb_irrefl.
  - destruct (M <? covariates idx f)%float; exact E.
Qed.

Lemma VarSplitRange_fold_members (covariates : Grow.Matrix) (f : Z)
  (l : list Z) :
  forall (acc : double * double),
    let r := fold_left (Grow.VarSplitRange_step covariates f) l acc in
    (fst r = fst acc \/ In (fst r) (map (fun idx => covariates idx f) l)) /\
    (snd r = snd acc \/ In (snd r) (map (fun idx => covariates idx f) l)).
Proof.
  cbv zeta. induction l as [|idx l IH]; intros [m M];
    [simpl; auto|cbn [fold_left map In]].
  set (acc' := Grow.VarSplitRange_step covariates f (m, M) idx) in *.
  cbn [fst snd].
  assert ((fst (Grow.VarSplitRange_step covariates f (m, M) idx) = m \/
           fst (Grow.VarSplitRange_step covariates f (m, M) idx) =
           covariates idx f) /\
          (snd (Grow.VarSplitRange_step covariates f (m, M) idx) = M \/
           snd (Grow.VarSplitRange_step covariates f (m, M) idx) =
           covariates idx f)) as [Hf Hs].
  { unfold Grow.VarSplitRange_step.
    destruct (covariates idx f <? m)%float;
      [|destruct (M <? covariates idx f)%float]; simpl; auto. }
  fold acc' in Hf, Hs.
  destruct (IH acc') as [[H1|H1] [H2|H2]];
    destruct Hf as [Hf|Hf]; destruct Hs as [Hs|Hs];
    split; try (left; congruence); try (right; left; congruence);
    right; right; assumption.
Qed.

(** X6.  Whatever the order of the observations, the [var_min] that
    [VarSplitRange] returns is a lower bound of the leaf: no feature value of
    the leaf is below it.  Each returned bound is one of the values of the
    leaf or still its initial value ([DBL_MAX] for [var_min], the smallest
    positive normal double for [var_max]). *)
Theorem VarSplitRange_var_min_is_lower_bound (covariates : Grow.Matrix)
  (node_tracker : Tracker.UnsortedNodeSampleTracker)
  (leaf_split feature_split tree_num : Z) (var_min var_max v : double) :
  Grow.VarSplitRange covariates node_tracker leaf_split feature_split
                     tree_num = Some (var_min, var_max) ->
  In v (Grow.leaf_values covariates node_tracker leaf_split feature_split
                         tree_num) ->
  (v <? var_min)%float = false /\
  (var_min = DBL_MAX \/
   In var_min (Grow.leaf_values covariates node_tracker leaf_split
                                feature_split tree_num)) /\
  (var_max = DBL_MIN \/
   In var_max (Grow.leaf_values covariates node_tracker leaf_split
                                feature_split tree_num)).
Proof.
  unfold Grow.VarSplitRange, Grow.leaf_values.
  destruct (Tracker.GetFeaturePartition node_tracker tree_num) as [p|];
    [|discriminate].
  intros [= Hr] Hin.
  pose proof (VarSplitRange_fold_bound covariates feature_split
                (Tracker.node_range p leaf_split) (DBL_MAX, DBL_MIN) v Hin)
    as Hb.
  pose proof (VarSplitRange_fold_members covariates feature_split
                (Tracker.node_range p leaf_split) (DBL_MAX, DBL_MIN))
    as [Hm1 Hm2].
  cbv zeta in Hm1, Hm2. rewrite Hr in Hb, Hm1, Hm2. simpl in *. auto.
Qed.

(** The leaf with the values 3, 2, 1 and the value 2. *)
Lemma VarSplitRange_var_min_is_lower_bound_witness :
  let covariates : Grow.Matrix :=
    fun idx _ => nth (Z.to_nat idx) [3; 2; 1]%float 0%float in
  let node_tracker : Tracker.UnsortedNodeSampleTracker :=
    [ {| Tracker.indices_ := [0; 1; 2];
         Tracker.node_begin_ := [0];
         Tracker.node_length_ := [3] |} ] in
  (2 <? 1)%float = false /\
  (1%float = DBL_MAX \/
   In 1%float (Grow.leaf_values covariates node_tracker 0 0 0)) /\
  (DBL_MIN = DBL_MIN \/
   In DBL_MIN (Grow.leaf_values covariates node_tracker 0 0 0)).
Proof.
  cbv zeta.
  apply (VarSplitRange_var_min_is_lower_bound
           (fun idx _ => nth (Z.to_nat idx) [3; 2; 1]%float 0%float)
           [ {| Tracker.indices_ := [0; 1; 2];
                Tracker.node_begin_ := [0];
                Tracker.node_length_ := [3] |} ] 0 0 0
           1%float DBL_MIN 2%float).
  - vm_compute; reflexivity.
  - vm_compute. auto.
Defined.

(** ** NodeNonConstant and NodesNonConstantAfterSplit *)

Lemma NodeNonConstant_fold (covariates : Grow.Matrix) (j : Z) (l : list Z) :
  (forall idx, In idx l -> (DBL_MAX <? covariates idx j)%float = false) ->
  forall var_max,
    (DBL_MAX <? var_max)%float = false ->
    exists var_max',
      fold_left (Prune.NodeNonConstant_step covariates j) l
                (var_max, DBL_MAX) = (var_max', DBL_MAX) /\
      (DBL_MAX <? var_max')%float = false.
Proof.
  induction l as [|idx l IH]; intros Hl var_max Hmax; cbn [fold_left].
  - eauto.
  - assert ((DBL_MAX <? covariates idx j)%float = false) as Hidx
      by (apply Hl; simpl; auto).
    assert (exists v,
               Prune.NodeNonConstant_step covariates j (var_max, DBL_MAX) idx
               = (v, DBL_MAX) /\ (DBL_MAX <? v)%float = false)
      as (v & -> & Hv).
    { unfold Prune.NodeNonConstant_step.
      destruct (var_max <? covariates idx j)%float;
        [|destruct (covariates idx j <? DBL_MAX)%float]; eauto. }
    apply IH; auto. intros; apply Hl; simpl; auto.
Qed.

(** X7.  [NodeNonConstant] never assigns [var_min], which stays at
    [DBL_MAX]; so on a node none of whose feature values is above [DBL_MAX]
    (none is +infinity) it answers [false], also when the node holds
    different values of a feature. *)
Theorem NodeNonConstant_is_false (covariates : Grow.Matrix) (p : Z)
  (node_tracker : Tracker.UnsortedNodeSampleTracker)
  (node_id tree_num : Z) (part : Tracker.FeatureUnsortedPartition) :
  Tracker.GetFeaturePartition node_tracker tree_num = Some part ->
  (forall idx j, In idx (Tracker.node_range part node_id) ->
                 (DBL_MAX <? covariates idx j)%float = false) ->
  Prune.NodeNonConstant covariates p node_tracker node_id tree_num =
  Some false.
Proof.
  intros Hpart Hfin. unfold Prune.NodeNonConstant. rewrite Hpart. f_equal.
  destruct (existsb _ _) eqn:E; [|reflexivity].
  apply existsb_exists in E. destruct E as (j & _ & Hj).
  unfold Prune.NodeNonConstant_feature in Hj.
  destruct (NodeNonConstant_fold covariates j
              (Tracker.node_range part node_id)
              (fun idx H => Hfin idx j H) DBL_MIN eq_refl)
    as (var_max' & Hfold & Hmax).
  destruct (fold_left _ _ _) as [vm vn] eqn:Ef in Hj.
  assert ((vm, vn) = (var_max', DBL_MAX)) as [= -> ->]
    by (rewrite <- Ef; exact Hfold).
  congruence.
Qed.

(** A node with the two values 1 and 5 of its single feature. *)
Lemma NodeNonConstant_is_false_witness :
  Prune.NodeNonConstant
    (fun idx _ => nth (Z.to_nat idx) [1; 5]%float 0%float) 1
    [ {| Tracker.indices_ := [0; 1];
         Tracker.node_begin_ := [0];
         Tracker.node_length_ := [2] |} ] 0 0 = Some false.
Proof.
  apply (NodeNonConstant_is_false
           (fun idx _ => nth (Z.to_nat idx) [1; 5]%float 0%float) 1
           [ {| Tracker.indices_ := [0; 1];
                Tracker.node_begin_ := [0];
                Tracker.node_length_ := [2] |} ] 0 0
           {| Tracker.indices_ := [0; 1];
              Tracker.node_begin_ := [0];
              Tracker.node_length_ := [2] |}).
  - reflexivity.
  - intros idx j Hin. vm_compute in Hin.
    destruct Hin as [<-|[<-|[]]]; vm_compute; reflexivity.
Defined.

Section OneSidedSplit.

Variable SplitTrueNumeric : double -> double -> bool.

Lemma AfterSplit_fold_right_untouched (covariates : Grow.Matrix)
  (feature_split : Z) (split_value : double) (j : Z) (l : list Z) :
  (forall idx, In idx l ->
     SplitTrueNumeric (covariates idx feature_split) split_value = true) ->
  forall acc,
    Prune.var_max_right
      (fold_left (Prune.AfterSplit_step SplitTrueNumeric covariates
                    feature_split split_value j) l acc) =
    Prune.var_max_right acc /\
    Prune.var_min_right
      (fold_left (Prune.AfterSplit_step SplitTrueNumeric covariates
                    feature_split split_value j) l acc) =
    Prune.var_min_right acc.
Proof.
  induction l as [|idx l IH]; intros Hl acc; simpl; auto.
  destruct (IH (fun i H => Hl i (or_intror H))
               (Prune.AfterSplit_step SplitTrueNumeric covariates
                  feature_split split_value j acc idx)) as [H1 H2].
  rewrite H1, H2. unfold Prune.AfterSplit_step.
  rewrite (Hl idx (or_introl eq_refl)).
  destruct (_ <? _)%float; [|destruct (_ <? _)%float]; simpl; auto.
Qed.

Lemma AfterSplit_fold_left_untouched (covariates : Grow.Matrix)
  (feature_split : Z) (split_value : double) (j : Z) (l : list Z) :
  (forall idx, In idx l ->
     SplitTrueNumeric (covariates idx feature_split) split_value = false) ->
  forall acc,
    Prune.var_max_left
      (fold_left (Prune.AfterSplit_step SplitTrueNumeric covariates
                    feature_split split_value j) l acc) =
    Prune.var_max_left acc /\
    Prune.var_min_left
      (fold_left (Prune.AfterSplit_step SplitTrueNumeric covariates
                    feature_split split_value j) l acc) =
    Prune.var_min_left acc.
Proof.
  induction l as [|idx l IH]; intros Hl acc; simpl; auto.
  destruct (IH (fun i H => Hl i (or_intror H))
               (Prune.AfterSplit_step SplitTrueNumeric covariates
                  feature_split split_value j acc idx)) as [H1 H2].
  rewrite H1, H2. unfold Prune.AfterSplit_step.
  rewrite (Hl idx (or_introl eq_refl)).
  destruct (_ <? _)%float; [|destruct (_ <? _)%float]; simpl; auto.
Qed.

(** X8.  When the proposed split sends every observation of the leaf to the
    same child (all to the left, or all to the right), the numeric
    [NodesNonConstantAfterSplit] answers [false]: the accumulators of the
    empty child keep their initial values, for which the test
    [var_max > var_min] fails. *)
Theorem NodesNonConstantAfterSplit_one_sided (covariates : Grow.Matrix)
  (p : Z) (node_tracker : Tracker.UnsortedNodeSampleTracker)
  (leaf_split feature_split : Z) (split_value : double) (tree_num : Z)
  (part : Tracker.FeatureUnsortedPartition) (side : bool) :
  Tracker.GetFeaturePartition node_tracker tree_num = Some part ->
  (forall idx, In idx (Tracker.node_range part leaf_split) ->
     SplitTrueNumeric (covariates idx feature_split) split_value = side) ->
  Prune.NodesNonConstantAfterSplit SplitTrueNumeric covariates p
    node_tracker leaf_split feature_split split_value tree_num = Some false.
Proof.
  intros Hpart Hside. unfold Prune.NodesNonConstantAfterSplit.
  rewrite Hpart. f_equal.
  destruct (existsb _ _) eqn:E; [|reflexivity].
  apply existsb_exists in E. destruct E as (j & _ & Hj).
  unfold Prune.both_sides_vary, Prune.AfterSplit_ranges in Hj.
  apply andb_prop in Hj. destruct Hj as [HL HR]. destruct side.
  - destruct (AfterSplit_fold_right_untouched covariates feature_split
                split_value j (Tracker.node_range part leaf_split) Hside
                {| Prune.var_max_left := DBL_MIN;
                   Prune.var_min_left := DBL_MAX;
                   Prune.var_max_right := DBL_MIN;
                   Prune.var_min_right := DBL_MAX |}) as [H1 H2].
    rewrite H1, H2 in HR. vm_compute in HR. discriminate.
  - destruct (AfterSplit_fold_left_untouched covariates feature_split
                split_value j (Tracker.node_range part leaf_split) Hside
                {| Prune.var_max_left := DBL_MIN;
                   Prune.var_min_left := DBL_MAX;
                   Prune.var_max_right := DBL_MIN;
                   Prune.var_min_right := DBL_MAX |}) as [H1 H2].
    rewrite H1, H2 in HL. vm_compute in HL. discriminate.
Qed.

End OneSidedSplit.

(** The values 1, 5 of the split feature and the threshold 9, with
    [x <= threshold] as the split rule: both observations go left. *)
Lemma NodesNonConstantAfterSplit_one_sided_witness :
  Prune.NodesNonConstantAfterSplit (fun x c => (x <=? c)%float)
    (fun idx _ => nth (Z.to_nat idx) [1; 5]%float 0%float) 1
    [ {| Tracker.indices_ := [0; 1];
         Tracker.node_begin_ := [0];
         Tracker.node_length_ := [2] |} ] 0 0 9%float 0 = Some false.
Proof.
  apply (NodesNonConstantAfterSplit_one_sided (fun x c => (x <=? c)%float)
           (fun idx _ => nth (Z.to_nat idx) [1; 5]%float 0%float) 1
           [ {| Tracker.indices_ := [0; 1];
                Tracker.node_begin_ := [0];
                Tracker.node_length_ := [2] |} ] 0 0 9%float 0
           {| Tracker.indices_ := [0; 1];
              Tracker.node_begin_ := [0];
              Tracker.node_length_ := [2] |} true).
  - reflexivity.
  - intros idx Hin. vm_compute in Hin.
    destruct Hin as [<-|[<-|[]]]; vm_compute; reflexivity.
Defined.

(** ** Grow and prune moves on trees with more than two leaves *)

Lemma add_ninf (x y : double) :
  Prim2SF y = S754_infinity true -> nan_or_ninf (x + y)%float.
Proof.
  intros Hy. unfold nan_or_ninf. rewrite add_spec, Hy.
  destruct (Prim2SF x) as [s|s| |s m e]; try destruct s; simpl; auto.
Qed.

Lemma nan_or_ninf_add (x y : double) :
  nan_or_ninf x -> nan_or_ninf (x + y)%float.
Proof.
  unfold nan_or_ninf. rewrite add_spec. intros [-> | ->];
    destruct (Prim2SF y) as [s|s| |s m e]; try destruct s; simpl; auto.
Qed.

Lemma nan_or_ninf_sub (x y : double) :
  nan_or_ninf x -> nan_or_ninf (x - y)%float.
Proof.
  unfold nan_or_ninf. rewrite sub_spec. intros [-> | ->];
    destruct (Prim2SF y) as [s|s| |s m e]; try destruct s; simpl; auto.
Qed.

Lemma nan_or_ninf_sub_ninf (x y : double) :
  nan_or_ninf x -> Prim2SF y = S754_infinity true ->
  Prim2SF (x - y)%float = S754_nan.
Proof.
  unfold nan_or_ninf. rewrite sub_spec. intros [-> | ->] ->; reflexivity.
Qed.

Lemma nan_add (x y : double) :
  Prim2SF x = S754_nan -> Prim2SF (x + y)%float = S754_nan.
Proof. rewrite add_spec. intros ->. reflexivity. Qed.

Lemma nan_sub (x y : double) :
  Prim2SF x = S754_nan -> Prim2SF (x - y)%float = S754_nan.
Proof. rewrite sub_spec. intros ->. reflexivity. Qed.

(** No double is [<=] a NaN, and a NaN is above no double. *)
Lemma leb_nan (x y : double) :
  Prim2SF y = S754_nan -> (x <=? y)%float = false.
Proof.
  intros Hy. rewrite leb_spec, Hy.
  destruct (Prim2SF x) as [s|s| |s m e]; reflexivity.
Qed.

Lemma ltb_nan (x y : double) :
  Prim2SF y = S754_nan -> (x <? y)%float = false.
Proof.
  intros Hy. rewrite ltb_spec, Hy.
  destruct (Prim2SF x) as [s|s| |s m e]; reflexivity.
Qed.

(** Only minus infinity is [<=] minus infinity. *)
Lemma leb_ninf (x y : double) :
  Prim2SF y = S754_infinity true ->
  (neg_infinity <? x)%float = true -> (x <=? y)%float = false.
Proof.
  intros Hy. rewrite leb_spec, ltb_spec, Hy.
  change (Prim2SF neg_infinity) with (S754_infinity true).
  destruct (Prim2SF x) as [s|s| |s m e]; try destruct s; sf_cases.
Qed.

Lemma ltb_zero_ninf (y : double) :
  Prim2SF y = S754_infinity true -> (0 <? y)%float = false.
Proof.
  intros Hy. rewrite ltb_spec, Hy. reflexivity.
Qed.

Lemma p_leaf_prune_truncates (num_leaves : Z) :
  3 <= num_leaves -> Prune.p_leaf num_leaves = 0%float.
Proof.
  intros Hn. unfold Prune.p_leaf.
  rewrite Z.quot_small by lia. apply double_of_int_0.
Qed.

Section StuckMoves.

Variable log : double -> double.

(** [std::log(0.0)] is minus infinity. *)
Hypothesis log_zero : Prim2SF (log 0%float) = S754_infinity true.

(** From two leaves on, the log-ratio of a grow proposal is NaN: it adds
    [log(0)] for [p_leaf_parent] and subtracts [log(0)] for [p_leaf]. *)
Lemma grow_log_mh_ratio_nan
  (pg pgl pgr prob_prune_new prob_grow_old no_split split : double) :
  Prim2SF (Grow.log_mh_ratio log pg pgl pgr prob_prune_new 0%float
             prob_grow_old 0%float no_split split) = S754_nan.
Proof.
  unfold Grow.log_mh_ratio.
  apply nan_sub, nan_add, nan_or_ninf_sub_ninf; [|exact log_zero].
  apply nan_or_ninf_sub, add_ninf, log_zero.
Qed.

(** With three leaves or more, the log-ratio of a prune proposal is NaN or
    minus infinity: it adds [log(0)] for [p_leaf]. *)
Lemma prune_log_mh_ratio_stuck
  (pg pgl pgr prob_prune_old prob_grow_new p_leaf_parent no_split split
   : double) :
  nan_or_ninf (Prune.log_mh_ratio log pg pgl pgr prob_prune_old 0%float
                 prob_grow_new p_leaf_parent no_split split).
Proof.
  unfold Prune.log_mh_ratio.
  apply nan_or_ninf_sub, nan_or_ninf_add, nan_or_ninf_sub, nan_or_ninf_sub,
    add_ninf, log_zero.
Qed.

Variable Tree : Type.
Variable ExpandNode :
  Tree -> Z -> Z -> double -> bool -> double -> double -> Tree.
Variable ChangeToLeaf : Tree -> Z -> double -> Tree.
Variables LeftChild RightChild : Tree -> Z -> Z.
Variable GetLeaves : Tree -> list Z.
Variables NumLeaves NumLeafParents : Tree -> Z.
Variable PartitionNode :
  Tracker.FeatureUnsortedPartition -> Grow.Matrix -> Z -> Z -> Z -> Z ->
  double -> Tracker.FeatureUnsortedPartition.
Variable PruneNodeToLeaf :
  Tracker.FeatureUnsortedPartition -> Z -> Tracker.FeatureUnsortedPartition.
Variable UpdateNodeMapping :
  Tracker.FeatureUnsortedPartition -> Z -> Z -> Mapper.SampleNodeMapper ->
  Mapper.SampleNodeMapper.

(** X9.  On a tree with at least two leaves (and so at least one leaf
    parent) a grow proposal is never accepted, whatever the likelihoods and
    the uniform draw: the [int] divisions make both proposal probabilities
    0, the log-ratio is [... + log(0) ... - log(0) ...], a NaN, and the
    accept test fails.  The tree, the tracker and the map stay as they
    are. *)
Theorem GrowMCMC_rejects_beyond_root (covariates : Grow.Matrix)
  (s : Grow.Model Tree) (q : Grow.Proposal) (prob_grow_old : double)
  (tree_num : Z) (u : double) :
  2 <= NumLeaves (Grow.tree Tree s) ->
  1 <= NumLeafParents (Grow.tree Tree s) ->
  Grow.GrowMCMC log Tree ExpandNode LeftChild RightChild GetLeaves NumLeaves
    NumLeafParents PartitionNode UpdateNodeMapping covariates s q
    prob_grow_old tree_num u = s.
Proof.
  intros Hleaves Hparents. unfold Grow.GrowMCMC. cbv zeta.
  unfold Grow.proposal_log_mh_ratio.
  rewrite (p_leaf_truncates _ Hleaves), (p_leaf_parent_truncates _ Hparents).
  unfold Grow.accept, Grow.threshold.
  rewrite (ltb_nan _ _ (grow_log_mh_ratio_nan _ _ _ _ _ _ _)).
  now rewrite (leb_nan _ _ (grow_log_mh_ratio_nan _ _ _ _ _ _ _)).
Qed.

(** X10.  On a tree with at least three leaves a prune proposal is accepted
    only if the logarithm of the uniform draw is minus infinity: the [int]
    division [1/(num_leaves-1)] is 0, the log-ratio contains [log(0)] and is
    minus infinity or NaN.  For every draw whose logarithm is above minus
    infinity the tree, the tracker and the map stay as they are. *)
Theorem PruneMCMC_rejects_beyond_three_leaves
  (s : Grow.Model Tree) (q : Prune.Proposal) (tree_num : Z) (u : double) :
  3 <= NumLeaves (Grow.tree Tree s) ->
  (neg_infinity <? log u)%float = true ->
  Prune.PruneMCMC log Tree ChangeToLeaf GetLeaves NumLeaves NumLeafParents
    PruneNodeToLeaf UpdateNodeMapping s q tree_num u = s.
Proof.
  intros Hleaves Hu. unfold Prune.PruneMCMC. cbv zeta.
  unfold Prune.proposal_log_mh_ratio.
  rewrite (p_leaf_prune_truncates _ Hleaves).
  unfold Prune.accept, Prune.threshold.
  destruct (prune_log_mh_ratio_stuck (Prune.pg q) (Prune.pgl q) (Prune.pgr q)
              (Prune.prob_prune_old q) (Prune.prob_grow_new q)
              (Prune.p_leaf_parent (NumLeafParents (Grow.tree Tree s)))
              (Prune.no_split_log_marginal_likelihood q)
              (Prune.split_log_marginal_likelihood q)) as [Hnan|Hinf].
  - rewrite (ltb_nan _ _ Hnan). now rewrite (leb_nan _ _ Hnan).
  - rewrite (ltb_zero_ninf _ Hinf). now rewrite (leb_ninf _ _ Hinf Hu).
Qed.

End StuckMoves.

(** A tree with the leaves 1 and 2 (expanding leaf [k] replaces it by
    [2k+1] and [2k+2]) and a stand-in for the logarithm that maps 0 to minus
    infinity and [x] to [x - 1] otherwise. *)
Lemma GrowMCMC_rejects_beyond_root_witness :
  let s := {| Grow.tree := [1; 2];
              Grow.node_tracker :=
                [ {| Tracker.indices_ := [0; 1];
                     Tracker.node_begin_ := [0; 0; 1];
                     Tracker.node_length_ := [2; 1; 1] |} ];
              Grow.sample_node_mapper := Mapper.new 1 2 |} in
  Grow.GrowMCMC
    (fun x => if (x =? 0)%float then neg_infinity else (x - 1)%float)
    (list Z)
    (fun t leaf _ _ _ _ _ =>
       [2 * leaf + 1; 2 * leaf + 2] ++ filter (fun k => negb (k =? leaf)) t)
    (fun _ k => 2 * k + 1) (fun _ k => 2 * k + 2) (fun t => t)
    (fun t => Z.of_nat (length t)) (fun t => Z.of_nat (length t) - 1)
    (fun p _ _ _ _ _ _ => p) (fun _ _ _ m => m)
    (fun _ _ => 0%float) s
    {| Grow.leaf_chosen := 1; Grow.var_chosen := 0;
       Grow.split_point_chosen := 0.5%float;
       Grow.pg := 0.5%float; Grow.pgl := 0.25%float;
       Grow.pgr := 0.25%float; Grow.prob_prune_new := 1%float;
       Grow.no_split_log_marginal_likelihood := 0%float;
       Grow.split_log_marginal_likelihood := 0%float |}
    0.5%float 0 0.5%float = s.
Proof.
  cbv zeta.
  apply (GrowMCMC_rejects_beyond_root
           (fun x => if (x =? 0)%float then neg_infinity else (x - 1)%float)
           eq_refl (list Z)).
  - simpl. lia.
  - simpl. lia.
Defined.

(** A tree with the leaves 3, 4 and 2, the same stand-in for the logarithm
    and the draw [u = 0.5]. *)
Lemma PruneMCMC_rejects_beyond_three_leaves_witness :
  let s := {| Grow.tree := [3; 4; 2];
              Grow.node_tracker :=
                [ {| Tracker.indices_ := [0; 1; 2];
                     Tracker.node_begin_ := [0; 0; 2; 0; 1];
                     Tracker.node_length_ := [3; 2; 1; 1; 1] |} ];
              Grow.sample_node_mapper := Mapper.new 1 3 |} in
  Prune.PruneMCMC
    (fun x => if (x =? 0)%float then neg_infinity else (x - 1)%float)
    (list Z)
    (fun t leaf _ =>
       leaf :: filter (fun k => negb ((k =? 2 * leaf + 1) ||
                                      (k =? 2 * leaf + 2))) t)
    (fun t => t) (fun t => Z.of_nat (length t)) (fun _ => 1)
    (fun p _ => p) (fun _ _ _ m => m) s
    {| Prune.leaf_parent_chosen := 1;
       Prune.pg := 0.5%float; Prune.pgl := 0.25%float;
       Prune.pgr := 0.25%float; Prune.prob_grow_new := 0.5%float;
       Prune.prob_prune_old := 1%float;
       Prune.no_split_log_marginal_likelihood := 0%float;
       Prune.split_log_marginal_likelihood := 0%float |}
    0 0.5%float = s.
Proof.
  cbv zeta.
  apply (PruneMCMC_rejects_beyond_three_leaves
           (fun x => if (x =? 0)%float then neg_infinity else (x - 1)%float)
           eq_refl (list Z)).
  - simpl. lia.
  - reflexivity.
Defined.

(** ** The presorted indices of a fresh sorted tracker *)

Lemma insert_perm (comp : Z -> Z -> bool) (x : Z) (l : list Z) :
  Permutation (Presort.insert comp x l) (x :: l).
Proof.
  induction l as [|y l IH]; simpl; auto.
  destruct (comp x y); auto.
  rewrite IH. apply perm_swap.
Qed.

Lemma stable_sort_perm (comp : Z -> Z -> bool) (l : list Z) :
  Permutation (Presort.stable_sort comp l) l.
Proof.
  unfold Presort.stable_sort.
  assert (forall acc,
             Permutation (fold_left (fun s x => Presort.insert comp x s) l acc)
                         (acc ++ l)) as H.
  { induction l as [|x l IH]; intros acc; simpl.
    - now rewrite app_nil_r.
    - rewrite IH, insert_perm. simpl. apply Permutation_middle. }
  apply (H []).
Qed.

Lemma insert_sorted (comp : Z -> Z -> bool) (x : Z) (l : list Z) :
  (forall a b, comp a b = true -> comp b a = false) ->
  Sorted (fun a b => comp b a = false) l ->
  Sorted (fun a b => comp b a = false) (Presort.insert comp x l).
Proof.
  intros Hasym Hl. induction Hl as [|y l Hl IH Hhd]; simpl.
  - repeat constructor.
  - destruct (comp x y) eqn:E.
    + repeat constructor; auto.
    + constructor; auto.
      destruct Hhd as [|z l' Hz]; simpl.
      * repeat constructor. exact E.
      * destruct (comp x z); constructor; auto.
Qed.

Lemma stable_sort_sorted (comp : Z -> Z -> bool) (l : list Z) :
  (forall a b, comp a b = true -> comp b a = false) ->
  Sorted (fun a b => comp b a = false) (Presort.stable_sort comp l).
Proof.
  intros Hasym. unfold Presort.stable_sort.
  assert (forall acc,
             Sorted (fun a b => comp b a = false) acc ->
             Sorted (fun a b => comp b a = false)
                    (fold_left (fun s x => Presort.insert comp x s) l acc))
    as H.
  { induction l as [|x l IH]; intros acc Hacc; simpl; auto.
    apply IH. now apply insert_sorted. }
  apply H. constructor.
Qed.

Lemma comp_op_asym (d : Data.Dataset) (f a b : Z) :
  Presort.comp_op d f a b = true -> Presort.comp_op d f b a = false.
Proof.
  unfold Presort.comp_op.
  destruct (Data.CovariateValue d a f), (Data.CovariateValue d b f);
    try discriminate; auto.
  apply ltb_asym.
Qed.

Lemma Sorted_adjacent {A : Type} (R : A -> A -> Prop) (l : list A) :
  Sorted R l ->
  forall (i : nat) (a b : A),
    nth_error l i = Some a -> nth_error l (S i) = Some b -> R a b.
Proof.
  induction 1 as [|x l Hl IH Hhd]; intros i a b Ha Hb.
  - destruct i; discriminate.
  - destruct i as [|i]; simpl in *.
    + injection Ha as <-. destruct Hhd as [|y l' Hy]; simpl in Hb.
      * discriminate.
      * now injection Hb as <-.
    + eapply IH; eauto.
Qed.

Lemma vec_at_map_upto {A : Type} (g : Z -> A) (k i : Z) :
  0 <= i < k -> vec_at (map g (upto k)) i = Some (g i).
Proof.
  intros Hi. unfold vec_at, upto. destruct (Z.ltb_spec i 0); [lia|].
  rewrite map_map.
  rewrite nth_error_map.
  assert (nth_error (seq 0 (Z.to_nat k)) (Z.to_nat i) = Some (Z.to_nat i))
    as ->.
  { rewrite nth_error_nth' with (d := O) by (rewrite length_seq; lia).
    rewrite seq_nth by lia. reflexivity. }
  simpl. now rewrite Z2Nat.id.
Qed.

(** X11.  In a sorted tracker freshly built from the presort container of a
    dataset, for every feature of the dataset: the root node spans
    [0 .. num_observations), the sort indices of the feature are a
    permutation of the observations [0 .. num_observations-1], and any two
    consecutive sort indices are in order: the feature value of the second
    is not below the feature value of the first. *)
Theorem fresh_sorted_tracker (d : Data.Dataset) (f j a b : Z) :
  0 <= f < Presort.NumCovariates d ->
  let t := Presort.new_tracker (Presort.new_container d) d in
  Presort.TrackerNodeBegin t 0 f = Some 0 /\
  Presort.TrackerNodeEnd t 0 f = Some (Presort.NumObservations d) /\
  Permutation (Presort.tracker_sort_indices t f)
              (upto (Presort.NumObservations d)) /\
  (0 <= j ->
   Presort.TrackerSortIndex t j f = Some a ->
   Presort.TrackerSortIndex t (j + 1) f = Some b ->
   Presort.in_order d f a b).
Proof.
  intros Hf. cbv zeta.
  unfold Presort.TrackerNodeBegin, Presort.TrackerNodeEnd,
    Presort.TrackerSortIndex, Presort.tracker_sort_indices,
    Presort.new_tracker.
  rewrite vec_at_map_upto by exact Hf.
  unfold Presort.GetFeaturePresort, Presort.new_container.
  rewrite vec_at_map_upto by exact Hf.
  unfold Presort.new_partition, Presort.NodeBegin, Presort.NodeEnd,
    Presort.SortIndex, Presort.new_root, Presort.ArgsortRoot; simpl.
  repeat split.
  - apply stable_sort_perm.
  - intros Hj Ha Hb. unfold vec_at in Ha, Hb.
    destruct (Z.ltb_spec j 0); [lia|].
    destruct (Z.ltb_spec (j + 1) 0); [lia|].
    replace (Z.to_nat (j + 1)) with (S (Z.to_nat j)) in Hb by lia.
    exact (Sorted_adjacent _ _
             (stable_sort_sorted (Presort.comp_op d f) _ (comp_op_asym d f))
             _ _ _ Ha Hb).
Qed.

(** Three observations of one feature with the values 3, 1, 2: the sort
    indices are 1, 2, 0; the consecutive pair at positions 1 and 2 is
    (2, 0). *)
Lemma fresh_sorted_tracker_witness :
  let d := {| Data.covariates_ := [3; 1; 2]%float; Data.outcome_ := [];
              Data.residuals_ := []; Data.num_observations_ := 3;
              Data.num_covariates_ := 1; Data.num_outcome_ := 1 |} in
  let t := Presort.new_tracker (Presort.new_container d) d in
  Presort.TrackerNodeBegin t 0 0 = Some 0 /\
  Presort.TrackerNodeEnd t 0 0 = Some 3 /\
  Permutation (Presort.tracker_sort_indices t 0) (upto 3) /\
  (0 <= 1 ->
   Presort.TrackerSortIndex t 1 0 = Some 2 ->
   Presort.TrackerSortIndex t (1 + 1) 0 = Some 0 ->
   Presort.in_order d 0 2 0).
Proof.
  apply (fresh_sorted_tracker
           {| Data.covariates_ := [3; 1; 2]%float; Data.outcome_ := [];
              Data.residuals_ := []; Data.num_observations_ := 3;
              Data.num_covariates_ := 1; Data.num_outcome_ := 1 |} 0 1 2 0).
  simpl. lia.
Defined.

Example ArgsortRoot_example :
  Presort.ArgsortRoot
    {| Data.covariates_ := [3; 1; 2; 1]%float; Data.outcome_ := [];
       Data.residuals_ := []; Data.num_observations_ := 4;
       Data.num_covariates_ := 1; Data.num_outcome_ := 1 |} 0 =
  [1; 3; 2; 0].
Proof. vm_compute; reflexivity. Qed.

(** ** Leaf posteriors *)

Section LeafPosteriors.

Local Open Scope R_scope.

Lemma div_le_of_le_mult (x y d : R) : 0 < d -> x <= y * d -> x / d <= y.
Proof.
  intros Hd H. apply (Rmult_le_reg_r d); [exact Hd|].
  unfold Rdiv. rewrite Rmult_assoc, Rinv_l by lra. lra.
Qed.

(** X12.  For a leaf scale [tau > 0], a variance [sigma^2 > 0] and a leaf
    with [n >= 0] observations, the posterior variance of the constant leaf
    is positive and at most [tau], and [n] times it is at most [sigma^2];
    the posterior mean is shrunk towards 0: [n] times its absolute value is
    at most the absolute value of the residual sum. *)
Theorem constant_leaf_posterior_bounds (tau global_variance : R)
  (S : Leaf.LeafConstantGaussianSuffStat) :
  0 < tau ->
  0 < global_variance ->
  (0 <= Leaf.n S)%Z ->
  0 < Posterior.PosteriorVariance tau S global_variance <= tau /\
  Posterior.PosteriorVariance tau S global_variance * IZR (Leaf.n S) <=
  global_variance /\
  Rabs (Posterior.PosteriorMean tau S global_variance) * IZR (Leaf.n S) <=
  Rabs (Leaf.sum_y S).
Proof.
  intros Htau Hvar Hn. apply IZR_le in Hn.
  unfold Posterior.PosteriorVariance, Posterior.PosteriorMean. cbv zeta.
  set (k := IZR (Leaf.n S)) in *.
  assert (0 < global_variance + tau * k) as Hden by nra.
  repeat split.
  - apply Rdiv_lt_0_compat; nra.
  - apply div_le_of_le_mult; [lra|nra].
  - unfold Rdiv. rewrite Rmult_assoc, (Rmult_comm (/ _)), <- Rmult_assoc.
    apply div_le_of_le_mult; [lra|nra].
  - unfold Rdiv. rewrite Rabs_mult, (Rabs_pos_eq (/ _)).
    2:{ left. now apply Rinv_0_lt_compat. }
    rewrite Rabs_mult, (Rabs_pos_eq tau) by lra.
    rewrite Rmult_assoc, (Rmult_comm (/ _)), <- Rmult_assoc.
    apply div_le_of_le_mult; [lra|].
    pose proof (Rabs_pos (Leaf.sum_y S)). nra.
Qed.

Lemma constant_leaf_posterior_bounds_witness :
  let S := {| Leaf.n := 3; Leaf.sum_y := 6; Leaf.sum_y_squared := 14 |} in
  0 < Posterior.PosteriorVariance 1 S 4 <= 1 /\
  Posterior.PosteriorVariance 1 S 4 * IZR (Leaf.n S) <= 4 /\
  Rabs (Posterior.PosteriorMean 1 S 4) * IZR (Leaf.n S) <=
  Rabs (Leaf.sum_y S).
Proof.
  apply (constant_leaf_posterior_bounds 1 4
           {| Leaf.n := 3; Leaf.sum_y := 6; Leaf.sum_y_squared := 14 |});
    simpl; try lra; lia.
Defined.

(** X13.  For the univariate-regression leaf with [tau > 0],
    [sigma^2 > 0] and a sum of squared basis values that is not negative,
    the posterior variance is positive and at most [tau], and the sum of
    squares times it is at most [sigma^2]. *)
Theorem regression_leaf_posterior_bounds (tau global_variance : R)
  (S : Posterior.LeafUnivariateRegressionGaussianSuffStat) :
  0 < tau ->
  0 < global_variance ->
  0 <= Posterior.sum_x_squared S ->
  0 < Posterior.RegressionPosteriorVariance tau S global_variance <= tau /\
  Posterior.RegressionPosteriorVariance tau S global_variance *
  Posterior.sum_x_squared S <= global_variance /\
  Rabs (Posterior.RegressionPosteriorMean tau S global_variance) *
  Posterior.sum_x_squared S <= Rabs (Posterior.sum_yx S).
Proof.
  intros Htau Hvar Hn.
  unfold Posterior.RegressionPosteriorVariance,
    Posterior.RegressionPosteriorMean. cbv zeta.
  set (k := Posterior.sum_x_squared S) in *.
  assert (0 < global_variance + tau * k) as Hden by nra.
  repeat split.
  - apply Rdiv_lt_0_compat; nra.
  - apply div_le_of_le_mult; [lra|nra].
  - unfold Rdiv. rewrite Rmult_assoc, (Rmult_comm (/ _)), <- Rmult_assoc.
    apply div_le_of_le_mult; [lra|nra].
  - unfold Rdiv. rewrite Rabs_mult, (Rabs_pos_eq (/ _)).
    2:{ left. now apply Rinv_0_lt_compat. }
    rewrite Rabs_mult, (Rabs_pos_eq tau) by lra.
    rewrite Rmult_assoc, (Rmult_comm (/ _)), <- Rmult_assoc.
    apply div_le_of_le_mult; [lra|].
    pose proof (Rabs_pos (Posterior.sum_yx S)). nra.
Qed.

Lemma regression_leaf_posterior_bounds_witness :
  let S := {| Posterior.sum_yx := 5; Posterior.sum_x_squared := 2 |} in
  0 < Posterior.RegressionPosteriorVariance 1 S 4 <= 1 /\
  Posterior.RegressionPosteriorVariance 1 S 4 * Posterior.sum_x_squared S
  <= 4 /\
  Rabs (Posterior.RegressionPosteriorMean 1 S 4) * Posterior.sum_x_squared S
  <= Rabs (Posterior.sum_yx S).
Proof.
  apply (regression_leaf_posterior_bounds 1 4
           {| Posterior.sum_yx := 5; Posterior.sum_x_squared := 2 |});
    simpl; lra.
Defined.

(** ** Variance draws *)

Lemma sum_sq_resid_from (residual : list R) :
  forall acc, acc <= fold_left (fun a r => a + r ^ 2) residual acc.
Proof.
  induction residual as [|r l IH]; intros acc; simpl; [lra|].
  eapply Rle_trans; [|apply IH]. nra.
Qed.

Lemma SumLeafSquared_nonneg (forest : Variance.TreeEnsemble) :
  0 <= Variance.SumLeafSquared forest.
Proof.
  unfold Variance.SumLeafSquared.
  induction (concat forest) as [|mu l IH]; simpl; [lra|nra].
Qed.

(** X14.  With an inverse-gamma prior of positive shape [a] and scale [b],
    the global variance sampler hands the gamma distribution a positive
    shape and a positive scale, whatever the residuals: the posterior scale
    is at least [a b / 2].  Its draw, the reciprocal of a positive gamma
    draw, is a positive variance. *)
Theorem global_variance_draw_positive (gamma_draw : R -> R -> R)
  (residual : list R) (prior : Variance.IGVariancePrior) :
  0 < Variance.GetShape prior ->
  0 < Variance.GetScale prior ->
  Posterior.positive_draws gamma_draw ->
  0 < Variance.GlobalPosteriorShape residual prior /\
  Variance.GetShape prior * Variance.GetScale prior / 2 <=
  Variance.GlobalPosteriorScale residual prior /\
  0 < 1 / Variance.GlobalPosteriorScale residual prior /\
  0 < Posterior.GlobalSampleVarianceParameter gamma_draw residual prior.
Proof.
  intros Ha Hb Hdraw.
  assert (0 < Variance.GlobalPosteriorShape residual prior) as Hshape.
  { unfold Variance.GlobalPosteriorShape. cbv zeta.
    pose proof (IZR_le 0 _ (Nat2Z.is_nonneg (length residual))). lra. }
  assert (Variance.GetShape prior * Variance.GetScale prior / 2 <=
          Variance.GlobalPosteriorScale residual prior) as Hscale.
  { unfold Variance.GlobalPosteriorScale, Variance.sum_sq_resid. cbv zeta.
    pose proof (sum_sq_resid_from residual 0). lra. }
  assert (0 < Variance.GlobalPosteriorScale residual prior) as Hpos by nra.
  assert (0 < 1 / Variance.GlobalPosteriorScale residual prior) as Hinv.
  { apply Rdiv_lt_0_compat; lra. }
  repeat split; auto.
  unfold Posterior.GlobalSampleVarianceParameter. cbv zeta.
  apply Rdiv_lt_0_compat; [lra|]. now apply Hdraw.
Qed.

Lemma global_variance_draw_positive_witness :
  let prior := {| Variance.GetShape := 4; Variance.GetScale := 1 |} in
  0 < Variance.GlobalPosteriorShape [1; 2] prior /\
  Variance.GetShape prior * Variance.GetScale prior / 2 <=
  Variance.GlobalPosteriorScale [1; 2] prior /\
  0 < 1 / Variance.GlobalPosteriorScale [1; 2] prior /\
  0 < Posterior.GlobalSampleVarianceParameter (fun k theta => k * theta)
        [1; 2] prior.
Proof.
  apply (global_variance_draw_positive (fun k theta => k * theta) [1; 2]
           {| Variance.GetShape := 4; Variance.GetScale := 1 |}).
  - simpl; lra.
  - simpl; lra.
  - intros k theta Hk Ht. nra.
Defined.

(** X15.  With an inverse-gamma prior of positive shape [a] and scale [b],
    the leaf-scale sampler hands the gamma distribution a positive shape and
    a positive scale, whatever the forest: the posterior scale is at least
    [b / 2].  Its draw, the reciprocal of a positive gamma draw, is
    positive. *)
Theorem leaf_scale_draw_positive (gamma_draw : R -> R -> R)
  (forest : Variance.TreeEnsemble) (prior : Variance.IGVariancePrior) :
  0 < Variance.GetShape prior ->
  0 < Variance.GetScale prior ->
  Posterior.positive_draws gamma_draw ->
  0 < Variance.PosteriorShape forest prior /\
  Variance.GetScale prior / 2 <= Variance.PosteriorScale forest prior /\
  0 < 1 / Variance.PosteriorScale forest prior /\
  0 < Variance.SampleVarianceParameter gamma_draw forest prior.
Proof.
  intros Ha Hb Hdraw.
  assert (0 < Variance.PosteriorShape forest prior) as Hshape.
  { unfold Variance.PosteriorShape, Variance.NumLeaves. cbv zeta.
    pose proof (IZR_le 0 _ (Nat2Z.is_nonneg (length (concat forest)))).
    lra. }
  assert (Variance.GetScale prior / 2 <=
          Variance.PosteriorScale forest prior) as Hscale.
  { unfold Variance.PosteriorScale. cbv zeta.
    pose proof (SumLeafSquared_nonneg forest). lra. }
  assert (0 < Variance.PosteriorScale forest prior) as Hpos by lra.
  assert (0 < 1 / Variance.PosteriorScale forest prior) as Hinv.
  { apply Rdiv_lt_0_compat; lra. }
  repeat split; auto.
  unfold Variance.SampleVarianceParameter. cbv zeta.
  apply Rdiv_lt_0_compat; [lra|]. now apply Hdraw.
Qed.

Lemma leaf_scale_draw_positive_witness :
  let prior := {| Variance.GetShape := 4; Variance.GetScale := 1 |} in
  0 < Variance.PosteriorShape [[1; 2]] prior /\
  Variance.GetScale prior / 2 <= Variance.PosteriorScale [[1; 2]] prior /\
  0 < 1 / Variance.PosteriorScale [[1; 2]] prior /\
  0 < Variance.SampleVarianceParameter (fun k theta => k * theta)
        [[1; 2]] prior.
Proof.
  apply (leaf_scale_draw_positive (fun k theta => k * theta) [[1; 2]]
           {| Variance.GetShape := 4; Variance.GetScale := 1 |}).
  - simpl; lra.
  - simpl; lra.
  - intros k theta Hk Ht. nra.
Defined.

End LeafPosteriors.

(** ** The weights and the rule drawn in grow-from-root *)

Lemma max_element_from_bounds (l : list R) :
  forall m : R,
    exists m' : R,
      Draw.max_element_from (Leaf.Real m) (map Leaf.Real l) = Leaf.Real m' /\
      (m <= m')%R /\
      Forall (fun x => (x <= m')%R) l /\
      (m' = m \/ In m' l).
Proof.
  induction l as [|x l IH]; intros m; cbn [map Draw.max_element_from].
  - exists m. split; [reflexivity|]. split; [lra|]. split; [constructor|].
    now left.
  - cbn [Leaf.ext_lt]. destruct (Rlt_dec m x) as [Hlt|Hge].
    + destruct (IH x) as (m' & E & H1 & H2 & H3). exists m'.
      split; [exact E|]. split; [lra|]. split; [constructor; [lra|exact H2]|].
      right. destruct H3 as [->|H3]; [now left|now right].
    + destruct (IH m) as (m' & E & H1 & H2 & H3). exists m'.
      split; [exact E|]. split; [lra|]. split; [constructor; [lra|exact H2]|].
      destruct H3 as [->|H3]; [now left|right; now right].
Qed.

Lemma weights_in_unit_interval (std_exp : R -> Leaf.ext) (m : R)
  (l : list R) :
  Draw.exp_in_unit_interval std_exp ->
  Forall (fun x => (x <= m)%R) l ->
  exists w : list R,
    map (fun e => Draw.ext_exp std_exp (Leaf.ext_sub e (Leaf.Real m)))
        (map Leaf.Real l) = map Leaf.Real w /\
    length w = length l /\
    Forall (fun y => (0 <= y <= 1)%R) w /\
    (In m l -> In 1%R w).
Proof.
  intros [Hexp0 Hexp] Hall. induction Hall as [|x l Hx Hall IH].
  - exists []. repeat split; [constructor|intros []].
  - destruct IH as (w & Hw & Hlen & Hunit & Hone).
    destruct (Hexp (x - m)%R) as (y & Hy & Hrange); [lra|].
    exists (y :: w). cbn [map Leaf.ext_sub Draw.ext_exp length].
    rewrite Hw, Hy, Hlen. split; [reflexivity|]. split; [reflexivity|].
    split; [constructor; assumption|].
    intros [->|Hin]; [|right; now apply Hone].
    left. rewrite Rminus_diag, Hexp0 in Hy. now injection Hy.
Qed.

Lemma cutpoint_evaluations_nonempty (std_exp : R -> Leaf.ext) (x : R)
  (l : list R) :
  Draw.exp_in_unit_interval std_exp ->
  exists w : list R,
    Draw.cutpoint_evaluations std_exp (map Leaf.Real (x :: l)) =
    Some (map Leaf.Real w) /\
    length w = length (x :: l) /\
    Forall (fun y => (0 <= y <= 1)%R) w /\
    In 1%R w.
Proof.
  intros Hexp. unfold Draw.cutpoint_evaluations.
  cbn [map Draw.max_element].
  destruct (max_element_from_bounds l x) as (m & -> & H1 & H2 & H3).
  destruct (weights_in_unit_interval std_exp m (x :: l) Hexp)
    as (w & Hw & Hlen & Hunit & Hone); [constructor; assumption|].
  exists w. cbn [map] in Hw. rewrite Hw.
  split; [reflexivity|]. split; [exact Hlen|]. split; [exact Hunit|].
  apply Hone. destruct H3 as [->|H3]; [now left|now right].
Qed.

Lemma fold_left_invariant_in {A B : Type} (P : A -> Prop) (f : A -> B -> A)
  (l : list B) :
  (forall a b, In b l -> P a -> P (f a b)) ->
  forall a, P a -> P (fold_left f l a).
Proof.
  induction l as [|b l IH]; intros Hf a Ha; simpl; [exact Ha|].
  apply IH.
  - intros a' b' Hb'. apply Hf. now right.
  - apply Hf; [now left|exact Ha].
Qed.

Lemma vec_at_map_app {A B : Type} (f : A -> B) (l : list A) (y : B)
  (i : Z) (a : A) :
  nth_error l (Z.to_nat i) = Some a -> 0 <= i ->
  vec_at (map f l ++ [y]) i = Some (f a).
Proof.
  intros Hn Hi. unfold vec_at. destruct (Z.ltb_spec i 0); [lia|].
  rewrite nth_error_app1.
  - now rewrite nth_error_map, Hn.
  - rewrite length_map. apply nth_error_Some. congruence.
Qed.

Section SplitDraw.

Local Open Scope R_scope.

Variable residual : Z -> R.
Variable SortIndex : Z -> Z -> Z.
Variables (NumCutpoints : Z -> Z) (BinStartIndex BinLength : Z -> Z -> Z).
Variable feature_types : Z -> Leaf.FeatureType.
Variable SampleGreaterThan : Leaf.LeafConstantGaussianSuffStat -> Z -> bool.
Variables (tau outcome_variance alpha beta : R).
Variables (min_samples_leaf node_depth num_features : Z).

Let cutpoint_step :=
  Leaf.cutpoint_step residual SortIndex BinStartIndex BinLength feature_types
    SampleGreaterThan tau outcome_variance min_samples_leaf.

Let enumerate :=
  Leaf.enumerate residual SortIndex NumCutpoints BinStartIndex BinLength
    feature_types SampleGreaterThan tau outcome_variance min_samples_leaf
    num_features.

Let Cutpoints :=
  Leaf.Cutpoints residual SortIndex NumCutpoints BinStartIndex BinLength
    feature_types SampleGreaterThan tau outcome_variance alpha beta
    min_samples_leaf node_depth num_features.

(** The vectors that the loops build stay aligned, and every entry comes
    from a pair that the loops visit. *)
Let recorded (e : Leaf.Enumeration) : Prop :=
  exists cs,
    Draw.aligned feature_types cs (Leaf.evaluations e) /\
    Forall (Draw.visited NumCutpoints num_features) cs.

Lemma cutpoint_step_recorded (root : Leaf.LeafConstantGaussianSuffStat)
  (j c : Z) (e : Leaf.Enumeration) :
  Draw.visited NumCutpoints num_features (j, c) ->
  recorded e -> recorded (cutpoint_step root j e c).
Proof.
  intros Hv (cs & (H1 & H2 & H3 & H4) & Hcs).
  unfold cutpoint_step, Leaf.cutpoint_step. cbv zeta.
  destruct (_ && _); [|exists cs; repeat split; assumption].
  exists (cs ++ [(j, c)]). split.
  - unfold Draw.aligned. simpl.
    rewrite !length_app, !map_app, H1, H2, H3, H4. simpl. auto.
  - apply Forall_app. split; [exact Hcs|]. constructor; [exact Hv|constructor].
Qed.

Lemma enumerate_recorded (root : Leaf.LeafConstantGaussianSuffStat)
  (count0 : Z) : recorded (enumerate root count0).
Proof.
  unfold enumerate, Leaf.enumerate.
  apply (fold_left_invariant_in recorded).
  - intros e j Hj He. unfold Leaf.feature_step.
    apply (fold_left_invariant_in recorded); [|exact He].
    intros e' c Hc He'. apply cutpoint_step_recorded; [|exact He'].
    apply in_upto in Hj. apply in_upto in Hc. split; simpl; lia.
  - exists []. split; [|constructor]. repeat split.
Qed.

(** Every split evaluation that the loops record is a real number. *)
Let all_real (e : Leaf.Enumeration) : Prop :=
  exists rs,
    Leaf.log_cutpoint_evaluations (Leaf.evaluations e) = map Leaf.Real rs.

Lemma enumerate_all_real (root : Leaf.LeafConstantGaussianSuffStat)
  (count0 : Z) : all_real (enumerate root count0).
Proof.
  unfold enumerate, Leaf.enumerate.
  apply (fold_left_invariant_in all_real); [|now exists []].
  intros e j _ He. unfold Leaf.feature_step.
  apply (fold_left_invariant_in all_real); [|exact He].
  intros e' c _ (rs & Hrs). unfold Leaf.cutpoint_step. cbv zeta.
  destruct (_ && _); [|now exists rs].
  eexists (rs ++ [_]). cbn [Leaf.evaluations Leaf.log_cutpoint_evaluations].
  now rewrite Hrs, map_app.
Qed.

Lemma no_split_entry_real (no_split_log_ml : R) (k : Z) :
  Leaf.tree_prior_in_range alpha beta node_depth ->
  (0 <= k)%Z ->
  exists v,
    Leaf.ext_add (Leaf.Real no_split_log_ml)
      (Leaf.bart_prior_no_split_adj alpha beta node_depth k) = Leaf.Real v.
Proof.
  intros Hprior Hk. unfold Leaf.bart_prior_no_split_adj.
  rewrite (std_log_positive _ (prior_odds_positive _ _ _ Hprior)).
  destruct (Z.eqb_spec k 0) as [|Hne]; [eexists; reflexivity|].
  rewrite std_log_positive by (apply IZR_lt; lia). eexists; reflexivity.
Qed.

(** X16.  For a tree prior with [alpha] in (0, 1) and [beta >= 0], and for
    any [std::exp] that returns 1 at 0 and a number in [0, 1] at an argument
    that is not positive (the 0 of an underflow included): the log
    evaluations that [Cutpoints] returns are never empty, so [max_element]
    is well defined on them, and the weights [exp (log_eval - largest)]
    handed to the discrete distribution are [valid_cutpoint_count + 1]
    numbers, all in [0, 1], and one of them is 1; a weight may be 0. *)
Theorem split_weights_normalised (std_exp : R -> Leaf.ext)
  (node_begin node_end count0 : Z) :
  Leaf.tree_prior_in_range alpha beta node_depth ->
  Draw.exp_in_unit_interval std_exp ->
  let out := Cutpoints node_begin node_end count0 in
  exists w : list R,
    Draw.cutpoint_evaluations std_exp (Leaf.log_cutpoint_evaluations out) =
    Some (map Leaf.Real w) /\
    Z.of_nat (length w) = (Leaf.valid_cutpoint_count out + 1)%Z /\
    Forall (fun y => 0 <= y <= 1) w /\
    In 1 w.
Proof.
  intros Hprior Hexp out.
  set (root := Leaf.root_suff_stat residual SortIndex node_begin node_end).
  pose proof (enumerate_counted residual SortIndex NumCutpoints BinStartIndex
                BinLength feature_types SampleGreaterThan tau outcome_variance
                min_samples_leaf num_features root count0) as Hcount.
  unfold Leaf.counted in Hcount. fold enumerate in Hcount.
  destruct (enumerate_all_real root count0) as (rs & Hrs).
  rewrite Hrs, length_map in Hcount.
  destruct (no_split_entry_real
              (Leaf.NoSplitLogMarginalLikelihood root tau outcome_variance)
              (Leaf.num_cutpoints (enumerate root count0)) Hprior)
    as (v & Hv); [lia|].
  assert (Leaf.log_cutpoint_evaluations out = map Leaf.Real (rs ++ [v]))
    as Hout.
  { unfold out, Cutpoints, Leaf.Cutpoints. cbv zeta.
    cbn [Leaf.log_cutpoint_evaluations]. fold root. fold enumerate.
    now rewrite Hrs, Hv, map_app. }
  assert (Leaf.valid_cutpoint_count out =
          Leaf.num_cutpoints (enumerate root count0)) as Hk by reflexivity.
  rewrite Hout, Hk, Hcount.
  destruct (rs ++ [v]) as [|x l] eqn:El.
  { now destruct rs. }
  destruct (cutpoint_evaluations_nonempty std_exp x l Hexp)
    as (w & Hw & Hlen & Hall & H1).
  exists w. split; [exact Hw|]. split; [|split; assumption].
  rewrite Hlen, <- El, length_app. simpl. lia.
Qed.

(** X17.  Whatever index in [0, valid_cutpoint_count] the discrete
    distribution draws from the output of [Cutpoints], the three vectors are
    read in range: the index [valid_cutpoint_count] is "no split", and any
    smaller index gives a split on a feature [j] of the data with the type
    of that feature, at the value of a cutpoint index [c] below
    [NumCutpoints j - 1].  The feature [-1] of the last entry is never
    read. *)
Theorem chosen_rule_is_visited (node_begin node_end count0 split_chosen : Z) :
  let out := Cutpoints node_begin node_end count0 in
  (0 <= split_chosen <= Leaf.valid_cutpoint_count out)%Z ->
  (split_chosen = Leaf.valid_cutpoint_count out /\
   Draw.chosen_rule out split_chosen = Some Draw.NoSplit) \/
  (exists j c,
     Draw.chosen_rule out split_chosen =
     Some (Draw.SplitOn j (feature_types j) (IZR c)) /\
     (0 <= j < num_features)%Z /\ (0 <= c < NumCutpoints j - 1)%Z).
Proof.
  intros out.
  set (root := Leaf.root_suff_stat residual SortIndex node_begin node_end).
  pose proof (enumerate_counted residual SortIndex NumCutpoints BinStartIndex
                BinLength feature_types SampleGreaterThan tau outcome_variance
                min_samples_leaf num_features root count0) as Hcount.
  unfold Leaf.counted in Hcount. fold enumerate in Hcount.
  destruct (enumerate_recorded root count0)
    as (cs & (H1 & H2 & H3 & H4) & Hcs).
  rewrite H1 in Hcount.
  unfold Draw.chosen_rule, out, Cutpoints, Leaf.Cutpoints. cbv zeta. simpl.
  fold root. fold enumerate. intros Hi.
  destruct (Z.eqb_spec split_chosen
              (Leaf.num_cutpoints (enumerate root count0))) as [He|Hne].
  { left. split; [exact He|reflexivity]. }
  right.
  destruct (nth_error cs (Z.to_nat split_chosen)) as [[j c]|] eqn:En.
  2:{ apply nth_error_None in En. lia. }
  exists j, c.
  rewrite H2, H3, H4.
  rewrite (vec_at_map_app _ _ _ _ _ En), (vec_at_map_app _ _ _ _ _ En),
    (vec_at_map_app _ _ _ _ _ En) by lia.
  split; [reflexivity|].
  apply nth_error_In in En.
  rewrite Forall_forall in Hcs. exact (Hcs _ En).
Qed.

Lemma bin_scan_n (f : Z -> R) (size : Z)
  (s : Leaf.LeafConstantGaussianSuffStat) :
  Leaf.n (fold_left (fun s' k => Leaf.IncrementSuffStat s' (f k))
            (upto size) s) = (Leaf.n s + Z.max 0 size)%Z.
Proof.
  destruct (Z.le_gt_cases size 0) as [Hs|Hs].
  - rewrite upto_nonpos by exact Hs. simpl. lia.
  - replace (Z.max 0 size) with size by lia.
    pattern size. apply Zlt_lower_bound_ind with (z := 1%Z); [|lia].
    intros k IH Hk. destruct (Z.eq_dec k 1) as [->|Hne].
    + simpl. lia.
    + replace k with ((k - 1) + 1)%Z at 1 by lia.
      rewrite upto_succ, fold_left_app by lia. simpl.
      rewrite IH by lia. lia.
Qed.

Lemma fold_left_n {A : Type}
  (f : Leaf.Enumeration -> A -> Leaf.Enumeration) (g : Z -> A -> Z)
  (l : list A) :
  (forall e a,
     Leaf.n (Leaf.left_suff_stat (f e a)) =
     g (Leaf.n (Leaf.left_suff_stat e)) a) ->
  forall e,
    Leaf.n (Leaf.left_suff_stat (fold_left f l e)) =
    fold_left g l (Leaf.n (Leaf.left_suff_stat e)).
Proof.
  intros Hf. induction l as [|a l IH]; intros e; simpl; [reflexivity|].
  now rewrite IH, Hf.
Qed.

(** X18.  [left_suff_stat] is declared before the loop over the features
    and is not reset in it: when [Cutpoints] has scanned all features it
    counts the observations of every bin but the last of every feature, so
    from the second feature on the left statistic of a cutpoint includes the
    bins scanned for the features before it. *)
Theorem left_suff_stat_accumulates_over_features
  (root : Leaf.LeafConstantGaussianSuffStat) (count0 : Z) :
  Leaf.n (Leaf.left_suff_stat (enumerate root count0)) =
  Draw.scanned NumCutpoints BinLength num_features.
Proof.
  unfold enumerate, Leaf.enumerate, Draw.scanned.
  rewrite (fold_left_n _
             (fun acc j =>
                fold_left (fun acc' c => (acc' + Z.max 0 (BinLength c j))%Z)
                          (upto (NumCutpoints j - 1)) acc)).
  - reflexivity.
  - intros e j. unfold Leaf.feature_step.
    apply (fold_left_n _ (fun acc' c => (acc' + Z.max 0 (BinLength c j))%Z)).
    intros e' c. unfold Leaf.cutpoint_step. cbv zeta.
    destruct (_ && _); simpl; apply bin_scan_n.
Qed.

End SplitDraw.

Lemma real_exp_in_unit_interval :
  Draw.exp_in_unit_interval (fun x => Leaf.Real (exp x)).
Proof.
  split; [now rewrite exp_0|].
  intros x Hx. exists (exp x). split; [reflexivity|].
  split; [left; apply exp_pos|].
  destruct Hx as [Hlt| ->]; [|rewrite exp_0; lra].
  left. rewrite <- exp_0. now apply exp_increasing.
Qed.

Lemma default_tree_prior_in_range : Leaf.tree_prior_in_range (95 / 100) 2 0.
Proof. unfold Leaf.tree_prior_in_range. repeat split; try lra; lia. Qed.

Lemma split_weights_normalised_witness :
  let out :=
    Leaf.Cutpoints IZR (fun i _ => i) (fun _ => 3%Z) (fun c _ => c)
      (fun _ _ => 1%Z) (fun _ => Leaf.kNumeric)
      (fun s k => (k <? Leaf.n s)%Z) 1 1 (95 / 100) 2 0 0 1 0 3 0 in
  Leaf.tree_prior_in_range (95 / 100) 2 0 /\
  Draw.exp_in_unit_interval (fun x => Leaf.Real (exp x)) /\
  exists w : list R,
    Draw.cutpoint_evaluations (fun x => Leaf.Real (exp x))
      (Leaf.log_cutpoint_evaluations out) = Some (map Leaf.Real w) /\
    Z.of_nat (length w) = (Leaf.valid_cutpoint_count out + 1)%Z /\
    Forall (fun y => (0 <= y <= 1)%R) w /\
    In 1%R w.
Proof.
  split; [exact default_tree_prior_in_range|].
  split; [exact real_exp_in_unit_interval|].
  exact (split_weights_normalised IZR (fun i _ => i) (fun _ => 3%Z)
           (fun c _ => c) (fun _ _ => 1%Z) (fun _ => Leaf.kNumeric)
           (fun s k => (k <? Leaf.n s)%Z) 1 1 (95 / 100) 2 0 0 1
           (fun x => Leaf.Real (exp x)) 0 3 0
           default_tree_prior_in_range real_exp_in_unit_interval).
Defined.

Lemma chosen_rule_is_visited_witness :
  let out :=
    Leaf.Cutpoints IZR (fun i _ => i) (fun _ => 3%Z) (fun c _ => c)
      (fun _ _ => 1%Z) (fun _ => Leaf.kNumeric)
      (fun s k => (k <? Leaf.n s)%Z) 1 1 (95 / 100) 2 0 0 1 0 3 0 in
  (0 <= 1 <= Leaf.valid_cutpoint_count out)%Z /\
  ((1%Z = Leaf.valid_cutpoint_count out /\
    Draw.chosen_rule out 1 = Some Draw.NoSplit) \/
   (exists j c,
      Draw.chosen_rule out 1 =
      Some (Draw.SplitOn j Leaf.kNumeric (IZR c)) /\
      (0 <= j < 1)%Z /\ (0 <= c < 3 - 1)%Z)).
Proof.
  assert (Leaf.valid_cutpoint_count
            (Leaf.Cutpoints IZR (fun i _ => i) (fun _ => 3%Z) (fun c _ => c)
               (fun _ _ => 1%Z) (fun _ => Leaf.kNumeric)
               (fun s k => (k <? Leaf.n s)%Z) 1 1 (95 / 100) 2 0 0 1 0 3 0)
          = 2%Z) as Hc by reflexivity.
  split; [rewrite Hc; lia|].
  apply (chosen_rule_is_visited IZR (fun i _ => i) (fun _ => 3%Z)
           (fun c _ => c) (fun _ _ => 1%Z) (fun _ => Leaf.kNumeric)
           (fun s k => (k <? Leaf.n s)%Z) 1 1 (95 / 100) 2 0 0 1 0 3 0 1).
  rewrite Hc. lia.
Defined.

(** ** The statistics of a split and of its two children *)

Section EvaluateSplit.

Local Open Scope R_scope.

Variable covariates : Z -> Z -> R.
Variable residual : Z -> R.
Variable SplitTrueNumeric : R -> R -> bool.

Let split_step := Evaluate.split_step covariates residual SplitTrueNumeric.

Lemma stat_eq (a b : Leaf.LeafConstantGaussianSuffStat) :
  Evaluate.same_stat a b -> a = b.
Proof.
  destruct a, b. unfold Evaluate.same_stat. simpl.
  intros (-> & -> & ->). reflexivity.
Qed.

Lemma split_step_sum (feature_split : Z) (split_value : R)
  (st : Evaluate.Stats) (idx : Z) :
  Evaluate.sum_of (Evaluate.root_suff_stat st) (Evaluate.left_suff_stat st)
    (Evaluate.right_suff_stat st) ->
  let st' := split_step feature_split split_value st idx in
  Evaluate.sum_of (Evaluate.root_suff_stat st') (Evaluate.left_suff_stat st')
    (Evaluate.right_suff_stat st').
Proof.
  unfold Evaluate.sum_of, split_step, Evaluate.split_step. cbv zeta.
  intros (H1 & H2 & H3).
  destruct (SplitTrueNumeric _ _); simpl; rewrite H1, H2, H3;
    repeat split; try lia; lra.
Qed.

Lemma split_stats_sides (feature_split : Z) (split_value : R) (l : list Z) :
  forall st,
    let goes_left idx :=
      SplitTrueNumeric (covariates idx feature_split) split_value in
    let st' := fold_left (split_step feature_split split_value) l st in
    Evaluate.left_suff_stat st' =
    fold_left (fun s idx => Leaf.IncrementSuffStat s (residual idx))
      (filter goes_left l) (Evaluate.left_suff_stat st) /\
    Evaluate.right_suff_stat st' =
    fold_left (fun s idx => Leaf.IncrementSuffStat s (residual idx))
      (filter (fun idx => negb (goes_left idx)) l)
      (Evaluate.right_suff_stat st).
Proof.
  induction l as [|idx l IH]; intros st; cbv zeta; [split; reflexivity|].
  cbn [fold_left filter]. destruct (IH (split_step feature_split split_value
                                           st idx)) as (IHl & IHr).
  cbv zeta in IHl, IHr. rewrite IHl, IHr.
  unfold split_step, Evaluate.split_step. cbv zeta.
  destruct (SplitTrueNumeric _ _); simpl; split; reflexivity.
Qed.

Lemma children_stats_sides (l : list Z) :
  forall st,
    let st' := fold_left (Evaluate.left_step residual) l st in
    Evaluate.left_suff_stat st' =
    fold_left (fun s idx => Leaf.IncrementSuffStat s (residual idx)) l
      (Evaluate.left_suff_stat st) /\
    Evaluate.right_suff_stat st' = Evaluate.right_suff_stat st /\
    (Evaluate.sum_of (Evaluate.root_suff_stat st)
       (Evaluate.left_suff_stat st) (Evaluate.right_suff_stat st) ->
     Evaluate.sum_of (Evaluate.root_suff_stat st')
       (Evaluate.left_suff_stat st') (Evaluate.right_suff_stat st')).
Proof.
  induction l as [|idx l IH]; intros st; cbv zeta;
    [simpl; split; [reflexivity|split; [reflexivity|auto]]|].
  cbn [fold_left]. destruct (IH (Evaluate.left_step residual st idx))
    as (IHl & IHr & IHs). cbv zeta in IHl, IHr, IHs.
  split; [exact IHl|]. split; [exact IHr|].
  intros (H1 & H2 & H3). apply IHs.
  unfold Evaluate.sum_of. simpl. rewrite H1, H2, H3.
  repeat split; try lia; lra.
Qed.

Lemma children_stats_right (l : list Z) :
  forall st,
    let st' := fold_left (Evaluate.right_step residual) l st in
    Evaluate.left_suff_stat st' = Evaluate.left_suff_stat st /\
    Evaluate.right_suff_stat st' =
    fold_left (fun s idx => Leaf.IncrementSuffStat s (residual idx)) l
      (Evaluate.right_suff_stat st) /\
    (Evaluate.sum_of (Evaluate.root_suff_stat st)
       (Evaluate.left_suff_stat st) (Evaluate.right_suff_stat st) ->
     Evaluate.sum_of (Evaluate.root_suff_stat st')
       (Evaluate.left_suff_stat st') (Evaluate.right_suff_stat st')).
Proof.
  induction l as [|idx l IH]; intros st; cbv zeta;
    [simpl; split; [reflexivity|split; [reflexivity|auto]]|].
  cbn [fold_left]. destruct (IH (Evaluate.right_step residual st idx))
    as (IHl & IHr & IHs). cbv zeta in IHl, IHr, IHs.
  split; [exact IHl|]. split; [exact IHr|].
  intros (H1 & H2 & H3). apply IHs.
  unfold Evaluate.sum_of. simpl. rewrite H1, H2, H3.
  repeat split; try lia; lra.
Qed.

Lemma init_sum :
  Evaluate.sum_of (Evaluate.root_suff_stat Evaluate.init)
    (Evaluate.left_suff_stat Evaluate.init)
    (Evaluate.right_suff_stat Evaluate.init).
Proof. unfold Evaluate.sum_of. simpl. repeat split; try lia; lra. Qed.

Lemma split_stats_sum (feature_split : Z) (split_value : R) (l : list Z) :
  forall st,
    Evaluate.sum_of (Evaluate.root_suff_stat st)
      (Evaluate.left_suff_stat st) (Evaluate.right_suff_stat st) ->
    let st' := fold_left (split_step feature_split split_value) l st in
    Evaluate.sum_of (Evaluate.root_suff_stat st')
      (Evaluate.left_suff_stat st') (Evaluate.right_suff_stat st').
Proof.
  induction l as [|idx l IH]; intros st Hst; cbv zeta; [exact Hst|].
  cbn [fold_left]. apply IH. now apply split_step_sum.
Qed.

Lemma increment_n (f : Z -> R) (l : list Z) :
  forall s,
    Leaf.n (fold_left (fun s' idx => Leaf.IncrementSuffStat s' (f idx)) l s)
    = (Leaf.n s + Z.of_nat (length l))%Z.
Proof.
  induction l as [|idx l IH]; intros s; cbn [fold_left length]; [lia|].
  rewrite IH. simpl. lia.
Qed.

Lemma filter_split_length {A : Type} (p : A -> bool) (l : list A) :
  (length (filter p l) + length (filter (fun x => negb (p x)) l))%nat =
  length l.
Proof.
  induction l as [|x l IH]; simpl; [reflexivity|].
  destruct (p x); simpl; lia.
Qed.

(** X19.  In the grow overload the statistic of the node is, component by
    component, the sum of the statistics of the two sides, and the two
    counts returned add up to the number of observations of the node.  The
    prune overload, called on the observations that the split sends left
    and on the ones it sends right, computes the same three statistics as
    real numbers, so it returns the same tuple. *)
Theorem split_and_children_statistics_agree (feature_split : Z)
  (split_value tau outcome_variance : R) (node_indices : list Z) :
  let goes_left idx :=
    SplitTrueNumeric (covariates idx feature_split) split_value in
  let st :=
    Evaluate.split_stats covariates residual SplitTrueNumeric node_indices
      feature_split split_value in
  let st' :=
    Evaluate.children_stats residual (filter goes_left node_indices)
      (filter (fun idx => negb (goes_left idx)) node_indices) in
  Evaluate.sum_of (Evaluate.root_suff_stat st) (Evaluate.left_suff_stat st)
    (Evaluate.right_suff_stat st) /\
  (Leaf.n (Evaluate.left_suff_stat st) + Leaf.n (Evaluate.right_suff_stat st)
   = Z.of_nat (length node_indices))%Z /\
  Evaluate.result st' tau outcome_variance =
  Evaluate.result st tau outcome_variance.
Proof.
  intros goes_left st st'.
  assert (Evaluate.sum_of (Evaluate.root_suff_stat st)
            (Evaluate.left_suff_stat st) (Evaluate.right_suff_stat st))
    as Hsum.
  { apply (split_stats_sum feature_split split_value node_indices
             Evaluate.init init_sum). }
  destruct (split_stats_sides feature_split split_value node_indices
              Evaluate.init) as (Hl & Hr).
  cbv zeta in Hl, Hr. fold goes_left in Hl, Hr.
  change (fold_left _ node_indices Evaluate.init) with st in Hl, Hr.
  destruct (children_stats_sides (filter goes_left node_indices)
              Evaluate.init) as (Hl1 & Hr1 & Hs1).
  cbv zeta in Hl1, Hr1, Hs1.
  destruct (children_stats_right
              (filter (fun idx => negb (goes_left idx)) node_indices)
              (fold_left (Evaluate.left_step residual)
                 (filter goes_left node_indices) Evaluate.init))
    as (Hl2 & Hr2 & Hs2).
  cbv zeta in Hl2, Hr2, Hs2.
  change (fold_left (Evaluate.right_step residual) _ _) with st'
    in Hl2, Hr2, Hs2.
  assert (Evaluate.left_suff_stat st' = Evaluate.left_suff_stat st) as Hleft.
  { now rewrite Hl2, Hl1, Hl. }
  assert (Evaluate.right_suff_stat st' = Evaluate.right_suff_stat st)
    as Hright.
  { now rewrite Hr2, Hr1, Hr. }
  assert (Evaluate.root_suff_stat st' = Evaluate.root_suff_stat st) as Hroot.
  { apply stat_eq. specialize (Hs2 (Hs1 init_sum)).
    destruct Hs2 as (A1 & A2 & A3). destruct Hsum as (B1 & B2 & B3).
    unfold Evaluate.same_stat.
    rewrite A1, A2, A3, B1, B2, B3, Hleft, Hright. auto. }
  split; [exact Hsum|]. split.
  - rewrite Hl, Hr, !increment_n. simpl.
    pose proof (filter_split_length goes_left node_indices) as Hf.
    unfold goes_left in *. cbv beta in *. lia.
  - unfold Evaluate.result. now rewrite Hleft, Hright, Hroot.
Qed.

End EvaluateSplit.

(** ** The draw storage at the end of a run *)

Lemma sweep_draws (config : Driver.Config) (s : Driver.Storage) (i : Z) :
  Driver.model_draws_ (Driver.sweep config s i) =
  let draws1 :=
    if (i =? 0) || (Driver.prev_model_iter s <? Driver.model_iter s)
    then vec_set (Driver.model_draws_ s) (Driver.model_iter s) (Some [])
    else Driver.model_draws_ s in
  match vec_at draws1 (Driver.model_iter s) with
  | Some (Some sweeps) =>
      vec_set draws1 (Driver.model_iter s) (Some (i :: sweeps))
  | _ => draws1
  end.
Proof.
  unfold Driver.sweep. cbv zeta.
  destruct (Driver.num_burnin config <=? i); reflexivity.
Qed.

Lemma before_sweep_slots (config : Driver.Config) (k : nat) :
  0 <= Driver.num_burnin config ->
  1 <= Driver.num_samples config ->
  1 <= Z.of_nat k <= Driver.num_samples config + Driver.num_burnin config ->
  let draws := Driver.model_draws_ (Driver.before_sweep config (Z.of_nat k)) in
  vec_at draws 0 =
  Some (Some (rev (upto (Z.min (Z.of_nat k)
                           (Driver.num_burnin config + 1))))) /\
  forall j, 1 <= j < Driver.num_samples config ->
    vec_at draws j =
    Some (if Driver.num_burnin config + j <? Z.of_nat k
          then Some [Driver.num_burnin config + j] else None).
Proof.
  intros Hb Hs. induction k as [|k IH]; [lia|]. intros Hk.
  rewrite Nat2Z.inj_succ, <- Z.add_1_r in *.
  rewrite before_sweep_succ by lia. cbv zeta. rewrite sweep_draws.
  destruct (before_sweep_iters config k Hb) as [Hm Hp].
  pose proof (before_sweep_length config (Z.of_nat k)) as Hlen.
  set (s := Driver.before_sweep config (Z.of_nat k)) in *.
  set (nb := Driver.num_burnin config) in *.
  set (ns := Driver.num_samples config) in *.
  cbv zeta. rewrite Hm, Hp.
  destruct k as [|k'].
  - (* the first sweep *)
    change (Z.of_nat 0) with 0 in *. simpl (0 =? 0). cbn [orb].
    replace (Z.max 0 (0 - nb)) with 0 by lia.
    assert (Driver.model_draws_ s = repeat None (Z.to_nat ns)) as Hnew.
    { unfold s, Driver.before_sweep, Driver.new. simpl. apply resize_nil. }
    rewrite vec_at_set_same by lia.
    split.
    + rewrite vec_at_set_same by (rewrite vec_set_length; lia).
      replace (Z.min (0 + 1) (nb + 1)) with 1 by lia. reflexivity.
    + intros j Hj. rewrite !vec_at_set_other by lia.
      rewrite Hnew, vec_at_repeat by lia.
      destruct (Z.ltb_spec (nb + j) (0 + 1)); [lia|reflexivity].
  - destruct IH as [IH0 IHj]; [lia|]. cbv zeta in IH0, IHj.
    set (k := Z.of_nat (S k')) in *.
    assert (1 <= k) as Hk1 by (unfold k; lia).
    clearbody k s.
    destruct (Z.eqb_spec k 0) as [|_]; [lia|]. cbn [orb].
    destruct (Z.le_gt_cases k nb) as [Hle|Hgt].
    + (* a burn-in sweep: slot 0 again *)
      replace (Z.max 0 (k - nb)) with 0 by lia.
      replace (Z.max 0 (k - nb - 1)) with 0 by lia.
      change (0 <? 0) with false. cbv iota.
      rewrite IH0. split.
      * rewrite vec_at_set_same by lia.
        replace (Z.min k (nb + 1)) with k by lia.
        replace (Z.min (k + 1) (nb + 1)) with (k + 1) by lia.
        rewrite upto_succ, rev_app_distr by lia. reflexivity.
      * intros j Hj. rewrite vec_at_set_other by lia. rewrite IHj by lia.
        destruct (Z.ltb_spec (nb + j) k); [lia|].
        destruct (Z.ltb_spec (nb + j) (k + 1)); [lia|reflexivity].
    + (* a retained sweep: a fresh slot *)
      replace (Z.max 0 (k - nb)) with (k - nb) by lia.
      replace (Z.max 0 (k - nb - 1)) with (k - nb - 1) by lia.
      destruct (Z.ltb_spec (k - nb - 1) (k - nb)) as [_|]; [|lia].
      rewrite vec_at_set_same by lia. split.
      * rewrite !vec_at_set_other by lia. rewrite IH0.
        now replace (Z.min (k + 1) (nb + 1)) with (Z.min k (nb + 1)) by lia.
      * intros j Hj. destruct (Z.eq_dec j (k - nb)) as [->|Hne].
        -- rewrite vec_at_set_same by (rewrite vec_set_length; lia).
           destruct (Z.ltb_spec (nb + (k - nb)) (k + 1)); [|lia].
           now replace (nb + (k - nb)) with k by lia.
        -- rewrite !vec_at_set_other by lia. rewrite IHj by lia.
           destruct (Z.ltb_spec (nb + j) k);
             destruct (Z.ltb_spec (nb + j) (k + 1)); try lia; reflexivity.
Qed.

(** X20.  After the [num_samples + num_burnin] sweeps of the run no slot of
    [model_draws_] is null, so [PredictSamples] finds a draw object in every
    slot it reads: slot 0 holds the object that the sweeps
    [0 .. num_burnin] have all sampled into, every later slot [j] the object
    that the one sweep [num_burnin + j] has sampled into; the write index
    ends at [num_samples], never used as a slot. *)
Theorem run_fills_every_slot (config : Driver.Config) (j : Z) :
  0 <= Driver.num_burnin config ->
  0 <= j < Driver.num_samples config ->
  vec_at (Driver.model_draws_ (Driver.run config)) j =
  Some (Some (if j =? 0 then rev (upto (Driver.num_burnin config + 1))
              else [Driver.num_burnin config + j])) /\
  Driver.model_iter (Driver.run config) = Driver.num_samples config.
Proof.
  intros Hb Hj. unfold Driver.run.
  set (k := Driver.num_samples config + Driver.num_burnin config).
  destruct (before_sweep_slots config (Z.to_nat k) Hb) as [H0 Hslots];
    [lia|unfold k; lia|].
  destruct (before_sweep_iters config (Z.to_nat k) Hb) as [Hm _].
  cbv zeta in H0, Hslots.
  rewrite Z2Nat.id in H0, Hslots, Hm by (unfold k; lia).
  split; [|rewrite Hm; unfold k; lia].
  destruct (Z.eqb_spec j 0) as [->|Hne].
  - rewrite H0. now replace (Z.min k _) with (Driver.num_burnin config + 1)
      by (unfold k; lia).
  - rewrite Hslots by lia.
    destruct (Z.ltb_spec (Driver.num_burnin config + j) k);
      [reflexivity|unfold k in *; lia].
Qed.

Lemma run_fills_every_slot_witness :
  let config := {| Driver.num_samples := 3;
                   Driver.num_burnin := 2;
                   Driver.num_trees := 1 |} in
  vec_at (Driver.model_draws_ (Driver.run config)) 2 = Some (Some [4]) /\
  Driver.model_iter (Driver.run config) = 3.
Proof.
  apply (run_fills_every_slot
           {| Driver.num_samples := 3;
              Driver.num_burnin := 2;
              Driver.num_trees := 1 |} 2); simpl; lia.
Defined.

(** ** The move of one MCMC tree update *)

(** X21.  When the discrete distribution draws an index of positive weight,
    [SampleTree] attempts a grow only if some leaf has more than
    [2 * min_samples_leaf] observations, with [prob_grow] 0.5 when a prune
    is possible too and 1 otherwise, and attempts a prune only if the tree
    has more than one node; it is fatal exactly when no leaf can grow and
    the tree is a root alone. *)
Theorem SampleTree_move_is_possible (step_dist : list double -> Z)
  (NodeSize : Z -> Z) (leaves : list Z)
  (min_samples_leaf NumValidNodes : Z) :
  (forall probs prob_grow,
     Step.step_probs (Step.grow_possible NodeSize leaves min_samples_leaf)
       (Step.prune_possible NumValidNodes) = Some (probs, prob_grow) ->
     Step.positive_weight step_dist probs) ->
  match Step.SampleTree step_dist NodeSize leaves min_samples_leaf
          NumValidNodes with
  | Some (Step.GrowMove prob_grow) =>
      (exists leaf, In leaf leaves /\ 2 * min_samples_leaf < NodeSize leaf) /\
      prob_grow = if 1 <? NumValidNodes then 0.5%float else 1%float
  | Some Step.PruneMove => 1 < NumValidNodes
  | None =>
      (forall leaf, In leaf leaves -> NodeSize leaf <= 2 * min_samples_leaf)
      /\ NumValidNodes <= 1
  end.
Proof.
  intros Hdraw. unfold Step.SampleTree.
  assert (Step.grow_possible NodeSize leaves min_samples_leaf = true ->
          exists leaf, In leaf leaves /\ 2 * min_samples_leaf < NodeSize leaf)
    as Hgrow.
  { unfold Step.grow_possible. intros H. apply existsb_exists in H.
    destruct H as (leaf & Hin & Hlt). exists leaf. split; [exact Hin|lia]. }
  assert (Step.grow_possible NodeSize leaves min_samples_leaf = false ->
          forall leaf, In leaf leaves -> NodeSize leaf <= 2 * min_samples_leaf)
    as Hnogrow.
  { unfold Step.grow_possible. intros H leaf Hin.
    destruct (Z.ltb_spec (2 * min_samples_leaf) (NodeSize leaf)) as [Hlt|];
      [|lia].
    assert (existsb (fun leaf => 2 * min_samples_leaf <? NodeSize leaf)
              leaves = true) as Ht.
    { apply existsb_exists. exists leaf. split; [exact Hin|lia]. }
    congruence. }
  unfold Step.prune_possible in *.
  destruct (Step.grow_possible NodeSize leaves min_samples_leaf) eqn:Eg;
    destruct (Z.ltb_spec 1 NumValidNodes) as [Hp|Hp]; cbn [Step.step_probs
      andb negb] in *.
  - destruct (_ =? 0); [split; auto|exact Hp].
  - destruct (Hdraw _ _ eq_refl) as (w & Hw & Hpos).
    destruct (Z.eqb_spec (step_dist [1; 0]%float) 0) as [E0|E0];
      [split; auto|].
    exfalso. unfold vec_at in Hw.
    destruct (step_dist [1; 0]%float) as [|[p|p|]|p]; try discriminate;
      try lia; cbn in Hw.
    + destruct (Pos.to_nat p~1) as [|[|[|n]]] eqn:En; try lia;
        cbn in Hw; try discriminate.
    + destruct (Pos.to_nat p~0) as [|[|[|n]]] eqn:En; try lia;
        cbn in Hw; try discriminate.
    + injection Hw as <-. vm_compute in Hpos. discriminate.
  - destruct (Hdraw _ _ eq_refl) as (w & Hw & Hpos).
    destruct (Z.eqb_spec (step_dist [0; 1]%float) 0) as [E0|E0];
      [|exact Hp].
    exfalso. rewrite E0 in Hw. cbn in Hw. injection Hw as <-.
    vm_compute in Hpos. discriminate.
  - split; [auto|lia].
Qed.

Lemma SampleTree_move_is_possible_witness :
  match Step.SampleTree (fun _ => 0) (fun _ => 10) [0] 1 1 with
  | Some (Step.GrowMove prob_grow) =>
      (exists leaf, In leaf [0] /\ 2 * 1 < 10) /\
      prob_grow = (if 1 <? 1 then 0.5%float else 1%float)
  | Some Step.PruneMove => 1 < 1
  | None => (forall leaf, In leaf [0] -> 10 <= 2 * 1) /\ 1 <= 1
  end.
Proof.
  apply (SampleTree_move_is_possible (fun _ => 0) (fun _ => 10) [0] 1 1).
  intros probs prob_grow H. vm_compute in H. injection H as <- <-.
  exists 1%float. split; reflexivity.
Defined.

(** ** The ranges of the two children of a grow-from-root split *)

Lemma count_left_from (split_true : Z -> bool) (l : list Z) :
  forall acc,
    fold_left (fun left_n i => if split_true i then left_n + 1 else left_n)
      l acc = acc + Z.of_nat (length (filter split_true l)).
Proof.
  induction l as [|i l IH]; intros acc; simpl; [lia|].
  rewrite IH. destruct (split_true i); simpl; lia.
Qed.

Lemma filter_length_le {A : Type} (p : A -> bool) (l : list A) :
  (length (filter p l) <= length l)%nat.
Proof.
  induction l as [|x l IH]; simpl; [lia|]. destruct (p x); simpl; lia.
Qed.

(** X22.  When a grow-from-root split gives a node with the range
    [node_begin, node_end) two fresh children, the ranges entered for them
    in [node_index_map] tile the range of the parent: the left child gets
    [node_begin, mid) and the right child [mid, node_end), where
    [mid - node_begin] is the number of positions of the parent's range on
    which the split rule is true; no other entry of the map changes. *)
Theorem children_ranges_tile_parent (split_true : Z -> bool)
  (m : Ranges.node_index_map)
  (node_begin node_end left_node right_node : Z) :
  node_begin <= node_end ->
  left_node <> right_node ->
  Ranges.find m left_node = None ->
  Ranges.find m right_node = None ->
  let m' :=
    Ranges.AddSplitToModel_ranges split_true m node_begin node_end
      left_node right_node in
  let mid :=
    node_begin +
    Z.of_nat
      (length
         (filter split_true
            (map (fun k => node_begin + k) (upto (node_end - node_begin)))))
  in
  Ranges.lookup m' left_node = (node_begin, mid) /\
  Ranges.lookup m' right_node = (mid, node_end) /\
  node_begin <= mid <= node_end /\
  forall other, other <> left_node -> other <> right_node ->
    Ranges.find m' other = Ranges.find m other.
Proof.
  intros Hrange Hne Hl Hr m' mid.
  assert (Ranges.count_left split_true node_begin node_end =
          mid - node_begin) as Hcount.
  { unfold Ranges.count_left, mid. rewrite count_left_from. lia. }
  assert (m' = (right_node, (mid, node_end)) ::
               (left_node, (node_begin, mid)) :: m) as Hm'.
  { unfold m', Ranges.AddSplitToModel_ranges. cbv zeta. rewrite Hcount.
    replace (node_begin + (mid - node_begin)) with mid by lia.
    unfold Ranges.insert at 2. rewrite Hl.
    unfold Ranges.insert. cbn [Ranges.find].
    destruct (Z.eqb_spec left_node right_node); [contradiction|].
    now rewrite Hr. }
  rewrite Hm'. unfold Ranges.lookup. cbn [Ranges.find].
  rewrite !Z.eqb_refl.
  destruct (Z.eqb_spec right_node left_node); [congruence|].
  split; [reflexivity|]. split; [reflexivity|]. split.
  - unfold mid.
    pose proof (filter_length_le split_true
                  (map (fun k => node_begin + k)
                       (upto (node_end - node_begin)))) as Hle.
    assert (length (map (fun k => node_begin + k)
                        (upto (node_end - node_begin))) =
            Z.to_nat (node_end - node_begin)) as Hlen.
    { unfold upto. now rewrite !length_map, length_seq. }
    rewrite Hlen in Hle. lia.
  - intros other H1 H2.
    destruct (Z.eqb_spec right_node other); [congruence|].
    destruct (Z.eqb_spec left_node other); [congruence|reflexivity].
Qed.

Lemma children_ranges_tile_parent_witness :
  let m' :=
    Ranges.AddSplitToModel_ranges (fun i => i <? 4) [(0, (0, 10))] 2 7 1 2 in
  Ranges.lookup m' 1 = (2, 4) /\
  Ranges.lookup m' 2 = (4, 7) /\
  2 <= 4 <= 7 /\
  forall other, other <> 1 -> other <> 2 ->
    Ranges.find m' other = Ranges.find [(0, (0, 10))] other.
Proof.
  apply (children_ranges_tile_parent (fun i => i <? 4) [(0, (0, 10))]
           2 7 1 2); try reflexivity; lia.
Defined.

(** X23.  When a sweep [i >= 1] of the run starts, the slot
    [prev_model_iter] from which it reads the trees of the previous sweep
    holds the draw object that sweep [i - 1] was the last to sample into;
    the slot [model_iter] it writes is either that same slot (during
    burn-in, updated in place) or a slot that is still null and gets a
    fresh object. *)
Theorem previous_draw_is_last_sweep (config : Driver.Config) (i : Z) :
  0 <= Driver.num_burnin config ->
  1 <= Driver.num_samples config ->
  1 <= i < Driver.num_samples config + Driver.num_burnin config ->
  let s := Driver.before_sweep config i in
  (exists earlier,
     vec_at (Driver.model_draws_ s) (Driver.prev_model_iter s) =
     Some (Some (i - 1 :: earlier))) /\
  (Driver.model_iter s = Driver.prev_model_iter s \/
   vec_at (Driver.model_draws_ s) (Driver.model_iter s) = Some None).
Proof.
  intros Hb Hs Hi.
  destruct (before_sweep_slots config (Z.to_nat i) Hb Hs) as [H0 Hslots];
    [lia|].
  destruct (before_sweep_iters config (Z.to_nat i) Hb) as [Hm Hp].
  cbv zeta in H0, Hslots. rewrite Z2Nat.id in H0, Hslots, Hm, Hp by lia.
  cbv zeta. rewrite Hm, Hp.
  set (nb := Driver.num_burnin config) in *.
  destruct (Z.le_gt_cases i nb) as [Hle|Hgt].
  - (* burn-in: both indices are 0 *)
    replace (Z.max 0 (i - nb - 1)) with 0 by lia.
    replace (Z.max 0 (i - nb)) with 0 by lia.
    split; [|now left]. exists (rev (upto (i - 1))).
    rewrite H0. replace (Z.min i (nb + 1)) with ((i - 1) + 1) by lia.
    rewrite upto_succ, rev_app_distr by lia. reflexivity.
  - replace (Z.max 0 (i - nb)) with (i - nb) by lia.
    replace (Z.max 0 (i - nb - 1)) with (i - nb - 1) by lia.
    split.
    + destruct (Z.eq_dec i (nb + 1)) as [->|Hne].
      * exists (rev (upto nb)).
        replace (nb + 1 - nb - 1) with 0 by lia. rewrite H0.
        replace (Z.min (nb + 1) (nb + 1)) with (nb + 1) by lia.
        rewrite upto_succ, rev_app_distr by lia.
        now replace (nb + 1 - 1) with nb by lia.
      * exists []. rewrite Hslots by lia.
        destruct (Z.ltb_spec (nb + (i - nb - 1)) i); [|lia].
        now replace (nb + (i - nb - 1)) with (i - 1) by lia.
    + right. rewrite Hslots by lia.
      destruct (Z.ltb_spec (nb + (i - nb)) i); [lia|reflexivity].
Qed.

Lemma previous_draw_is_last_sweep_witness :
  let config := {| Driver.num_samples := 3;
                   Driver.num_burnin := 2;
                   Driver.num_trees := 1 |} in
  let s := Driver.before_sweep config 4 in
  (exists earlier,
     vec_at (Driver.model_draws_ s) (Driver.prev_model_iter s) =
     Some (Some (4 - 1 :: earlier))) /\
  (Driver.model_iter s = Driver.prev_model_iter s \/
   vec_at (Driver.model_draws_ s) (Driver.model_iter s) = Some None).
Proof.
  apply (previous_draw_is_last_sweep
           {| Driver.num_samples := 3;
              Driver.num_burnin := 2;
              Driver.num_trees := 1 |} 4); simpl; lia.
Defined.
